(** * arghi: sentence splitting, relevance scoring and the HTTP surface

    A shallow embedding of [arghi/highlight.py], [arghi/llm.py],
    [arghi/schema.py] and [server.py].

    Python values are modelled as follows.
    - [str] is a list of Unicode code points ([pystr]).
    - [bytes] is a list of integers in [0, 256).
    - [float] is an IEEE binary64 datum ([spec_float]); the program never
      computes with floats, it only stores, compares and forwards them.
    - A parsed JSON document is a [json] tree; objects are Python dicts.
    - Exceptions are values of [exn]; effectful functions live in the
      monad [M] over the [World] (environment variables, the request
      scoped context variable, the log of LLM calls and the two storage
      directories). *)

From Stdlib Require Import String Ascii.
From Stdlib Require Import DecimalString.
From Stdlib Require Import List ZArith NArith Lia Bool Permutation Sorted.
From Stdlib Require Import Floats.SpecFloat.
Import ListNotations.

Set Implicit Arguments.
Set Warnings "-register-all".

(** ** Python strings *)

Definition pystr := list N.

(** An ASCII literal as a Python string. *)
Definition lit (s : string) : pystr :=
  map N_of_ascii (list_ascii_of_string s).

Definition pystr_eqb (a b : pystr) : bool :=
  if list_eq_dec N.eq_dec a b then true else false.

Definition ch_space : N := 32.
Definition ch_newline : N := 10.
Definition ch_dquote : N := 34.
Definition ch_backtick : N := 96.

(** [str.isspace] per character, which is also what [\s] matches in a
    [str] pattern and what [str.strip] removes. *)
Definition is_space (c : N) : bool :=
  ((9 <=? c) && (c <=? 13) || (28 <=? c) && (c <=? 32)
   || (c =? 133) || (c =? 160) || (c =? 5760)
   || (8192 <=? c) && (c <=? 8202)
   || (c =? 8232) || (c =? 8233) || (c =? 8239) || (c =? 8287)
   || (c =? 12288))%N.

(** The character class [[.!?]]. *)
Definition is_terminal (c : N) : bool :=
  ((c =? 46) || (c =? 33) || (c =? 63))%N.

(** The character class [[A-Z]]. *)
Definition is_upper (c : N) : bool := ((65 <=? c) && (c <=? 90))%N.

Fixpoint drop_while (p : N -> bool) (s : pystr) : pystr :=
  match s with
  | [] => []
  | c :: s' => if p c then drop_while p s' else s
  end.

Fixpoint take_while (p : N -> bool) (s : pystr) : pystr :=
  match s with
  | [] => []
  | c :: s' => if p c then c :: take_while p s' else []
  end.

Definition lstrip (s : pystr) : pystr := drop_while is_space s.
Definition rstrip (s : pystr) : pystr := rev (drop_while is_space (rev s)).

(** [s.strip()] *)
Definition strip (s : pystr) : pystr := rstrip (lstrip s).

(** [s.startswith(p)] *)
Fixpoint startswith (p s : pystr) : bool :=
  match p, s with
  | [], _ => true
  | _ :: _, [] => false
  | a :: p', b :: s' => (a =? b)%N && startswith p' s'
  end.

(** [sep.join(parts)] *)
Fixpoint join (sep : pystr) (parts : list pystr) : pystr :=
  match parts with
  | [] => []
  | [p] => p
  | p :: rest => p ++ sep ++ join sep rest
  end.

(** Python truthiness of a [str]. *)
Definition nonempty (s : pystr) : bool :=
  match s with [] => false | _ :: _ => true end.

(** ** highlight.py: the sentence splitter *)

(** [re.sub(r'\s+', ' ', s)]: every maximal run of whitespace becomes one
    space.  [in_run] says that the previous character belonged to the run
    being replaced. *)
Fixpoint sub_ws (in_run : bool) (s : pystr) : pystr :=
  match s with
  | [] => []
  | c :: s' =>
      if is_space c
      then if in_run then sub_ws true s' else ch_space :: sub_ws true s'
      else c :: sub_ws false s'
  end.

(** The first statement of [split_sentences]:
    [re.sub(r'\s+', ' ', text.strip())]. *)
Definition normalize (text : pystr) : pystr := sub_ws false (strip text).

Definition starts_upper (s : pystr) : bool :=
  match s with c :: _ => is_upper c | [] => false end.

(** [$] without [re.MULTILINE]: the end of the string, or just before a
    newline that ends the string. *)
Definition at_dollar (rest : pystr) : bool :=
  match rest with
  | [] => true
  | [c] => (c =? ch_newline)%N
  | _ => false
  end.

(** One attempt to match
    [(?<=[.!?])\s+(?=[A-Z])|(?<=[.!?])$]
    at a position: [prev] is the character before the position (if any),
    [rest] the text from the position on.  The result is the length of the
    match.  [\s+] is greedy, and giving back whitespace never helps the
    look-ahead, so the first alternative matches exactly when the maximal
    whitespace run is non-empty and followed by a capital. *)
Definition boundary_match (prev : option N) (rest : pystr) : option nat :=
  match prev with
  | Some p =>
      if is_terminal p then
        let run := take_while is_space rest in
        if nonempty run && starts_upper (drop_while is_space rest)
        then Some (length run)
        else if at_dollar rest then Some 0
        else None
      else None
  | None => None
  end.

(** [re.split(pattern, text)] for the pattern above, as the scan of the
    regex engine: [piece] is the text since the end of the last match
    (reversed), [skip] the number of characters of the current match still
    to be consumed.  After an empty match the engine must advance, so the
    character at the position opens the next piece. *)
Fixpoint split_scan (prev : option N) (skip : nat) (piece : pystr)
    (rest : pystr) : list pystr :=
  match rest with
  | [] =>
      match boundary_match prev [] with
      | Some _ => [rev piece; []]
      | None => [rev piece]
      end
  | c :: rest' =>
      match skip with
      | S k => split_scan (Some c) k [] rest'
      | O =>
          match boundary_match prev rest with
          | Some (S k) => rev piece :: split_scan (Some c) k [] rest'
          | Some O => rev piece :: split_scan (Some c) 0 [c] rest'
          | None => split_scan (Some c) 0 (c :: piece) rest'
          end
      end
  end.

Definition re_split (text : pystr) : list pystr := split_scan None 0 [] text.

(** [[s.strip() for s in sentences if s.strip()]] *)
Definition clean_pieces (pieces : list pystr) : list pystr :=
  map strip (filter (fun s => nonempty (strip s)) pieces).

Definition split_sentences (text : pystr) : list pystr :=
  let text := normalize text in
  let sentences := re_split text in
  clean_pieces sentences.

(** ** hashlib.sha256 and str.encode

    [save_query] names its files after [hashlib.sha256(...).hexdigest()].
    The digest is the SHA-256 function of FIPS 180-4 on 32-bit words, here
    integers kept below [2^32]. *)

Module Sha256.

Local Open Scope Z_scope.

Definition mask32 : Z := 0xffffffff.
Definition wrap (x : Z) : Z := Z.land x mask32.
Definition add32 (x y : Z) : Z := wrap (x + y).
Definition not32 (x : Z) : Z := Z.lxor x mask32.
Definition rotr (n x : Z) : Z :=
  Z.lor (Z.shiftr x n) (wrap (Z.shiftl x (32 - n))).

Definition choose (x y z : Z) : Z :=
  Z.lxor (Z.land x y) (Z.land (not32 x) z).
Definition majority (x y z : Z) : Z :=
  Z.lxor (Z.lxor (Z.land x y) (Z.land x z)) (Z.land y z).
Definition big_sigma0 (x : Z) : Z :=
  Z.lxor (Z.lxor (rotr 2 x) (rotr 13 x)) (rotr 22 x).
Definition big_sigma1 (x : Z) : Z :=
  Z.lxor (Z.lxor (rotr 6 x) (rotr 11 x)) (rotr 25 x).
Definition small_sigma0 (x : Z) : Z :=
  Z.lxor (Z.lxor (rotr 7 x) (rotr 18 x)) (Z.shiftr x 3).
Definition small_sigma1 (x : Z) : Z :=
  Z.lxor (Z.lxor (rotr 17 x) (rotr 19 x)) (Z.shiftr x 10).

(** The words of the algorithm's tables are the first 32 bits of the
    fractional part of a root of a prime: [floor (root * 2^32)] modulo
    [2^32], which is the integer root of [p * 2^(32 k)]. *)
Definition is_prime (n : nat) : bool :=
  forallb (fun d => negb (Nat.eqb (Nat.modulo n d) 0)) (seq 2 (n - 2)).

(** The first 64 primes, 2 to 311. *)
Definition primes : list Z := map Z.of_nat (filter is_prime (seq 2 310)).

(** The largest [r] below [acc + 2^bits] with [r^k <= n], found bit by
    bit from [acc]. *)
Fixpoint integer_root (k : Z) (bits : nat) (n acc : Z) : Z :=
  match bits with
  | O => acc
  | S bits' =>
      let candidate := acc + 2 ^ Z.of_nat bits' in
      if candidate ^ k <=? n
      then integer_root k bits' n candidate
      else integer_root k bits' n acc
  end.

Definition root_fraction (k p : Z) : Z :=
  wrap (integer_root k 40 (Z.shiftl p (32 * k)) 0).

(** The round constants: cube roots of the first 64 primes. *)
Definition round_constants : list Z := map (root_fraction 3) primes.

(** The eight working variables, also the chaining value. *)
Record state : Type := State
{ va : Z; vb : Z; vc : Z; vd : Z; ve : Z; vf : Z; vg : Z; vh : Z }.

(** The initial chaining value: square roots of the first 8 primes. *)
Definition initial : state :=
  State (root_fraction 2 2) (root_fraction 2 3) (root_fraction 2 5)
        (root_fraction 2 7) (root_fraction 2 11) (root_fraction 2 13)
        (root_fraction 2 17) (root_fraction 2 19).

(** Big-endian bytes of a number, [n] of them. *)
Fixpoint be_bytes (n : nat) (x : Z) : list Z :=
  match n with
  | O => []
  | S n' => Z.land (Z.shiftr x (8 * Z.of_nat n')) 0xff :: be_bytes n' x
  end.

Definition be_word (bs : list Z) : Z :=
  fold_left (fun acc b => Z.lor (Z.shiftl acc 8) b) bs 0.

(** Message padding: a one bit, zeros up to 56 modulo 64, the bit length
    on eight bytes. *)
Definition pad (msg : list Z) : list Z :=
  let len := Z.of_nat (length msg) in
  msg ++ [0x80] ++ repeat 0 (Z.to_nat ((55 - len) mod 64))
      ++ be_bytes 8 (8 * len).

Fixpoint chunks (size count : nat) (bs : list Z) : list (list Z) :=
  match count with
  | O => []
  | S count' => firstn size bs :: chunks size count' (skipn size bs)
  end.

(** The message schedule, most recent word first while it is built. *)
Fixpoint extend (n : nat) (recent : list Z) : list Z :=
  match n with
  | O => recent
  | S n' =>
      let w :=
        add32 (add32 (small_sigma1 (nth 1 recent 0)) (nth 6 recent 0))
              (add32 (small_sigma0 (nth 14 recent 0)) (nth 15 recent 0)) in
      extend n' (w :: recent)
  end.

Definition schedule (block : list Z) : list Z :=
  rev (extend 48 (rev (map be_word (chunks 4 16 block)))).

Definition round (s : state) (kw : Z * Z) : state :=
  let t1 := add32 (add32 (add32 (vh s) (big_sigma1 (ve s)))
                         (add32 (choose (ve s) (vf s) (vg s)) (fst kw)))
                  (snd kw) in
  let t2 := add32 (big_sigma0 (va s)) (majority (va s) (vb s) (vc s)) in
  State (add32 t1 t2) (va s) (vb s) (vc s)
        (add32 (vd s) t1) (ve s) (vf s) (vg s).

Definition compress (h : state) (block : list Z) : state :=
  let s := fold_left round (combine round_constants (schedule block)) h in
  State (add32 (va h) (va s)) (add32 (vb h) (vb s))
        (add32 (vc h) (vc s)) (add32 (vd h) (vd s))
        (add32 (ve h) (ve s)) (add32 (vf h) (vf s))
        (add32 (vg h) (vg s)) (add32 (vh h) (vh s)).

Definition final_state (msg : list Z) : state :=
  let padded := pad msg in
  fold_left compress (chunks 64 (length padded / 64) padded) initial.

(** [hashlib.sha256(msg).digest()]: 32 bytes. *)
Definition digest (msg : list Z) : list Z :=
  let s := final_state msg in
  be_bytes 4 (va s) ++ be_bytes 4 (vb s) ++ be_bytes 4 (vc s)
    ++ be_bytes 4 (vd s) ++ be_bytes 4 (ve s) ++ be_bytes 4 (vf s)
    ++ be_bytes 4 (vg s) ++ be_bytes 4 (vh s).

End Sha256.

(** A lower-case hexadecimal digit, as a character. *)
Definition hex_digit (d : Z) : N :=
  if (d <? 10)%Z then Z.to_N (48 + d) else Z.to_N (87 + d).

(** Two hexadecimal digits per byte, as [bytes.hex] and [hexdigest] do. *)
Definition hex_of_bytes (bs : list Z) : pystr :=
  flat_map (fun b => [hex_digit (Z.shiftr b 4); hex_digit (Z.land b 15)]) bs.

(** [hashlib.sha256(msg).hexdigest()] *)
Definition sha256_hexdigest (msg : list Z) : pystr :=
  hex_of_bytes (Sha256.digest msg).

Definition is_surrogate (c : N) : bool := ((55296 <=? c) && (c <=? 57343))%N.

(** The UTF-8 bytes of one code point. *)
Definition utf8_char (c : N) : list Z :=
  let z := Z.of_N c in
  (if z <? 0x80 then [z]
   else if z <? 0x800 then
     [Z.lor 0xc0 (Z.shiftr z 6); Z.lor 0x80 (Z.land z 0x3f)]
   else if z <? 0x10000 then
     [Z.lor 0xe0 (Z.shiftr z 12);
      Z.lor 0x80 (Z.land (Z.shiftr z 6) 0x3f);
      Z.lor 0x80 (Z.land z 0x3f)]
   else
     [Z.lor 0xf0 (Z.shiftr z 18);
      Z.lor 0x80 (Z.land (Z.shiftr z 12) 0x3f);
      Z.lor 0x80 (Z.land (Z.shiftr z 6) 0x3f);
      Z.lor 0x80 (Z.land z 0x3f)])%Z.

(** [s.encode()]: UTF-8 with strict error handling, which refuses lone
    surrogates ([None] stands for [UnicodeEncodeError]). *)
Fixpoint encode (s : pystr) : option (list Z) :=
  match s with
  | [] => Some []
  | c :: s' =>
      if is_surrogate c then None
      else match encode s' with
           | Some bs => Some (utf8_char c ++ bs)
           | None => None
           end
  end.

(** ** JSON values and Python dictionaries *)

(** What [json.loads] returns: [None], [bool], [int], [float], [str],
    [list] and [dict] (with [str] keys, in insertion order). *)
Inductive json : Type :=
| JNull
| JBool (b : bool)
| JInt (z : Z)
| JFloat (f : spec_float)
| JStr (s : pystr)
| JArr (items : list json)
| JObj (fields : list (pystr * json)).

(** A Python dict with [str] keys, as an association list. *)
Definition pydict := list (pystr * json).

(** [d.get(k)] on such a dict; [None] when the key is absent. *)
Fixpoint lookup (d : pydict) (k : pystr) : option json :=
  match d with
  | [] => None
  | (k', v) :: d' => if pystr_eqb k' k then Some v else lookup d' k
  end.

(** Dictionary keys up to Python equality.  Numbers that compare equal
    ([1 == 1.0 == True]) are one key: a finite number is kept as
    [m * 2^e] with [m] odd (or [0 * 2^0]). *)
Inductive key : Type :=
| KNone
| KNum (m e : Z)
| KInf (negative : bool)
| KNan
| KStr (s : pystr).

Fixpoint odd_part (p : positive) (e : Z) : positive * Z :=
  match p with
  | xO p' => odd_part p' (e + 1)
  | _ => (p, e)
  end.

Definition dyadic (m e : Z) : key :=
  match m with
  | Z0 => KNum 0 0
  | Zpos p => let (q, e') := odd_part p e in KNum (Zpos q) e'
  | Zneg p => let (q, e') := odd_part p e in KNum (Zneg q) e'
  end.

Definition key_of_int (z : Z) : key := dyadic z 0.

Definition key_of_float (f : spec_float) : key :=
  match f with
  | S754_zero _ => KNum 0 0
  | S754_infinity s => KInf s
  | S754_nan => KNan
  | S754_finite s m e => dyadic (if s then Zneg m else Zpos m) e
  end.

Definition key_eq_dec (a b : key) : {a = b} + {a <> b}.
Proof.
  decide equality;
    try apply Z.eq_dec; try apply Bool.bool_dec;
    apply (list_eq_dec N.eq_dec).
Defined.

Definition key_eqb (a b : key) : bool :=
  if key_eq_dec a b then true else false.

(** A dict keyed by arbitrary hashable values, in insertion order. *)
Definition keydict (V : Type) := list (key * V).

(** [d[k] = v]: an equal key keeps its place and takes the new value. *)
Fixpoint dict_set {V} (d : keydict V) (k : key) (v : V) : keydict V :=
  match d with
  | [] => [(k, v)]
  | (k', v') :: d' =>
      if key_eqb k' k then (k', v) :: d' else (k', v') :: dict_set d' k v
  end.

Fixpoint dict_get {V} (d : keydict V) (k : key) : option V :=
  match d with
  | [] => None
  | (k', v) :: d' => if key_eqb k' k then Some v else dict_get d' k
  end.

(** ** Exceptions and results *)

Inductive exn : Type :=
| LLMNotConfigured (msg : pystr)
| LLMCallError (msg : pystr)
| ValueError (msg : pystr)
| KeyError (k : pystr)
| TypeError (msg : pystr)
| ValidationError (model : pystr) (fields : list pystr)
| AttributeError (msg : pystr)
| UnicodeEncodeError
| ServiceError (msg : pystr)
| HTTPException (status_code : Z) (detail : pystr).

Inductive result (A : Type) : Type :=
| Ok (a : A)
| Raise (e : exn).

Arguments Ok {A} a.
Arguments Raise {A} e.

Definition rbind {A B} (r : result A) (k : A -> result B) : result B :=
  match r with
  | Ok a => k a
  | Raise e => Raise e
  end.

Notation "'let?' x := r 'in' k" := (rbind r (fun x => k))
  (at level 10, x name, r at level 100, k at level 200).

(** The running of a loop body over a list, stopping at the first
    exception. *)
Fixpoint rfold {A S} (body : S -> A -> result S) (l : list A) (s : S)
    : result S :=
  match l with
  | [] => Ok s
  | a :: l' => rbind (body s a) (rfold body l')
  end.

Fixpoint rmap {A B} (f : A -> result B) (l : list A) : result (list B) :=
  match l with
  | [] => Ok []
  | a :: l' =>
      rbind (f a) (fun b => rbind (rmap f l') (fun bs => Ok (b :: bs)))
  end.

(** [hash(v)] as used for a dict key: lists and dicts are unhashable. *)
Definition hash_key (v : json) : result key :=
  match v with
  | JNull => Ok KNone
  | JBool b => Ok (key_of_int (if b then 1 else 0))
  | JInt z => Ok (key_of_int z)
  | JFloat f => Ok (key_of_float f)
  | JStr s => Ok (KStr s)
  | JArr _ => Raise (TypeError (lit "unhashable type: 'list'"))
  | JObj _ => Raise (TypeError (lit "unhashable type: 'dict'"))
  end.

(** [v[k]] for a string [k]: a dict raises [KeyError] when the key is
    absent, every other JSON value raises [TypeError]. *)
Definition subscript (v : json) (k : pystr) : result json :=
  match v with
  | JObj d =>
      match lookup d k with
      | Some x => Ok x
      | None => Raise (KeyError k)
      end
  | JArr _ => Raise (TypeError (lit "list indices must be integers or slices, not str"))
  | JStr _ => Raise (TypeError (lit "string indices must be integers, not 'str'"))
  | _ => Raise (TypeError (lit "object is not subscriptable"))
  end.

(** [for item in v]: a list yields its items, a dict its keys, a string
    its characters; nothing else is iterable. *)
Definition iterate (v : json) : result (list json) :=
  match v with
  | JArr items => Ok items
  | JObj d => Ok (map (fun kv => JStr (fst kv)) d)
  | JStr s => Ok (map (fun c => JStr [c]) s)
  | _ => Raise (TypeError (lit "object is not iterable"))
  end.

(** ** schema.py *)

Record HighlightRequest : Type := mkRequest
  { req_text : pystr;
    req_question : pystr;
    req_api_key : option pystr }.

Record SentenceScore : Type := mkSentenceScore
  { ss_index : nat;
    ss_text : pystr;
    ss_score : spec_float;
    ss_rationale : option pystr }.

Record HighlightResponse : Type := mkResponse
  { resp_sentences : list SentenceScore;
    resp_question : pystr }.

(** The fields [HighlightResponse] declares. *)
Definition HighlightResponse_fields : list pystr :=
  [lit "sentences"; lit "question"].

(** ** The world a request runs in *)

Inductive Client : Type :=
| ApiKeyClient (api_key : pystr)
| VertexClient (project : pystr) (location : pystr).

(** One call of [client.models.generate_content]. *)
Record LLMCall : Type := mkCall
  { call_client : Client;
    call_model : pystr;
    call_contents : pystr;
    call_temperature : spec_float }.

(** What the service does with a call: it raises, or returns a response
    whose [.text] may be [None]. *)
Inductive LLMReply : Type :=
| ReplyText (text : option pystr)
| ReplyRaises (e : exn).

(** A directory of JSON files: file name and the dumped value. *)
Definition directory (V : Type) := list (pystr * V).

Record World : Type := mkWorld
  { environ : list (pystr * pystr);
    request_api_key : option pystr;
    llm : LLMCall -> LLMReply;
    llm_log : list LLMCall;
    saved : option (directory (pystr * pystr));
    saved_results : option (directory HighlightResponse) }.

(** The state and exception monad of the request handlers. *)
Definition M (A : Type) : Type := World -> result A * World.

Definition ret {A} (a : A) : M A := fun w => (Ok a, w).
Definition raise {A} (e : exn) : M A := fun w => (Raise e, w).
Definition bind {A B} (m : M A) (k : A -> M B) : M B :=
  fun w =>
    match m w with
    | (Ok a, w') => k a w'
    | (Raise e, w') => (Raise e, w')
    end.
Definition lift {A} (r : result A) : M A := fun w => (r, w).

Notation "x <- m ;; k" := (bind m (fun x => k))
  (at level 61, m at next level, right associativity).
Notation "m ;;; k" := (bind m (fun _ => k))
  (at level 61, right associativity).

(** Python truthiness of an [Optional[str]]. *)
Definition truthy (o : option pystr) : bool :=
  match o with
  | Some (_ :: _) => true
  | _ => false
  end.

(** [a or b] *)
Definition py_or (a b : option pystr) : option pystr :=
  if truthy a then a else b.

(** [os.getenv(name)] *)
Fixpoint env_lookup (e : list (pystr * pystr)) (name : pystr)
    : option pystr :=
  match e with
  | [] => None
  | (k, v) :: e' => if pystr_eqb k name then Some v else env_lookup e' name
  end.

Definition getenv (w : World) (name : pystr) : option pystr :=
  env_lookup (environ w) name.

(** [os.getenv(name, default)] *)
Definition getenv_default (w : World) (name default : pystr) : pystr :=
  match getenv w name with
  | Some v => v
  | None => default
  end.

(** ** llm.py *)

Definition set_request_api_key (api_key : option pystr) : M unit :=
  fun w =>
    (Ok tt,
     mkWorld (environ w) api_key (llm w) (llm_log w)
             (saved w) (saved_results w)).

Definition get_request_api_key : M (option pystr) :=
  fun w => (Ok (request_api_key w), w).

Definition not_configured_message : pystr :=
  lit "No LLM configuration found. Provide a Gemini API key or set GOOGLE_CLOUD_PROJECT.".

Definition init_llm_client (api_key project location : option pystr)
    : M Client :=
  fun w =>
    let gemini_api_key :=
      py_or (py_or api_key (request_api_key w))
            (getenv w (lit "GEMINI_API_KEY")) in
    let google_cloud_project :=
      py_or project (getenv w (lit "GOOGLE_CLOUD_PROJECT")) in
    let google_cloud_location :=
      py_or location
            (Some (getenv_default w (lit "GOOGLE_CLOUD_LOCATION")
                                  (lit "us-central1"))) in
    match gemini_api_key with
    | Some (c :: k) => (Ok (ApiKeyClient (c :: k)), w)
    | _ =>
        match google_cloud_project with
        | Some (c :: p) =>
            (Ok (VertexClient (c :: p)
                   (match google_cloud_location with
                    | Some l => l
                    | None => []
                    end)), w)
        | _ => (Raise (LLMNotConfigured not_configured_message), w)
        end
    end.

(** The world once the service has received one more call. *)
Definition log_call (w : World) (call : LLMCall) : World :=
  mkWorld (environ w) (request_api_key w) (llm w)
          (llm_log w ++ [call]) (saved w) (saved_results w).

(** [client.models.generate_content(...)]: the call reaches the service,
    which answers or raises. *)
Definition generate_content (client : Client) (model contents : pystr)
    (temperature : spec_float) : M (option pystr) :=
  fun w =>
    let call := mkCall client model contents temperature in
    let w' := log_call w call in
    match llm w call with
    | ReplyText t => (Ok t, w')
    | ReplyRaises e => (Raise e, w')
    end.

Definition default_model : pystr := lit "gemini-2.5-flash".
Definition zero_float : spec_float := S754_zero false.

Definition call_llm (prompt model : pystr) (temperature : spec_float)
    : M pystr :=
  client <- init_llm_client None None None ;;
  text <- generate_content client model prompt temperature ;;
  match text with
  | Some (c :: t) => ret (c :: t)
  | _ => raise (LLMCallError (lit "Empty response from LLM"))
  end.

(** ** Library behaviour the program relies on

    [json.loads] and the float validation of the schema models are not
    part of the program; they are an interface.  [json_loads] returns the
    decoder's error text or the decoded value.  [validate_float] is the
    coercion a [float] field applies to its input; a [float] input is
    always accepted as it is. *)
Class Platform : Type :=
  { json_loads : pystr -> pystr + json;
    validate_float : json -> option spec_float;
    validate_float_exact : forall f, validate_float (JFloat f) = Some f }.

(** The validation of an [Optional[str]] field: [None] or a [str]. *)
Definition validate_optional_str (v : json) : option (option pystr) :=
  match v with
  | JNull => Some None
  | JStr s => Some (Some s)
  | _ => None
  end.

(** [enumerate(l)] *)
Definition enumerate {A} (l : list A) : list (nat * A) :=
  combine (seq 0 (length l)) l.

(** [str(n)] for a natural number. *)
Definition str_of_nat (n : nat) : pystr :=
  lit (NilEmpty.string_of_uint (Nat.to_uint n)).

(** [item.get(k, default)]; only dicts have [get]. *)
Definition get (item : json) (k : pystr) (default : json) : result json :=
  match item with
  | JObj d =>
      Ok (match lookup d k with
          | Some v => v
          | None => default
          end)
  | _ => Raise (AttributeError (lit "object has no attribute 'get'"))
  end.

Definition quoted (s : string) : pystr := ch_dquote :: lit s ++ [ch_dquote].

(** The prompt of [score_sentences]. *)
Definition build_prompt (question numbered : pystr) : pystr :=
  join [ch_newline]
    [ lit "You are analyzing a text to find parts relevant to a specific question.";
      [];
      lit "QUESTION: " ++ question;
      [];
      lit "TEXT (numbered sentences):";
      numbered;
      [];
      lit "For each sentence, score its relevance to answering the question on a scale of 0.0 to 1.0:";
      lit "- 0.0 = completely irrelevant";
      lit "- 0.3 = tangentially related";
      lit "- 0.5 = somewhat relevant";
      lit "- 0.7 = relevant";
      lit "- 1.0 = directly answers or is crucial to the question";
      [];
      lit "Return a JSON object with this exact format:";
      lit "{";
      lit "  " ++ quoted "scores" ++ lit ": [";
      lit "    {" ++ quoted "index" ++ lit ": 1, " ++ quoted "score"
        ++ lit ": 0.8, " ++ quoted "rationale" ++ lit ": "
        ++ quoted "brief reason" ++ lit "},";
      lit "    {" ++ quoted "index" ++ lit ": 2, " ++ quoted "score"
        ++ lit ": 0.2, " ++ quoted "rationale" ++ lit ": "
        ++ quoted "brief reason" ++ lit "},";
      lit "    ...";
      lit "  ]";
      lit "}";
      [];
      lit "Include ALL sentences. Be precise with scores - most sentences should be low (0.0-0.3) unless truly relevant.";
      lit "Return ONLY the JSON, no other text." ].

(** The prompt for a list of sentences: each sentence on its own line
    after its 1-based number. *)
Definition scoring_prompt (sentences : list pystr) (question : pystr)
    : pystr :=
  let numbered :=
    join [ch_newline]
      (map (fun entry => str_of_nat (fst entry + 1) ++ lit ". " ++ snd entry)
           (enumerate sentences)) in
  build_prompt question numbered.

Definition fence : pystr := [ch_backtick; ch_backtick; ch_backtick].

Definition drop_prefix (p s : pystr) : pystr :=
  if startswith p s then skipn (length p) s else s.

(** [re.sub(r'^```(?:json)?\n?', '', s)]: the pattern is anchored at the
    start, so at most the opening marker is removed. *)
Definition sub_fence_open (s : pystr) : pystr :=
  if startswith fence s
  then drop_prefix [ch_newline] (drop_prefix (lit "json") (skipn 3 s))
  else s.

(** [re.sub(r'\n?```$', '', s)]: the match ends at the end of the string
    or just before a final newline, and starts as far left as it can. *)
Definition sub_fence_close (s : pystr) : pystr :=
  let r := rev s in
  if startswith fence r
  then rev (drop_prefix [ch_newline] (skipn 3 r))
  else if startswith (ch_newline :: fence) r
  then rev (ch_newline :: drop_prefix [ch_newline] (skipn 4 r))
  else s.

(** The text handed to [json.loads]. *)
Definition clean_response (response : pystr) : pystr :=
  let response := strip response in
  if startswith fence response
  then sub_fence_close (sub_fence_open response)
  else response.

Definition parse_failure_message (e response : pystr) : pystr :=
  lit "Failed to parse LLM response as JSON: " ++ e
    ++ [ch_newline] ++ lit "Response: " ++ response.

Definition default_item : json :=
  JObj [(lit "score", JFloat zero_float); (lit "rationale", JNull)].

Section Program.

Context {P : Platform}.

(** ** highlight.py: the scorer *)

(** [SentenceScore(index=..., text=..., score=..., rationale=...)]:
    the model validates its fields and reports the ones that fail. *)
Definition make_SentenceScore (index : nat) (text : pystr)
    (score rationale : json) : result SentenceScore :=
  match validate_float score, validate_optional_str rationale with
  | Some f, Some r => Ok (mkSentenceScore index text f r)
  | None, Some _ => Raise (ValidationError (lit "SentenceScore") [lit "score"])
  | Some _, None =>
      Raise (ValidationError (lit "SentenceScore") [lit "rationale"])
  | None, None =>
      Raise (ValidationError (lit "SentenceScore")
               [lit "score"; lit "rationale"])
  end.

(** [{item["index"]: item for item in data["scores"]}], one step. *)
Definition index_item (d : keydict json) (item : json)
    : result (keydict json) :=
  let? idx := subscript item (lit "index") in
  let? k := hash_key idx in
  Ok (dict_set d k item).

(** The body of the loop over [enumerate(sentences)]. *)
Definition score_one (scores_by_index : keydict json)
    (entry : nat * pystr) : result SentenceScore :=
  let (i, sentence) := entry in
  let idx := i + 1 in
  let item :=
    match dict_get scores_by_index (key_of_int (Z.of_nat idx)) with
    | Some it => it
    | None => default_item
    end in
  let? score := get item (lit "score") (JFloat zero_float) in
  let? rationale := get item (lit "rationale") JNull in
  make_SentenceScore i sentence score rationale.

(** [score_sentences] from "Build scored sentences" on: what it does
    with the decoded response. *)
Definition build_scores (sentences : list pystr) (data : json)
    : result (list SentenceScore) :=
  let? scores := subscript data (lit "scores") in
  let? items := iterate scores in
  let? scores_by_index := rfold index_item items [] in
  rmap (score_one scores_by_index) (enumerate sentences).

Definition score_sentences (sentences : list pystr)
    (question model : pystr) : M (list SentenceScore) :=
  let prompt := scoring_prompt sentences question in
  response <- call_llm prompt model zero_float ;;
  let response := clean_response response in
  data <- match json_loads response with
          | inr data => ret data
          | inl e => raise (ValueError (parse_failure_message e response))
          end ;;
  lift (build_scores sentences data).

(** ** highlight.py: the orchestrator *)

Definition highlight_text (text question model : pystr)
    : M HighlightResponse :=
  let sentences := split_sentences text in
  match sentences with
  | [] => ret (mkResponse [] question)
  | _ :: _ =>
      scored <- score_sentences sentences question model ;;
      ret (mkResponse scored question)
  end.

(** ** server.py *)

(** [Path(...).mkdir(exist_ok=True)] on the two storage directories. *)
Definition mkdir_saved : M unit :=
  fun w =>
    (Ok tt,
     mkWorld (environ w) (request_api_key w) (llm w) (llm_log w)
             (Some (match saved w with Some d => d | None => [] end))
             (saved_results w)).

Definition mkdir_saved_results : M unit :=
  fun w =>
    (Ok tt,
     mkWorld (environ w) (request_api_key w) (llm w) (llm_log w)
             (saved w)
             (Some (match saved_results w with
                    | Some d => d
                    | None => []
                    end))).

(** Writing a whole file: a file of that name is replaced. *)
Fixpoint write_file {V} (d : directory V) (name : pystr) (content : V)
    : directory V :=
  match d with
  | [] => [(name, content)]
  | (n, c) :: d' =>
      if pystr_eqb n name then (n, content) :: d'
      else (n, c) :: write_file d' name content
  end.

Fixpoint read_file {V} (d : directory V) (name : pystr) : option V :=
  match d with
  | [] => None
  | (n, c) :: d' => if pystr_eqb n name then Some c else read_file d' name
  end.

Definition dump_query (name : pystr) (query_data : pystr * pystr)
    : M unit :=
  fun w =>
    (Ok tt,
     mkWorld (environ w) (request_api_key w) (llm w) (llm_log w)
             (Some (write_file
                      (match saved w with Some d => d | None => [] end)
                      name query_data))
             (saved_results w)).

Definition dump_result (name : pystr) (response : HighlightResponse)
    : M unit :=
  fun w =>
    (Ok tt,
     mkWorld (environ w) (request_api_key w) (llm w) (llm_log w)
             (saved w)
             (Some (write_file
                      (match saved_results w with
                       | Some d => d
                       | None => []
                       end)
                      name response))).

Definition save_query (req : HighlightRequest)
    (response : HighlightResponse) : M pystr :=
  mkdir_saved ;;;
  mkdir_saved_results ;;;
  let query_str := req_text req ++ lit "|" ++ req_question req in
  encoded <- match encode query_str with
             | Some bs => ret bs
             | None => raise UnicodeEncodeError
             end ;;
  let query_hash := firstn 12 (sha256_hexdigest encoded) in
  let query_data := (req_text req, req_question req) in
  dump_query (query_hash ++ lit ".json") query_data ;;;
  dump_result (query_hash ++ lit ".json") response ;;;
  ret query_hash.

(** [response.hash = query_hash]: a model instance takes assignments
    to its declared fields only, and raises [ValueError] for any other
    name. *)
Definition set_hash (response : HighlightResponse) (query_hash : pystr)
    : result HighlightResponse :=
  if existsb (pystr_eqb (lit "hash")) HighlightResponse_fields
  then Ok response
  else Raise (ValueError
                (quoted "HighlightResponse" ++ lit " object has no field "
                   ++ quoted "hash")).

(** The [try] of [highlight]: two exception classes are turned into
    HTTP errors, everything else propagates. *)
Definition map_llm_errors {A} (m : M A) : M A :=
  fun w =>
    match m w with
    | (Raise (LLMNotConfigured msg), w') =>
        (Raise (HTTPException 400 msg), w')
    | (Raise (LLMCallError msg), w') =>
        (Raise (HTTPException 500 msg), w')
    | other => other
    end.

(** "Set API key from header or body": the first statement of
    [highlight]. *)
Definition adopt_api_key (req : HighlightRequest)
    (x_api_key : option pystr) : M unit :=
  let api_key := py_or x_api_key (req_api_key req) in
  if truthy api_key then set_request_api_key api_key else ret tt.

(** [POST /api/highlight] *)
Definition highlight (req : HighlightRequest) (x_api_key : option pystr)
    : M HighlightResponse :=
  adopt_api_key req x_api_key ;;;
  response <- map_llm_errors
                (highlight_text (req_text req) (req_question req)
                                default_model) ;;
  query_hash <- save_query req response ;;
  response <- lift (set_hash response query_hash) ;;
  ret response.

(** What the client receives.  A returned model is the 200 payload; an
    [HTTPException] is answered with its status and detail; any other
    exception is answered by the framework with a bare 500. *)
Inductive HttpBody : Type :=
| BodyModel (r : HighlightResponse)
| BodyDetail (detail : pystr)
| BodyText (text : pystr).

Definition http_response (r : result HighlightResponse) : Z * HttpBody :=
  match r with
  | Ok resp => (200%Z, BodyModel resp)
  | Raise (HTTPException status_code detail) =>
      (status_code, BodyDetail detail)
  | Raise _ => (500%Z, BodyText (lit "Internal Server Error"))
  end.

End Program.

(** ** server.py: the stored documents and the read endpoints

    A file of a storage directory is kept as the value [save_query]
    dumped into it; [json.load] gives the dumped document back.  The
    two documents are the dict of [save_query] and the [model_dump] of
    the response. *)

Definition query_document (query_data : pystr * pystr) : json :=
  JObj [(lit "text", JStr (fst query_data));
        (lit "question", JStr (snd query_data))].

Definition dump_SentenceScore (ss : SentenceScore) : json :=
  JObj [(lit "index", JInt (Z.of_nat (ss_index ss)));
        (lit "text", JStr (ss_text ss));
        (lit "score", JFloat (ss_score ss));
        (lit "rationale",
         match ss_rationale ss with
         | Some r => JStr r
         | None => JNull
         end)].

(** [response.model_dump()] *)
Definition model_dump (response : HighlightResponse) : json :=
  JObj [(lit "sentences",
         JArr (map dump_SentenceScore (resp_sentences response)));
        (lit "question", JStr (resp_question response))].

(** [GET /api/health] *)
Definition health : json := JObj [(lit "status", JStr (lit "ok"))].

(** [s.endswith(p)] *)
Definition endswith (p s : pystr) : bool := startswith (rev p) (rev s).

(** [saved_dir.glob("*.json")]: the files whose name ends in [.json],
    in the order the directory yields them. *)
Definition glob_json {V} (d : directory V) : directory V :=
  filter (fun f => endswith (lit ".json") (fst f)) d.

Definition is_dot (c : N) : bool := (c =? 46)%N.

(** [f.stem]: the name without its suffix.  The suffix starts at the
    last dot of the name, unless that dot is the first or the last
    character. *)
Definition stem (name : pystr) : pystr :=
  let r := rev name in
  let ext := take_while (fun c => negb (is_dot c)) r in
  match drop_while (fun c => negb (is_dot c)) r with
  | [] => name
  | _ :: base =>
      if nonempty ext && nonempty base then rev base else name
  end.

(** [sorted(files, key=..., reverse=True)]: descending by key, files
    with equal keys in their original order. *)
Fixpoint insert_by {A} (key : A -> Z) (x : A) (l : list A) : list A :=
  match l with
  | [] => [x]
  | y :: l' =>
      if (key y <=? key x)%Z then x :: l else y :: insert_by key x l'
  end.

Fixpoint sorted_reverse {A} (key : A -> Z) (l : list A) : list A :=
  match l with
  | [] => []
  | x :: l' => insert_by key x (sorted_reverse key l')
  end.

(** [v[:n]]: strings and lists are cut, nothing else can be sliced. *)
Definition slice_to (n : nat) (v : json) : result json :=
  match v with
  | JStr s => Ok (JStr (firstn n s))
  | JArr items => Ok (JArr (firstn n items))
  | JObj _ => Raise (TypeError (lit "unhashable type: 'slice'"))
  | _ => Raise (TypeError (lit "object is not subscriptable"))
  end.

(** The body of the loop of [list_saved] for one file. *)
Definition saved_entry (f : pystr * (pystr * pystr)) : result json :=
  let data := query_document (snd f) in
  let? question := get data (lit "question") (JStr []) in
  let? question := slice_to 100 question in
  let? text := get data (lit "text") (JStr []) in
  let? text_preview := slice_to 100 text in
  Ok (JObj [(lit "hash", JStr (stem (fst f)));
            (lit "question", question);
            (lit "text_preview", text_preview)]).

(** [GET /api/saved].  The modification times are read from the file
    system; [st_mtime] gives the time of a file by its name, in a unit
    that makes it an integer. *)
Definition list_saved (st_mtime : pystr -> Z) : M json :=
  fun w =>
    match saved w with
    | None => (Ok (JObj [(lit "queries", JArr [])]), w)
    | Some d =>
        let files :=
          sorted_reverse (fun f => st_mtime (fst f)) (glob_json d) in
        (let? queries := rmap saved_entry files in
         Ok (JObj [(lit "queries", JArr queries)]), w)
    end.

(** [path.exists()] and [json.load] for a file of a directory that may
    itself be missing. *)
Definition load_file {V} (d : option (directory V)) (name : pystr)
    : option V :=
  match d with
  | Some files => read_file files name
  | None => None
  end.

(** [GET /api/saved/{query_hash}] *)
Definition get_saved (query_hash : pystr) : M json :=
  fun w =>
    let name := query_hash ++ lit ".json" in
    match load_file (saved w) name with
    | None => (Raise (HTTPException 404 (lit "Query not found")), w)
    | Some query_data =>
        let query := query_document query_data in
        let result :=
          match load_file (saved_results w) name with
          | Some response => model_dump response
          | None => JNull
          end in
        (Ok (JObj [(lit "query", query); (lit "result", result)]), w)
    end.

(** ** Test doubles

    A decoder given by a table of texts, and a float validation that
    accepts floats only.  They instantiate the library interface where a
    statement is evaluated on concrete data. *)

Definition table_loads (table : list (pystr * json)) (s : pystr)
    : pystr + json :=
  match lookup table s with
  | Some v => inr v
  | None => inl (lit "Expecting value: line 1 column 1 (char 0)")
  end.

Definition exact_float (v : json) : option spec_float :=
  match v with
  | JFloat f => Some f
  | _ => None
  end.

Definition table_platform (table : list (pystr * json)) : Platform :=
  {| json_loads := table_loads table;
     validate_float := exact_float;
     validate_float_exact := fun f => eq_refl |}.

(** A service that answers every call with the same text. *)
Definition constant_llm (text : pystr) : LLMCall -> LLMReply :=
  fun _ => ReplyText (Some text).

Definition empty_world (service : LLMCall -> LLMReply) : World :=
  mkWorld [] None service [] None None.

(** 0.5 and 0.25 as floats. *)
Definition half : spec_float := S754_finite false 4503599627370496 (-53).
Definition quarter : spec_float := S754_finite false 4503599627370496 (-54).


(** ** Vocabulary of the statements *)

(** A lower-case hexadecimal digit. *)
Definition is_hex_char (c : N) : bool :=
  ((48 <=? c) && (c <=? 57) || (97 <=? c) && (c <=? 102))%N.

(** The message of the [ValueError] that [set_hash] raises. *)
Definition no_hash_field_message : pystr :=
  quoted "HighlightResponse" ++ lit " object has no field " ++ quoted "hash".

Definition internal_server_error : Z * HttpBody :=
  (500%Z, BodyText (lit "Internal Server Error")).

(** The key an element of the scores list is filed under, when it is an
    object whose ["index"] is hashable. *)
Definition item_key (item : json) : option key :=
  match item with
  | JObj fields =>
      match lookup fields (lit "index") with
      | Some v =>
          match hash_key v with
          | Ok k => Some k
          | Raise _ => None
          end
      | None => None
      end
  | _ => None
  end.

Definition has_key (k : key) (item : json) : bool :=
  match item_key item with
  | Some k' => key_eqb k' k
  | None => false
  end.

Definition indexed (item : json) : bool :=
  match item_key item with
  | Some _ => true
  | None => false
  end.

(** The last element of the list filed under [k]. *)
Fixpoint find_last (k : key) (items : list json) : option json :=
  match items with
  | [] => None
  | item :: rest =>
      match find_last k rest with
      | Some found => Some found
      | None => if has_key k item then Some item else None
      end
  end.

(** The element's index is one of [1 .. n]. *)
Definition in_range (n : nat) (item : json) : bool :=
  existsb (fun i => has_key (key_of_int (Z.of_nat i)) item) (seq 1 n).

(** A document [{"scores": items}]. *)
Definition scores_doc (items : list json) : json :=
  JObj [(lit "scores", JArr items)].

(** The score of the element, when present, passes the float validation
    and its rationale, when present, is a string or null. *)
Definition typed_item {P : Platform} (item : json) : bool :=
  match item with
  | JObj fields =>
      match lookup fields (lit "score") with
      | Some v =>
          match validate_float v with Some _ => true | None => false end
      | None => true
      end
      && match lookup fields (lit "rationale") with
         | Some v =>
             match validate_optional_str v with
             | Some _ => true
             | None => false
             end
         | None => true
         end
  | _ => true
  end.

(** Test data: two score objects with the same index. *)
Definition scored_item (index : Z) (score : spec_float) : json :=
  JObj [(lit "index", JInt index); (lit "score", JFloat score)].

Definition starts_space (s : pystr) : bool :=
  match s with c :: _ => is_space c | [] => false end.

Definition starts_nonspace (s : pystr) : bool :=
  match s with c :: _ => negb (is_space c) | [] => false end.

(** Every whitespace character is one space followed by a character that
    is not whitespace. *)
Fixpoint spaced (s : pystr) : bool :=
  match s with
  | [] => true
  | c :: s' =>
      if is_space c
      then (c =? ch_space)%N && starts_nonspace s' && spaced s'
      else spaced s'
  end.

(** Trimmed and single-spaced: what [normalize] produces. *)
Definition normalized (s : pystr) : bool :=
  negb (starts_space s) && spaced s.

(** Somewhere in the text a terminal mark is followed by whitespace and
    then a capital; [after_terminal] says whether the character before
    the text is a terminal mark. *)
Fixpoint has_break (after_terminal : bool) (s : pystr) : bool :=
  match s with
  | [] => false
  | c :: s' =>
      (after_terminal && is_space c
       && starts_upper (drop_while is_space s'))
      || has_break (is_terminal c) s'
  end.

(** The last character of [s], or [prev] when [s] is empty. *)
Fixpoint last_char (prev : option N) (s : pystr) : option N :=
  match s with
  | [] => prev
  | c :: s' => last_char (Some c) s'
  end.

Definition ends_terminal (s : pystr) : bool :=
  match last_char None s with
  | Some c => is_terminal c
  | None => false
  end.

Fixpoint ends_space (s : pystr) : bool :=
  match s with
  | [] => false
  | c :: s' =>
      match s' with
      | [] => is_space c
      | _ :: _ => ends_space s'
      end
  end.

(** Test data: a sentence with an abbreviation. *)
Definition abbreviation_example : list pystr :=
  [lit "Dr. Smith arrived."; lit "He sat."].

(** The character before the position is a terminal mark. *)
Definition after_terminal (prev : option N) : bool :=
  match prev with
  | Some p => is_terminal p
  | None => false
  end.

(** What the scan of [re_split] knows about the piece it is building on
    normalised text: the piece has no leading whitespace, [prev] is its
    last character, and a space is followed by something else. *)
Definition piece_ok (prev : option N) (piece rest : pystr) : Prop :=
  starts_space (rev piece) = false /\
  match piece with
  | c :: _ =>
      prev = Some c /\ (is_space c = true -> starts_nonspace rest = true)
  | [] => after_terminal prev = false /\ starts_space rest = false
  end.


(** Test data: the response text [{"scores": []}] with its decoding, and
    a world whose service always answers with a given text and in which
    [GEMINI_API_KEY] is set. *)
Definition empty_scores_text : pystr :=
  lit "{" ++ quoted "scores" ++ lit ": []}".

Definition demo_platform : Platform :=
  table_platform [(empty_scores_text, scores_doc [])].

Definition keyed_world (reply : pystr) : World :=
  mkWorld [(lit "GEMINI_API_KEY", lit "secret")] None
          (constant_llm reply) [] None None.

Definition sky_request : HighlightRequest :=
  mkRequest (lit "The sky is blue. Grass is green.")
            (lit "What color is the sky?") None.

(** The directory a handler finds, empty when it is missing. *)
Definition files_of {V} (d : option (directory V)) : directory V :=
  match d with
  | Some files => files
  | None => []
  end.

(** The entry of [list_saved] for a file: the stem of its name and the
    first 100 characters of the question and of the text. *)
Definition preview_entry (f : pystr * (pystr * pystr)) : json :=
  JObj [(lit "hash", JStr (stem (fst f)));
        (lit "question", JStr (firstn 100 (snd (snd f))));
        (lit "text_preview", JStr (firstn 100 (fst (snd f))))].

(** Newest first: no file is older than a file listed after it. *)
Definition newest_first {V} (st_mtime : pystr -> Z)
    (files : directory V) : Prop :=
  StronglySorted
    (fun f g => (st_mtime (fst g) <= st_mtime (fst f))%Z) files.

(** The files with a given modification time. *)
Definition modified_at {V} (st_mtime : pystr -> Z) (t : Z)
    (files : directory V) : directory V :=
  filter (fun f => (st_mtime (fst f) =? t)%Z) files.

(** The message of the [LLMCallError] of [call_llm]. *)
Definition empty_response_message : pystr := lit "Empty response from LLM".

(** Every whitespace character replaced by a plain space. *)
Definition blank_to_space (c : N) : N := if is_space c then ch_space else c.

(** The scores when no object of the response is used: 0.0 and no
    rationale for every sentence. *)
Definition all_defaults (sentences : list pystr) : list SentenceScore :=
  map (fun entry => mkSentenceScore (fst entry) (snd entry) zero_float None)
      (enumerate sentences).

(** The JSON value is a number, or a bool, whose value is the integer
    [n]: [1], [1.0] and [true] all equal 1. *)
Definition number_equals (v : json) (n : Z) : Prop :=
  match v with
  | JInt z => z = n
  | JBool b => (if b then 1 else 0)%Z = n
  | JFloat (S754_zero _) => n = 0%Z
  | JFloat (S754_finite s m e) =>
      let sm := if s then Zneg m else Zpos m in
      if (e <? 0)%Z then sm = (n * 2 ^ (- e))%Z else (sm * 2 ^ e)%Z = n
  | _ => False
  end.

Definition is_object (v : json) : bool :=
  match v with JObj _ => true | _ => false end.

(** [None], a bool or a number. *)
Definition is_scalar (v : json) : bool :=
  match v with
  | JNull | JBool _ | JInt _ | JFloat _ => true
  | _ => false
  end.

(** A list or a dict. *)
Definition is_container (v : json) : bool :=
  match v with JArr _ | JObj _ => true | _ => false end.

(** The object the scorer uses for the sentence at position [i]. *)
Definition selected (items : list json) (i : nat) : option json :=
  find_last (key_of_int (Z.of_nat (i + 1))) items.

Definition selected_typed {P : Platform} (items : list json) (i : nat)
    : bool :=
  match selected items i with
  | Some item => typed_item item
  | None => true
  end.

(** The text ends with a terminal mark followed by one whitespace
    character; [after_terminal] says whether the character before the
    text is a terminal mark. *)
Fixpoint ends_terminal_space (after_terminal : bool) (u : pystr) : bool :=
  match u with
  | [] => false
  | c :: u' =>
      match u' with
      | [] => after_terminal && is_space c
      | _ :: _ => ends_terminal_space (is_terminal c) u'
      end
  end.

(** Test data: 1.0 as a float, a service that raises, a world in which
    [GEMINI_API_KEY] is set, and a directory with three files. *)
Definition one_float : spec_float :=
  S754_finite false 4503599627370496 (-52).

Definition raising_llm (e : exn) : LLMCall -> LLMReply :=
  fun _ => ReplyRaises e.

Definition keyed_service_world (service : LLMCall -> LLMReply) : World :=
  mkWorld [(lit "GEMINI_API_KEY", lit "secret")] None service [] None None.

Definition demo_request : HighlightRequest :=
  mkRequest (lit "The sky. Grass is green.") (lit "q") None.

Definition demo_files : directory (pystr * pystr) :=
  [(lit "old.json", (lit "first text", lit "first question"));
   (lit "notes.txt", (lit "not listed", lit "not listed"));
   (lit "new.json", (lit "second text", lit "second question"))].

Definition demo_mtime (name : pystr) : Z :=
  if pystr_eqb name (lit "new.json") then 20 else 10.
(** * Properties *)

(** ** Results and loops *)

Lemma rmap_length {A B} (f : A -> result B) (l : list A) (bs : list B) :
  rmap f l = Ok bs -> length bs = length l.
Proof.
  revert bs; induction l as [|a l IH]; intros bs H; simpl in H.
  - inversion H; reflexivity.
  - destruct (f a) as [b|e]; simpl in H; [|discriminate].
    destruct (rmap f l) as [bs'|e]; simpl in H; [|discriminate].
    inversion H; subst; simpl; f_equal; apply IH; reflexivity.
Qed.

Lemma rmap_nth {A B} (f : A -> result B) (l : list A) (bs : list B) :
  rmap f l = Ok bs ->
  forall i b, nth_error bs i = Some b ->
  exists a, nth_error l i = Some a /\ f a = Ok b.
Proof.
  revert bs; induction l as [|a l IH]; intros bs H i b Hb; simpl in H.
  - inversion H; subst; destruct i; discriminate.
  - destruct (f a) as [b0|e] eqn:Ha; simpl in H; [|discriminate].
    destruct (rmap f l) as [bs'|e]; simpl in H; [|discriminate].
    inversion H; subst; destruct i as [|i]; simpl in Hb.
    + inversion Hb; subst; exists a; split; [reflexivity | assumption].
    + apply (IH bs' eq_refl i b Hb).
Qed.

Lemma nth_error_enumerate_from {A} (l : list A) k i n a :
  nth_error (combine (seq k (length l)) l) i = Some (n, a) ->
  n = k + i /\ nth_error l i = Some a.
Proof.
  revert k i; induction l as [|x l IH]; intros k i H; simpl in H.
  - destruct i; discriminate.
  - destruct i as [|i]; simpl in H.
    + inversion H; subst; split; [lia | reflexivity].
    + apply IH in H; destruct H as [-> H]; split; [lia | assumption].
Qed.

Section Facts.

Context {P : Platform}.

(** ** The scorer keeps positions *)

Lemma make_SentenceScore_fields i text score rationale ss :
  make_SentenceScore i text score rationale = Ok ss ->
  ss_index ss = i /\ ss_text ss = text.
Proof.
  unfold make_SentenceScore.
  destruct (validate_float score), (validate_optional_str rationale);
    intros H; inversion H; subst; split; reflexivity.
Qed.

Lemma score_one_fields d i sentence ss :
  score_one d (i, sentence) = Ok ss ->
  ss_index ss = i /\ ss_text ss = sentence.
Proof.
  unfold score_one.
  set (item := match dict_get d _ with Some it => it | None => _ end).
  destruct (get item (lit "score") (JFloat zero_float)); simpl;
    [|discriminate].
  destruct (get item (lit "rationale") JNull); simpl; [|discriminate].
  apply make_SentenceScore_fields.
Qed.

Lemma build_scores_positions sentences data scored :
  build_scores sentences data = Ok scored ->
  length scored = length sentences /\
  forall i ss, nth_error scored i = Some ss ->
    ss_index ss = i /\ nth_error sentences i = Some (ss_text ss).
Proof.
  unfold build_scores.
  destruct (subscript data (lit "scores")) as [scores|]; simpl;
    [|discriminate].
  destruct (iterate scores) as [items|]; simpl; [|discriminate].
  destruct (rfold index_item items []) as [d|]; simpl; [|discriminate].
  intros H; split.
  - apply rmap_length in H; rewrite H; unfold enumerate.
    rewrite length_combine, length_seq; lia.
  - intros i ss Hss.
    destruct (rmap_nth _ _ H i Hss) as [[n s] [Hn Hs]].
    apply nth_error_enumerate_from in Hn; destruct Hn as [-> Hn].
    apply score_one_fields in Hs; destruct Hs as [Hi Ht].
    simpl in Hi; split; [exact Hi | rewrite Ht; exact Hn].
Qed.

Lemma score_sentences_positions sentences question model w scored w' :
  score_sentences sentences question model w = (Ok scored, w') ->
  length scored = length sentences /\
  forall i ss, nth_error scored i = Some ss ->
    ss_index ss = i /\ nth_error sentences i = Some (ss_text ss).
Proof.
  unfold score_sentences, bind, lift.
  destruct (call_llm _ model zero_float w) as [[response|e] w1];
    [|discriminate].
  destruct (json_loads (clean_response response)) as [e|data];
    unfold raise, ret; [discriminate|].
  intros H; inversion H; subst.
  eapply build_scores_positions; eassumption.
Qed.

End Facts.

(** ** Blank text *)

Lemma drop_while_all p s : forallb p s = true -> drop_while p s = [].
Proof.
  induction s as [|c s IH]; simpl; [reflexivity|].
  destruct (p c); simpl; [exact IH | discriminate].
Qed.

Lemma strip_blank s : forallb is_space s = true -> strip s = [].
Proof.
  intros H; unfold strip, lstrip; rewrite (drop_while_all _ _ H).
  reflexivity.
Qed.

Lemma split_sentences_blank text :
  forallb is_space text = true -> split_sentences text = [].
Proof.
  intros H; unfold split_sentences, normalize.
  rewrite (strip_blank _ H); reflexivity.
Qed.

Section Orchestrator.

Context {P : Platform}.

(** C3.  When the splitter yields no sentence, in particular on empty
    or whitespace-only text, [highlight_text] returns the response with
    no sentence and the question unchanged, and leaves the world as it
    found it: the scorer is not run and no call reaches the LLM. *)
Theorem C3_no_sentence_no_llm_call :
  forall text question model w,
    (split_sentences text = [] \/ forallb is_space text = true) ->
    split_sentences text = [] /\
    highlight_text text question model w
      = (Ok (mkResponse [] question), w) /\
    llm_log (snd (highlight_text text question model w)) = llm_log w.
Proof.
  intros text question model w H.
  assert (Hs : split_sentences text = []).
  { destruct H as [H|H]; [exact H | apply split_sentences_blank, H]. }
  assert (Hr : highlight_text text question model w
               = (Ok (mkResponse [] question), w)).
  { unfold highlight_text; rewrite Hs; reflexivity. }
  split; [exact Hs|]; split; [exact Hr|].
  rewrite Hr; reflexivity.
Qed.

(** C4.  A response produced by [highlight_text] has one entry per
    sentence of the splitter, is empty exactly when the splitter gave no
    sentence, and every entry carries its position as index (and the
    sentence at that position as text). *)
Theorem C4_one_score_per_sentence :
  forall text question model w response w',
    highlight_text text question model w = (Ok response, w') ->
    length (resp_sentences response) = length (split_sentences text) /\
    (resp_sentences response = [] <-> split_sentences text = []) /\
    (forall i ss,
       nth_error (resp_sentences response) i = Some ss ->
       ss_index ss = i /\
       nth_error (split_sentences text) i = Some (ss_text ss)).
Proof.
  intros text question model w response w' H.
  assert (Hmain :
    length (resp_sentences response) = length (split_sentences text) /\
    (forall i ss,
       nth_error (resp_sentences response) i = Some ss ->
       ss_index ss = i /\
       nth_error (split_sentences text) i = Some (ss_text ss))).
  { unfold highlight_text in H.
    destruct (split_sentences text) as [|s rest] eqn:Hs.
    - inversion H; subst; simpl; split; [reflexivity|].
      intros i ss Hi; destruct i; discriminate.
    - unfold bind in H.
      destruct (score_sentences (s :: rest) question model w)
        as [[scored|e] w1] eqn:Hsc; [|discriminate].
      inversion H; subst; cbn [resp_sentences].
      eapply score_sentences_positions; eassumption. }
  destruct Hmain as [Hlen Hidx].
  split; [exact Hlen|]; split; [|exact Hidx].
  split; intros E.
  - rewrite E in Hlen; simpl in Hlen.
    destruct (split_sentences text); [reflexivity | discriminate].
  - rewrite E in Hlen; simpl in Hlen.
    destruct (resp_sentences response); [reflexivity | discriminate].
Qed.

End Orchestrator.

(** ** The storage key *)

Lemma be_bytes_length n x : length (Sha256.be_bytes n x) = n.
Proof. induction n; simpl; congruence. Qed.

Lemma be_bytes_range n x :
  Forall (fun b => (0 <= b < 256)%Z) (Sha256.be_bytes n x).
Proof.
  induction n; simpl; constructor; [|assumption].
  change 255%Z with (Z.ones 8); rewrite Z.land_ones by lia.
  apply Z.mod_pos_bound; lia.
Qed.

Lemma digest_length msg : length (Sha256.digest msg) = 32.
Proof.
  unfold Sha256.digest; repeat rewrite length_app.
  repeat rewrite be_bytes_length; reflexivity.
Qed.

Lemma digest_range msg :
  Forall (fun b => (0 <= b < 256)%Z) (Sha256.digest msg).
Proof.
  unfold Sha256.digest; repeat (apply Forall_app; split);
    apply be_bytes_range.
Qed.

Lemma hex_of_bytes_cons b bs :
  hex_of_bytes (b :: bs)
  = hex_digit (Z.shiftr b 4) :: hex_digit (Z.land b 15) :: hex_of_bytes bs.
Proof. reflexivity. Qed.

Lemma hex_of_bytes_length bs : length (hex_of_bytes bs) = 2 * length bs.
Proof.
  induction bs as [|b bs IH]; [reflexivity|].
  rewrite hex_of_bytes_cons; cbn [length]; rewrite IH; lia.
Qed.

Lemma hex_of_bytes_firstn k bs :
  firstn (2 * k) (hex_of_bytes bs) = hex_of_bytes (firstn k bs).
Proof.
  revert bs; induction k as [|k IH]; intros bs; [reflexivity|].
  replace (2 * S k) with (S (S (2 * k))) by lia.
  destruct bs as [|b bs]; [reflexivity|].
  cbn [firstn]; rewrite !hex_of_bytes_cons.
  cbn [firstn]; rewrite IH; reflexivity.
Qed.

Lemma hex_digit_is_hex d :
  (0 <= d < 16)%Z -> is_hex_char (hex_digit d) = true.
Proof.
  intros H.
  assert (E : In d [0; 1; 2; 3; 4; 5; 6; 7; 8; 9; 10; 11; 12; 13; 14; 15]%Z).
  { simpl; lia. }
  simpl in E; repeat (destruct E as [<-|E]; [reflexivity|]); contradiction.
Qed.

Lemma hex_of_bytes_is_hex bs :
  Forall (fun b => (0 <= b < 256)%Z) bs ->
  Forall (fun c => is_hex_char c = true) (hex_of_bytes bs).
Proof.
  induction 1 as [|b bs Hb _ IH]; [constructor|].
  rewrite hex_of_bytes_cons.
  constructor; [|constructor; [|exact IH]]; apply hex_digit_is_hex.
  - rewrite Z.shiftr_div_pow2 by lia.
    change (2 ^ 4)%Z with 16%Z; split.
    + apply Z.div_pos; lia.
    + apply Z.div_lt_upper_bound; lia.
  - change 15%Z with (Z.ones 4); rewrite Z.land_ones by lia.
    apply Z.mod_pos_bound; lia.
Qed.

Lemma Forall_firstn {A} (Q : A -> Prop) n (l : list A) :
  Forall Q l -> Forall Q (firstn n l).
Proof.
  intros H; revert n; induction H; intros [|n]; simpl; constructor; auto.
Qed.

Lemma encode_total s :
  forallb (fun c => negb (is_surrogate c)) s = true ->
  exists bs, encode s = Some bs.
Proof.
  induction s as [|c s IH]; simpl; intros H; [eexists; reflexivity|].
  apply andb_prop in H; destruct H as [Hc Hs].
  destruct (is_surrogate c); [discriminate|].
  destruct (IH Hs) as [bs ->]; eexists; reflexivity.
Qed.

Section StorageKey.

Context {P : Platform}.

Lemma save_query_returns req response w encoded :
  encode (req_text req ++ lit "|" ++ req_question req) = Some encoded ->
  fst (save_query req response w)
  = Ok (firstn 12 (sha256_hexdigest encoded)).
Proof.
  intros E; unfold save_query, bind, mkdir_saved, mkdir_saved_results.
  rewrite E; reflexivity.
Qed.

(** C6.  The identifier [save_query] returns depends on the text and
    the question only, not on the response or on what is already
    stored: it is the first 12 characters of the hexadecimal SHA-256
    digest of the UTF-8 encoding of [text + "|" + question], that is
    the first 6 bytes (48 bits) of the digest in lower-case
    hexadecimal. *)
Theorem C6_identifier_is_truncated_sha256 :
  forall req response w encoded,
    encode (req_text req ++ lit "|" ++ req_question req) = Some encoded ->
    let h := firstn 12 (sha256_hexdigest encoded) in
    fst (save_query req response w) = Ok h /\
    length h = 12 /\
    Forall (fun c => is_hex_char c = true) h /\
    h = hex_of_bytes (firstn 6 (Sha256.digest encoded)) /\
    (forall req' response' w',
       req_text req' = req_text req ->
       req_question req' = req_question req ->
       fst (save_query req' response' w') = Ok h).
Proof.
  intros req response w encoded E h.
  split; [apply save_query_returns, E|].
  split.
  { unfold h, sha256_hexdigest; rewrite length_firstn.
    rewrite hex_of_bytes_length, digest_length; reflexivity. }
  split.
  { apply Forall_firstn, hex_of_bytes_is_hex, digest_range. }
  split.
  { unfold h, sha256_hexdigest.
    apply (hex_of_bytes_firstn 6). }
  intros req' response' w' Ht Hq.
  apply save_query_returns; rewrite Ht, Hq; exact E.
Qed.

End StorageKey.

(** ** Credentials *)

Lemma truthy_some k : truthy (Some k) = true <-> k <> [].
Proof.
  destruct k; simpl; split; intros H; try reflexivity; try discriminate.
  contradiction H; reflexivity.
Qed.

Lemma py_or_truthy a b : truthy a = true -> py_or a b = a.
Proof. unfold py_or; intros ->; reflexivity. Qed.

Lemma py_or_falsy a b : truthy a = false -> py_or a b = b.
Proof. unfold py_or; intros ->; reflexivity. Qed.

Lemma init_llm_client_world a p l w : snd (init_llm_client a p l w) = w.
Proof.
  unfold init_llm_client.
  repeat match goal with
         | |- context [match ?x with _ => _ end] => destruct x
         end; reflexivity.
Qed.

Lemma init_llm_client_key a p l w k :
  py_or (py_or a (request_api_key w)) (getenv w (lit "GEMINI_API_KEY"))
  = Some k ->
  k <> [] ->
  init_llm_client a p l w = (Ok (ApiKeyClient k), w).
Proof.
  intros E Hk; unfold init_llm_client; rewrite E.
  destruct k; [contradiction Hk|]; reflexivity.
Qed.

Lemma init_llm_client_no_key a p l w :
  truthy (py_or (py_or a (request_api_key w))
                (getenv w (lit "GEMINI_API_KEY"))) = false ->
  init_llm_client a p l w =
  match py_or p (getenv w (lit "GOOGLE_CLOUD_PROJECT")) with
  | Some (c :: q) =>
      (Ok (VertexClient (c :: q)
             match
               py_or l (Some (getenv_default w (lit "GOOGLE_CLOUD_LOCATION")
                                             (lit "us-central1")))
             with
             | Some loc => loc
             | None => []
             end), w)
  | _ => (Raise (LLMNotConfigured not_configured_message), w)
  end.
Proof.
  intros H; unfold init_llm_client.
  destruct (py_or (py_or a (request_api_key w)) _) as [[|? ?]|];
    try discriminate; reflexivity.
Qed.

Section Server.

Context {P : Platform}.

(** *** The handler's first step *)

Lemma adopt_api_key_ok req hdr w :
  adopt_api_key req hdr w = (Ok tt, snd (adopt_api_key req hdr w)).
Proof.
  unfold adopt_api_key; destruct (truthy _); reflexivity.
Qed.

Lemma adopt_api_key_key req hdr w :
  request_api_key (snd (adopt_api_key req hdr w))
  = if truthy hdr then hdr
    else if truthy (req_api_key req) then req_api_key req
    else request_api_key w.
Proof.
  unfold adopt_api_key, py_or.
  destruct (truthy hdr) eqn:Hh.
  - rewrite Hh; reflexivity.
  - destruct (truthy (req_api_key req)) eqn:Hb; reflexivity.
Qed.

Lemma adopt_api_key_frame req hdr w :
  let w1 := snd (adopt_api_key req hdr w) in
  environ w1 = environ w /\ llm w1 = llm w /\ llm_log w1 = llm_log w /\
  saved w1 = saved w /\ saved_results w1 = saved_results w.
Proof.
  unfold adopt_api_key; destruct (truthy _); simpl; repeat split.
Qed.

(** *** The flow of one request *)

Lemma call_llm_not_configured prompt model t w e :
  init_llm_client None None None w = (Raise e, w) ->
  call_llm prompt model t w = (Raise e, w).
Proof. intros H; unfold call_llm, bind; rewrite H; reflexivity. Qed.

Lemma call_llm_reply prompt model t w client reply :
  init_llm_client None None None w = (Ok client, w) ->
  llm w (mkCall client model prompt t) = ReplyText (Some reply) ->
  reply <> [] ->
  call_llm prompt model t w
  = (Ok reply, log_call w (mkCall client model prompt t)).
Proof.
  intros Hc Hr Hn; unfold call_llm, bind, generate_content.
  rewrite Hc, Hr; destruct reply; [contradiction Hn|]; reflexivity.
Qed.

Lemma score_sentences_reply sentences question model w client reply :
  init_llm_client None None None w = (Ok client, w) ->
  llm w (mkCall client model (scoring_prompt sentences question)
                zero_float) = ReplyText (Some reply) ->
  reply <> [] ->
  score_sentences sentences question model w
  = (match json_loads (clean_response reply) with
     | inr data => build_scores sentences data
     | inl e =>
         Raise (ValueError
                  (parse_failure_message e (clean_response reply)))
     end,
     log_call w (mkCall client model
                        (scoring_prompt sentences question) zero_float)).
Proof.
  intros Hc Hr Hn; unfold score_sentences, bind.
  erewrite call_llm_reply by eassumption.
  destruct (json_loads (clean_response reply)); reflexivity.
Qed.

Lemma highlight_text_reply text question model w client reply s rest :
  split_sentences text = s :: rest ->
  init_llm_client None None None w = (Ok client, w) ->
  llm w (mkCall client model (scoring_prompt (s :: rest) question)
                zero_float) = ReplyText (Some reply) ->
  reply <> [] ->
  highlight_text text question model w
  = (match json_loads (clean_response reply) with
     | inr data =>
         match build_scores (s :: rest) data with
         | Ok scored => Ok (mkResponse scored question)
         | Raise e => Raise e
         end
     | inl e =>
         Raise (ValueError
                  (parse_failure_message e (clean_response reply)))
     end,
     log_call w (mkCall client model
                        (scoring_prompt (s :: rest) question) zero_float)).
Proof.
  intros Hs Hc Hr Hn; unfold highlight_text, bind; rewrite Hs.
  erewrite score_sentences_reply by eassumption.
  destruct (json_loads (clean_response reply)) as [e|data];
    [reflexivity|].
  destruct (build_scores (s :: rest) data); reflexivity.
Qed.

Lemma highlight_text_not_configured text question model w e s rest :
  split_sentences text = s :: rest ->
  init_llm_client None None None w = (Raise e, w) ->
  highlight_text text question model w = (Raise e, w).
Proof.
  intros Hs Hc; unfold highlight_text, bind, score_sentences; rewrite Hs.
  unfold bind; erewrite call_llm_not_configured by eassumption; reflexivity.
Qed.

(** What [highlight] does once [highlight_text] has raised. *)
Lemma highlight_raised req hdr w e w1 :
  highlight_text (req_text req) (req_question req) default_model
                 (snd (adopt_api_key req hdr w)) = (Raise e, w1) ->
  highlight req hdr w
  = (match e with
     | LLMNotConfigured msg => Raise (HTTPException 400 msg)
     | LLMCallError msg => Raise (HTTPException 500 msg)
     | _ => Raise e
     end, w1).
Proof.
  intros H; unfold highlight, bind.
  rewrite adopt_api_key_ok; unfold map_llm_errors; rewrite H.
  destruct e; reflexivity.
Qed.

Lemma set_hash_raises response h :
  set_hash response h = Raise (ValueError no_hash_field_message).
Proof. reflexivity. Qed.

(** What [highlight] does once [highlight_text] has returned. *)
Lemma highlight_returned req hdr w response w1 :
  highlight_text (req_text req) (req_question req) default_model
                 (snd (adopt_api_key req hdr w)) = (Ok response, w1) ->
  highlight req hdr w
  = match save_query req response w1 with
    | (Ok _, w2) => (Raise (ValueError no_hash_field_message), w2)
    | (Raise e, w2) => (Raise e, w2)
    end.
Proof.
  intros H; unfold highlight, bind.
  rewrite adopt_api_key_ok; unfold map_llm_errors; rewrite H.
  destruct (save_query req response w1) as [[h|e] w2]; reflexivity.
Qed.

End Server.

(** ** The storage directories *)

Lemma pystr_eqb_refl s : pystr_eqb s s = true.
Proof. unfold pystr_eqb; destruct (list_eq_dec N.eq_dec s s); congruence. Qed.

Lemma read_write_file {V} (d : directory V) name content :
  read_file (write_file d name content) name = Some content.
Proof.
  induction d as [|[n c] d IH]; simpl.
  - rewrite pystr_eqb_refl; reflexivity.
  - destruct (pystr_eqb n name) eqn:E; simpl; rewrite E; auto.
Qed.

Section Endpoint.

Context {P : Platform}.

Lemma save_query_stores req response w encoded :
  encode (req_text req ++ lit "|" ++ req_question req) = Some encoded ->
  let name := firstn 12 (sha256_hexdigest encoded) ++ lit ".json" in
  let w' := snd (save_query req response w) in
  (exists d, saved w' = Some d /\
             read_file d name = Some (req_text req, req_question req)) /\
  (exists d, saved_results w' = Some d /\
             read_file d name = Some response) /\
  llm_log w' = llm_log w.
Proof.
  intros E name w'; subst w'.
  unfold save_query, bind, mkdir_saved, mkdir_saved_results.
  rewrite E; unfold ret, dump_query, dump_result.
  cbn [snd saved saved_results llm_log].
  split; [|split; [|reflexivity]];
    eexists; (split; [reflexivity | apply read_write_file]).
Qed.

(** C9.  [init_llm_client] takes the API key from the explicit
    argument, else from the request-scoped variable, else from
    [GEMINI_API_KEY]; without any of these it falls back on the cloud
    project (argument, else [GOOGLE_CLOUD_PROJECT]) with the location
    (argument, else [GOOGLE_CLOUD_LOCATION], else us-central1); with
    none of them it raises [LLMNotConfigured].  The handler sets the
    request-scoped variable from the header, else from the body field,
    and answers a request whose credentials cannot be resolved with
    status 400.  A value counts when it is a non-empty string. *)
Theorem C9_credential_resolution_order :
  forall (api_key project location : option pystr) (w : World),
    let env_key := getenv w (lit "GEMINI_API_KEY") in
    let env_project := getenv w (lit "GOOGLE_CLOUD_PROJECT") in
    let resolved := init_llm_client api_key project location w in
    (forall k, api_key = Some k -> k <> [] ->
       resolved = (Ok (ApiKeyClient k), w)) /\
    (truthy api_key = false ->
     forall k, request_api_key w = Some k -> k <> [] ->
       resolved = (Ok (ApiKeyClient k), w)) /\
    (truthy api_key = false -> truthy (request_api_key w) = false ->
     forall k, env_key = Some k -> k <> [] ->
       resolved = (Ok (ApiKeyClient k), w)) /\
    (truthy api_key = false -> truthy (request_api_key w) = false ->
     truthy env_key = false ->
     forall p, py_or project env_project = Some p -> p <> [] ->
       resolved
       = (Ok (VertexClient p
                match location with
                | Some (c :: l) => c :: l
                | _ => getenv_default w (lit "GOOGLE_CLOUD_LOCATION")
                                      (lit "us-central1")
                end), w)) /\
    (truthy api_key = false -> truthy (request_api_key w) = false ->
     truthy env_key = false ->
     truthy (py_or project env_project) = false ->
       resolved = (Raise (LLMNotConfigured not_configured_message), w)) /\
    (forall req hdr,
       request_api_key (snd (adopt_api_key req hdr w))
       = if truthy hdr then hdr
         else if truthy (req_api_key req) then req_api_key req
         else request_api_key w) /\
    (forall req hdr,
       split_sentences (req_text req) <> [] ->
       truthy hdr = false -> truthy (req_api_key req) = false ->
       truthy (request_api_key w) = false ->
       truthy env_key = false -> truthy env_project = false ->
       highlight req hdr w
       = (Raise (HTTPException 400 not_configured_message), w) /\
       http_response (fst (highlight req hdr w))
       = (400%Z, BodyDetail not_configured_message)).
Proof.
  intros api_key project location w env_key env_project resolved.
  subst resolved env_key env_project.
  split.
  { intros k -> Hk; apply init_llm_client_key; [|exact Hk].
    apply truthy_some in Hk.
    rewrite (py_or_truthy _ _ Hk), (py_or_truthy _ _ Hk); reflexivity. }
  split.
  { intros Ha k Hr Hk; apply init_llm_client_key; [|exact Hk].
    rewrite (py_or_falsy _ _ Ha), Hr.
    apply truthy_some in Hk; rewrite (py_or_truthy _ _ Hk); reflexivity. }
  split.
  { intros Ha Hr k He Hk; apply init_llm_client_key; [|exact Hk].
    rewrite (py_or_falsy _ _ Ha), (py_or_falsy _ _ Hr); exact He. }
  split.
  { intros Ha Hr He p Hp Hk.
    rewrite init_llm_client_no_key
      by (rewrite (py_or_falsy _ _ Ha), (py_or_falsy _ _ Hr); exact He).
    rewrite Hp; destruct p as [|c q]; [congruence|].
    unfold py_or; destruct location as [[|? ?]|]; reflexivity. }
  split.
  { intros Ha Hr He Hp.
    rewrite init_llm_client_no_key
      by (rewrite (py_or_falsy _ _ Ha), (py_or_falsy _ _ Hr); exact He).
    destruct (py_or project _) as [[|? ?]|]; try reflexivity.
    discriminate. }
  split.
  { intros req hdr; apply adopt_api_key_key. }
  intros req hdr Hs Hh Hb Hr He Hp.
  assert (Hw : snd (adopt_api_key req hdr w) = w).
  { unfold adopt_api_key; rewrite (py_or_falsy _ _ Hh), Hb; reflexivity. }
  assert (Hi : init_llm_client None None None w
               = (Raise (LLMNotConfigured not_configured_message), w)).
  { rewrite init_llm_client_no_key.
    - rewrite (py_or_falsy None) by reflexivity.
      destruct (getenv w (lit "GOOGLE_CLOUD_PROJECT")) as [[|? ?]|];
        try reflexivity; discriminate.
    - rewrite (py_or_falsy None) by reflexivity.
      rewrite (py_or_falsy _ _ Hr); exact He. }
  destruct (split_sentences (req_text req)) as [|s rest] eqn:Es;
    [contradiction Hs; reflexivity|].
  assert (Hh' : highlight req hdr w
                = (Raise (HTTPException 400 not_configured_message), w)).
  { assert (Ht : highlight_text (req_text req) (req_question req)
                   default_model (snd (adopt_api_key req hdr w))
                 = (Raise (LLMNotConfigured not_configured_message), w)).
    { rewrite Hw; eapply highlight_text_not_configured; eassumption. }
    rewrite (highlight_raised _ _ _ Ht); reflexivity. }
  split; [exact Hh' | rewrite Hh'; reflexivity].
Qed.

(** C1.  The handler never returns a payload, so never one that
    carries the hash: when [highlight_text] has succeeded the query and
    the result are written under the identifier, and then the
    assignment [response.hash = query_hash] raises [ValueError], for
    [HighlightResponse] declares no field of that name.  The client
    receives the framework's bare 500. *)
Theorem C1_successful_request_raises_after_saving :
  forall req hdr w,
    (forall payload, fst (highlight req hdr w) <> Ok payload) /\
    (forall response w1 encoded,
       highlight_text (req_text req) (req_question req) default_model
                      (snd (adopt_api_key req hdr w)) = (Ok response, w1) ->
       encode (req_text req ++ lit "|" ++ req_question req)
       = Some encoded ->
       let name := firstn 12 (sha256_hexdigest encoded) ++ lit ".json" in
       let w2 := snd (highlight req hdr w) in
       fst (highlight req hdr w)
       = Raise (ValueError no_hash_field_message) /\
       http_response (fst (highlight req hdr w)) = internal_server_error /\
       (exists d, saved w2 = Some d /\
          read_file d name = Some (req_text req, req_question req)) /\
       (exists d, saved_results w2 = Some d /\
          read_file d name = Some response)).
Proof.
  intros req hdr w; split.
  - intros payload.
    destruct (highlight_text (req_text req) (req_question req)
                default_model (snd (adopt_api_key req hdr w)))
      as [[response|e] w1] eqn:H.
    + rewrite (highlight_returned _ _ _ H).
      destruct (save_query req response w1) as [[h|e] w2]; discriminate.
    + rewrite (highlight_raised _ _ _ H); destruct e; discriminate.
  - intros response w1 encoded H E name w2; subst w2.
    rewrite (highlight_returned _ _ _ H).
    pose proof (save_query_returns req response w1 E) as Hr.
    pose proof (save_query_stores req response w1 E) as Hst.
    destruct (save_query req response w1) as [[h|e] w2];
      cbn [fst] in Hr; [|discriminate].
    cbn [fst snd] in Hst |- *.
    destruct Hst as [Hq [Hres _]].
    split; [reflexivity|]; split; [reflexivity|]; split; assumption.
Qed.

(** C5.  When the text of the LLM response does not parse as JSON,
    [score_sentences] raises a [ValueError] whose message quotes the
    cleaned response, but the handler catches [LLMNotConfigured] and
    [LLMCallError] only: the exception leaves the handler as it is, the
    client receives the framework's bare 500 without the message, and
    nothing is stored. *)
Theorem C5_parse_failure_is_not_translated :
  forall req hdr w client s rest reply e,
    let w1 := snd (adopt_api_key req hdr w) in
    let call := mkCall client default_model
                  (scoring_prompt (s :: rest) (req_question req))
                  zero_float in
    split_sentences (req_text req) = s :: rest ->
    init_llm_client None None None w1 = (Ok client, w1) ->
    llm w call = ReplyText (Some reply) ->
    reply <> [] ->
    json_loads (clean_response reply) = inl e ->
    highlight req hdr w
    = (Raise (ValueError (parse_failure_message e (clean_response reply))),
       log_call w1 call) /\
    http_response (fst (highlight req hdr w)) = internal_server_error /\
    (forall status detail,
       fst (highlight req hdr w) <> Raise (HTTPException status detail)) /\
    saved (snd (highlight req hdr w)) = saved w /\
    saved_results (snd (highlight req hdr w)) = saved_results w.
Proof.
  intros req hdr w client s rest reply e w1 call Hs Hc Hr Hn Hj.
  destruct (adopt_api_key_frame req hdr w) as [_ [Hl [_ [Hsv Hsr]]]].
  fold w1 in Hl, Hsv, Hsr.
  assert (Hr1 : llm w1 call = ReplyText (Some reply))
    by (rewrite Hl; exact Hr).
  assert (Ht : highlight_text (req_text req) (req_question req)
                 default_model w1
               = (Raise (ValueError (parse_failure_message e
                                       (clean_response reply))),
                  log_call w1 call)).
  { erewrite highlight_text_reply by eassumption.
    rewrite Hj; reflexivity. }
  assert (H : highlight req hdr w
              = (Raise (ValueError (parse_failure_message e
                                      (clean_response reply))),
                 log_call w1 call)).
  { erewrite highlight_raised by exact Ht; reflexivity. }
  rewrite H; cbn [fst snd].
  split; [reflexivity|]; split; [reflexivity|]; split.
  - intros status detail; discriminate.
  - split; [exact Hsv | exact Hsr].
Qed.

End Endpoint.

(** ** Dictionaries keyed by index *)

Lemma key_eqb_eq a b : key_eqb a b = true <-> a = b.
Proof.
  unfold key_eqb; destruct (key_eq_dec a b); split; congruence.
Qed.

Lemma key_eqb_refl a : key_eqb a a = true.
Proof. apply key_eqb_eq; reflexivity. Qed.

Lemma key_eqb_sym_false a b : key_eqb a b = false -> key_eqb b a = false.
Proof.
  unfold key_eqb; destruct (key_eq_dec a b), (key_eq_dec b a);
    congruence.
Qed.

Lemma dict_get_set {V} (d : keydict V) k v k' :
  dict_get (dict_set d k v) k'
  = if key_eqb k k' then Some v else dict_get d k'.
Proof.
  induction d as [|[k0 v0] d IH]; simpl; [reflexivity|].
  destruct (key_eqb k0 k) eqn:E0; simpl.
  - apply key_eqb_eq in E0; subst k0.
    destruct (key_eqb k k'); reflexivity.
  - rewrite IH.
    destruct (key_eqb k0 k') eqn:E1; [|reflexivity].
    apply key_eqb_eq in E1; subst k'.
    rewrite (key_eqb_sym_false _ _ E0); reflexivity.
Qed.

Lemma has_key_true k item : has_key k item = true <-> item_key item = Some k.
Proof.
  unfold has_key; destruct (item_key item) as [k'|].
  - rewrite key_eqb_eq; split; congruence.
  - split; discriminate.
Qed.

Lemma find_last_some k items found :
  find_last k items = Some found ->
  exists pre post,
    items = pre ++ found :: post /\ item_key found = Some k /\
    forall x, In x post -> item_key x <> Some k.
Proof.
  revert found; induction items as [|item rest IH]; intros found H;
    simpl in H; [discriminate|].
  destruct (find_last k rest) as [f|] eqn:E.
  - inversion H; subst f.
    destruct (IH found eq_refl) as (pre & post & -> & Hk & Hpost).
    exists (item :: pre), post; repeat split; assumption.
  - destruct (has_key k item) eqn:Hh; [|discriminate].
    inversion H; subst found.
    exists [], rest; split; [reflexivity|].
    split; [apply has_key_true, Hh|].
    intros x Hx Hkx; clear IH H.
    induction rest as [|y rest IHr]; [contradiction|].
    simpl in E.
    destruct (find_last k rest) eqn:E'; [discriminate|].
    destruct (has_key k y) eqn:Hy; [discriminate|].
    destruct Hx as [<-|Hx].
    + apply has_key_true in Hkx; congruence.
    + apply IHr; [reflexivity | exact Hx].
Qed.

Lemma find_last_none k items :
  find_last k items = None <->
  forall x, In x items -> item_key x <> Some k.
Proof.
  split.
  - induction items as [|item rest IH]; intros H x Hx; [contradiction|].
    simpl in H.
    destruct (find_last k rest) eqn:E; [discriminate|].
    destruct (has_key k item) eqn:Hh; [discriminate|].
    destruct Hx as [<-|Hx].
    + intros Hk; apply has_key_true in Hk; congruence.
    + apply IH; [reflexivity | exact Hx].
  - intros H; destruct (find_last k items) as [found|] eqn:E;
      [|reflexivity].
    destruct (find_last_some _ _ E) as (pre & post & -> & Hk & _).
    exfalso; apply (H found); [|exact Hk].
    apply in_or_app; right; left; reflexivity.
Qed.

Lemma find_last_filter k p items :
  (forall item, has_key k item = true -> p item = true) ->
  find_last k (filter p items) = find_last k items.
Proof.
  intros Hp; induction items as [|item rest IH]; [reflexivity|].
  simpl; destruct (p item) eqn:E; simpl; rewrite IH; [reflexivity|].
  destruct (has_key k item) eqn:Hh.
  - rewrite (Hp _ Hh) in E; discriminate.
  - destruct (find_last k rest); reflexivity.
Qed.

Lemma find_last_unique k items item :
  NoDup (map item_key items) ->
  In item items -> item_key item = Some k ->
  find_last k items = Some item.
Proof.
  induction items as [|x rest IH]; intros Hnd Hin Hk; [contradiction|].
  simpl in Hnd; inversion Hnd as [|? ? Hnotin Hnd']; subst.
  simpl; destruct Hin as [->|Hin].
  - destruct (find_last k rest) as [y|] eqn:E.
    + destruct (find_last_some _ _ E) as (pre & post & -> & Hy & _).
      exfalso; apply Hnotin; rewrite Hk, <- Hy.
      apply in_map, in_or_app; right; left; reflexivity.
    + apply has_key_true in Hk; rewrite Hk; reflexivity.
  - rewrite (IH Hnd' Hin Hk); reflexivity.
Qed.

Lemma find_last_permutation k items items' :
  Permutation items items' ->
  NoDup (map item_key items) ->
  find_last k items' = find_last k items.
Proof.
  intros Hperm Hnd.
  assert (Hnd' : NoDup (map item_key items')).
  { eapply Permutation_NoDup; [apply Permutation_map, Hperm | exact Hnd]. }
  destruct (find_last k items) as [found|] eqn:E.
  - destruct (find_last_some _ _ E) as (pre & post & Hi & Hk & _).
    apply find_last_unique; [exact Hnd' | | exact Hk].
    apply (Permutation_in _ Hperm); rewrite Hi.
    apply in_or_app; right; left; reflexivity.
  - apply find_last_none; intros x Hx.
    apply (proj1 (find_last_none k items) E).
    apply (Permutation_in _ (Permutation_sym Hperm) Hx).
Qed.

Lemma rmap_total {A B} (f : A -> result B) (l : list A) :
  (forall a, In a l -> exists b, f a = Ok b) ->
  exists bs, rmap f l = Ok bs.
Proof.
  induction l as [|a l IH]; intros H; simpl; [eexists; reflexivity|].
  destruct (H a (or_introl eq_refl)) as [b ->].
  destruct IH as [bs ->]; [intros x Hx; apply H; right; exact Hx|].
  eexists; reflexivity.
Qed.

Lemma rmap_ext {A B} (f g : A -> result B) (l : list A) :
  (forall a, In a l -> f a = g a) -> rmap f l = rmap g l.
Proof.
  induction l as [|a l IH]; intros H; simpl; [reflexivity|].
  rewrite (H a (or_introl eq_refl)), IH; [reflexivity|].
  intros x Hx; apply H; right; exact Hx.
Qed.

Lemma in_enumerate {A} (l : list A) i a :
  In (i, a) (enumerate l) -> nth_error l i = Some a.
Proof.
  intros H; apply In_nth_error in H; destruct H as [n H].
  apply nth_error_enumerate_from in H; destruct H as [-> H]; exact H.
Qed.

Lemma nth_error_combine_seq {A} (l : list A) k i a :
  nth_error l i = Some a ->
  nth_error (combine (seq k (length l)) l) i = Some (k + i, a).
Proof.
  revert i k; induction l as [|x l IH]; intros i k H;
    destruct i as [|i]; simpl in *; try discriminate.
  - inversion H; subst.
    replace (k + 0) with k by lia; reflexivity.
  - rewrite (IH i (S k) H); f_equal; f_equal; lia.
Qed.

Lemma nth_error_enumerate {A} (l : list A) i a :
  nth_error l i = Some a -> nth_error (enumerate l) i = Some (i, a).
Proof. intros H; apply (nth_error_combine_seq l 0 i H). Qed.

(** ** Reconciliation of the scores with the sentences *)

Section Reconciliation.

Context {P : Platform}.

Lemma index_item_ok d item k :
  item_key item = Some k -> index_item d item = Ok (dict_set d k item).
Proof.
  unfold item_key, index_item, subscript.
  destruct item as [| | | | | |fields]; try discriminate.
  destruct (lookup fields (lit "index")) as [v|]; [|discriminate].
  simpl; destruct (hash_key v) as [k'|]; [|discriminate].
  intros H; inversion H; reflexivity.
Qed.

Lemma rfold_index_items items :
  forall d0,
    forallb indexed items = true ->
    exists d,
      rfold index_item items d0 = Ok d /\
      forall k, dict_get d k
                = match find_last k items with
                  | Some item => Some item
                  | None => dict_get d0 k
                  end.
Proof.
  induction items as [|item rest IH]; intros d0 H; simpl.
  - exists d0; split; reflexivity.
  - simpl in H; apply andb_prop in H; destruct H as [Hi Hrest].
    unfold indexed in Hi.
    destruct (item_key item) as [k0|] eqn:Ek; [|discriminate].
    rewrite (index_item_ok d0 _ Ek); simpl.
    destruct (IH (dict_set d0 k0 item) Hrest) as [d [Hd Hget]].
    exists d; split; [exact Hd|].
    intros k; rewrite Hget.
    destruct (find_last k rest); [reflexivity|].
    rewrite dict_get_set; unfold has_key; rewrite Ek.
    destruct (key_eqb k0 k); reflexivity.
Qed.

Lemma score_one_ext d1 d2 i s :
  dict_get d1 (key_of_int (Z.of_nat (i + 1)))
  = dict_get d2 (key_of_int (Z.of_nat (i + 1))) ->
  score_one d1 (i, s) = score_one d2 (i, s).
Proof. intros H; unfold score_one; rewrite H; reflexivity. Qed.

Lemma score_one_default d i s :
  dict_get d (key_of_int (Z.of_nat (i + 1))) = None ->
  score_one d (i, s) = Ok (mkSentenceScore i s zero_float None).
Proof.
  intros H; unfold score_one; rewrite H; simpl.
  unfold make_SentenceScore; rewrite validate_float_exact; reflexivity.
Qed.

Lemma score_one_found d i s fields :
  dict_get d (key_of_int (Z.of_nat (i + 1))) = Some (JObj fields) ->
  typed_item (JObj fields) = true ->
  exists ss,
    score_one d (i, s) = Ok ss /\
    match lookup fields (lit "score") with
    | Some v => validate_float v = Some (ss_score ss)
    | None => ss_score ss = zero_float
    end /\
    match lookup fields (lit "rationale") with
    | Some v => validate_optional_str v = Some (ss_rationale ss)
    | None => ss_rationale ss = None
    end.
Proof.
  intros H Ht; unfold score_one; rewrite H; unfold get; simpl.
  unfold typed_item in Ht; apply andb_prop in Ht; destruct Ht as [Hs Hr].
  unfold make_SentenceScore.
  destruct (lookup fields (lit "score")) as [v|].
  - destruct (validate_float v) as [f|] eqn:Ev; [|discriminate].
    destruct (lookup fields (lit "rationale")) as [r|].
    + destruct (validate_optional_str r) as [o|] eqn:Er; [|discriminate].
      eexists; split; [reflexivity|]; split; reflexivity.
    + eexists; split; [reflexivity|]; split; reflexivity.
  - rewrite validate_float_exact.
    destruct (lookup fields (lit "rationale")) as [r|].
    + destruct (validate_optional_str r) as [o|] eqn:Er; [|discriminate].
      eexists; split; [reflexivity|]; split; reflexivity.
    + eexists; split; [reflexivity|]; split; reflexivity.
Qed.

(** [build_scores] as a function of the last element per index. *)
Lemma build_scores_by_find_last sentences d items :
  lookup d (lit "scores") = Some (JArr items) ->
  forallb indexed items = true ->
  exists dict,
    (forall k, dict_get dict k = find_last k items) /\
    build_scores sentences (JObj d)
    = rmap (score_one dict) (enumerate sentences).
Proof.
  intros Hl Hi; unfold build_scores, subscript; rewrite Hl; simpl.
  destruct (rfold_index_items items [] Hi) as [dict [-> Hget]]; simpl.
  exists dict; split; [|reflexivity].
  intros k; rewrite Hget; destruct (find_last k items); reflexivity.
Qed.

Lemma build_scores_same_selection sentences d items d' items' :
  lookup d (lit "scores") = Some (JArr items) ->
  lookup d' (lit "scores") = Some (JArr items') ->
  forallb indexed items = true ->
  forallb indexed items' = true ->
  (forall i, i < length sentences ->
     find_last (key_of_int (Z.of_nat (i + 1))) items'
     = find_last (key_of_int (Z.of_nat (i + 1))) items) ->
  build_scores sentences (JObj d') = build_scores sentences (JObj d).
Proof.
  intros Hl Hl' Hi Hi' Hsel.
  destruct (build_scores_by_find_last sentences d Hl Hi)
    as [dict [Hg ->]].
  destruct (build_scores_by_find_last sentences d' Hl' Hi')
    as [dict' [Hg' ->]].
  apply rmap_ext; intros [i s] Hin.
  apply score_one_ext; rewrite Hg, Hg'; apply Hsel.
  apply in_enumerate in Hin.
  apply nth_error_Some; congruence.
Qed.

End Reconciliation.

Lemma item_key_object item k :
  item_key item = Some k -> exists fields, item = JObj fields.
Proof.
  destruct item; try discriminate; intros _; eexists; reflexivity.
Qed.

Lemma forallb_filter {A} (q p : A -> bool) (l : list A) :
  forallb q l = true -> forallb q (filter p l) = true.
Proof.
  intros H; apply forallb_forall; intros x Hx.
  apply filter_In in Hx; destruct Hx as [Hx _].
  revert x Hx; apply forallb_forall, H.
Qed.

Lemma rfold_app {A S} (body : S -> A -> result S) (l1 l2 : list A) s :
  rfold body (l1 ++ l2) s = rbind (rfold body l1 s) (rfold body l2).
Proof.
  revert s; induction l1 as [|a l1 IH]; intros s; simpl; [reflexivity|].
  destruct (body s a); simpl; [apply IH | reflexivity].
Qed.

Lemma has_key_in_range n i item :
  i < n -> has_key (key_of_int (Z.of_nat (i + 1))) item = true ->
  in_range n item = true.
Proof.
  intros Hi Hk; unfold in_range; apply existsb_exists.
  exists (i + 1); split; [apply in_seq; lia | exact Hk].
Qed.

Section Scorer.

Context {P : Platform}.

(** C2 (amended).  For a decoded response [{"scores": items}] whose
    elements are objects with a hashable ["index"], a ["score"] (when
    present) that the float validation accepts and a ["rationale"]
    (when present) that is a string or null, the scorer returns one
    [SentenceScore] per sentence, in order.  The sentence at position
    [i] takes score and rationale from the LAST element whose index
    equals [i+1], with 0.0 for a missing score field; without such an
    element it gets 0.0 and no rationale.  Elements with an index
    outside [1..N] can be dropped without changing the result, and
    so can the order of the elements be changed, provided no two
    elements share an index. *)
Theorem C2_scores_reconciled_by_index :
  forall sentences d items,
    lookup d (lit "scores") = Some (JArr items) ->
    forallb indexed items = true ->
    forallb typed_item items = true ->
    exists scored,
      build_scores sentences (JObj d) = Ok scored /\
      length scored = length sentences /\
      (forall i s,
         nth_error sentences i = Some s ->
         exists ss,
           nth_error scored i = Some ss /\
           ss_index ss = i /\ ss_text ss = s /\
           ((forall item, In item items ->
               item_key item <> Some (key_of_int (Z.of_nat (i + 1)))) /\
            ss_score ss = zero_float /\ ss_rationale ss = None
            \/
            exists pre fields post,
              items = pre ++ JObj fields :: post /\
              item_key (JObj fields)
              = Some (key_of_int (Z.of_nat (i + 1))) /\
              (forall item, In item post ->
                 item_key item <> Some (key_of_int (Z.of_nat (i + 1)))) /\
              match lookup fields (lit "score") with
              | Some v => validate_float v = Some (ss_score ss)
              | None => ss_score ss = zero_float
              end /\
              match lookup fields (lit "rationale") with
              | Some v => validate_optional_str v = Some (ss_rationale ss)
              | None => ss_rationale ss = None
              end)) /\
      (forall d',
         lookup d' (lit "scores")
         = Some (JArr (filter (in_range (length sentences)) items)) ->
         build_scores sentences (JObj d') = Ok scored) /\
      (forall d' items',
         lookup d' (lit "scores") = Some (JArr items') ->
         Permutation items items' ->
         NoDup (map item_key items) ->
         build_scores sentences (JObj d') = Ok scored).
Proof.
  intros sentences d items Hl Hi Ht.
  destruct (build_scores_by_find_last sentences d Hl Hi)
    as [dict [Hg Hb]].
  assert (Hsel : forall i s,
            (find_last (key_of_int (Z.of_nat (i + 1))) items = None /\
             score_one dict (i, s)
             = Ok (mkSentenceScore i s zero_float None))
            \/
            exists pre fields post ss,
              items = pre ++ JObj fields :: post /\
              item_key (JObj fields)
              = Some (key_of_int (Z.of_nat (i + 1))) /\
              (forall item, In item post ->
                 item_key item <> Some (key_of_int (Z.of_nat (i + 1)))) /\
              score_one dict (i, s) = Ok ss /\
              match lookup fields (lit "score") with
              | Some v => validate_float v = Some (ss_score ss)
              | None => ss_score ss = zero_float
              end /\
              match lookup fields (lit "rationale") with
              | Some v => validate_optional_str v = Some (ss_rationale ss)
              | None => ss_rationale ss = None
              end).
  { intros i s.
    destruct (find_last (key_of_int (Z.of_nat (i + 1))) items)
      as [found|] eqn:E.
    - right.
      destruct (find_last_some _ _ E) as (pre & post & Hitems & Hk & Hpost).
      destruct (item_key_object _ Hk) as [fields ->].
      assert (Hty : typed_item (JObj fields) = true).
      { apply (proj1 (forallb_forall _ _) Ht); rewrite Hitems.
        apply in_or_app; right; left; reflexivity. }
      assert (Hd : dict_get dict (key_of_int (Z.of_nat (i + 1)))
                   = Some (JObj fields)) by (rewrite Hg; exact E).
      destruct (score_one_found dict i s Hd Hty) as (ss & Hss & Hsc & Hra).
      exists pre, fields, post, ss; repeat split; assumption.
    - left; split; [reflexivity|].
      apply score_one_default; rewrite Hg; exact E. }
  destruct (rmap_total (score_one dict) (enumerate sentences))
    as [scored Hs].
  { intros [i s] _; destruct (Hsel i s) as [[_ H]|H].
    - eexists; exact H.
    - destruct H as (? & ? & ? & ss & _ & _ & _ & H & _).
      exists ss; exact H. }
  assert (Hlen : length scored = length sentences).
  { rewrite (rmap_length _ _ Hs); unfold enumerate.
    rewrite length_combine, length_seq; lia. }
  exists scored; split; [rewrite Hb; exact Hs|].
  split; [exact Hlen|].
  split.
  { intros i s Hn.
    destruct (nth_error scored i) as [ss|] eqn:Ess.
    2:{ apply nth_error_None in Ess.
        assert (i < length sentences)
          by (apply nth_error_Some; congruence).
        lia. }
    exists ss; split; [reflexivity|].
    destruct (rmap_nth _ _ Hs i Ess) as [[j t] [Hj Hone]].
    rewrite (nth_error_enumerate _ _ Hn) in Hj.
    inversion Hj; subst j t.
    destruct (score_one_fields _ _ _ Hone) as [Hidx Htxt].
    split; [exact Hidx|]; split; [exact Htxt|].
    destruct (Hsel i s) as [[Hnone Hdef]|H].
    - left; rewrite Hdef in Hone; inversion Hone; subst ss.
      split; [apply find_last_none, Hnone|]; split; reflexivity.
    - destruct H as (pre & fields & post & ss' & Hi' & Hk & Hp & H1 & H2 & H3).
      rewrite H1 in Hone; inversion Hone; subst ss'.
      right; exists pre, fields, post; repeat split; assumption. }
  split.
  { intros d' Hl'.
    rewrite <- Hs, <- Hb.
    apply (build_scores_same_selection sentences d d' Hl Hl' Hi).
    - apply forallb_filter, Hi.
    - intros i Hlt; apply find_last_filter.
      intros item; apply has_key_in_range, Hlt. }
  intros d' items' Hl' Hperm Hnd.
  rewrite <- Hs, <- Hb.
  apply (build_scores_same_selection sentences d d' Hl Hl' Hi).
  - apply forallb_forall; intros x Hx.
    apply (proj1 (forallb_forall _ _) Hi).
    apply (Permutation_in _ (Permutation_sym Hperm) Hx).
  - intros i _; apply find_last_permutation; assumption.
Qed.

(** C10.  A decoded object without ["scores"], or a scores list with an
    element without ["index"] (the elements before it being sound),
    makes the scorer raise [KeyError]; the handler does not translate
    it, so the request ends in the framework's bare 500 with nothing
    stored. *)
Theorem C10_missing_key_raises_KeyError :
  (forall sentences d,
     lookup d (lit "scores") = None ->
     build_scores sentences (JObj d) = Raise (KeyError (lit "scores"))) /\
  (forall sentences d pre fields post,
     lookup d (lit "scores") = Some (JArr (pre ++ JObj fields :: post)) ->
     forallb indexed pre = true ->
     lookup fields (lit "index") = None ->
     build_scores sentences (JObj d) = Raise (KeyError (lit "index"))) /\
  (forall req hdr w client s rest reply data k,
     let w1 := snd (adopt_api_key req hdr w) in
     let call := mkCall client default_model
                   (scoring_prompt (s :: rest) (req_question req))
                   zero_float in
     split_sentences (req_text req) = s :: rest ->
     init_llm_client None None None w1 = (Ok client, w1) ->
     llm w call = ReplyText (Some reply) ->
     reply <> [] ->
     json_loads (clean_response reply) = inr data ->
     build_scores (s :: rest) data = Raise (KeyError k) ->
     highlight req hdr w = (Raise (KeyError k), log_call w1 call) /\
     http_response (fst (highlight req hdr w)) = internal_server_error).
Proof.
  split; [|split].
  - intros sentences d Hl; unfold build_scores, subscript.
    rewrite Hl; reflexivity.
  - intros sentences d pre fields post Hl Hpre Hidx.
    unfold build_scores, subscript; rewrite Hl; simpl.
    rewrite rfold_app.
    destruct (rfold_index_items pre [] Hpre) as [dict [-> _]]; simpl.
    unfold index_item, subscript; rewrite Hidx; reflexivity.
  - intros req hdr w client s rest reply data k w1 call
           Hs Hc Hr Hn Hj Hb.
    destruct (adopt_api_key_frame req hdr w) as [_ [Hl _]].
    fold w1 in Hl.
    assert (Hr1 : llm w1 call = ReplyText (Some reply))
      by (rewrite Hl; exact Hr).
    assert (Ht : highlight_text (req_text req) (req_question req)
                   default_model w1
                 = (Raise (KeyError k), log_call w1 call)).
    { erewrite highlight_text_reply by eassumption.
      rewrite Hj, Hb; reflexivity. }
    assert (H : highlight req hdr w
                = (Raise (KeyError k), log_call w1 call)).
    { erewrite highlight_raised by exact Ht; reflexivity. }
    rewrite H; split; reflexivity.
Qed.

End Scorer.

(** ** Whitespace *)

Lemma terminal_not_space c : is_terminal c = true -> is_space c = false.
Proof.
  unfold is_terminal; intros H.
  apply orb_prop in H; destruct H as [H|H];
    [apply orb_prop in H; destruct H as [H|H]|];
    apply N.eqb_eq in H; subst; reflexivity.
Qed.

Ltac decide_comparisons :=
  repeat match goal with
         | |- context [(?a <=? ?b)%N] =>
             first
               [ replace (a <=? b)%N with true
                   by (symmetry; apply N.leb_le; lia)
               | replace (a <=? b)%N with false
                   by (symmetry; apply N.leb_gt; lia) ]
         | |- context [(?a =? ?b)%N] =>
             first
               [ replace (a =? b)%N with true
                   by (symmetry; apply N.eqb_eq; lia)
               | replace (a =? b)%N with false
                   by (symmetry; apply N.eqb_neq; lia) ]
         end.

Lemma upper_not_space c : is_upper c = true -> is_space c = false.
Proof.
  unfold is_upper; intros H; apply andb_prop in H; destruct H as [H1 H2].
  apply N.leb_le in H1, H2; unfold is_space.
  decide_comparisons; reflexivity.
Qed.

Lemma newline_is_space : is_space ch_newline = true.
Proof. reflexivity. Qed.

Lemma take_drop_while p s : take_while p s ++ drop_while p s = s.
Proof.
  induction s as [|c s IH]; simpl; [reflexivity|].
  destruct (p c); simpl; [rewrite IH|]; reflexivity.
Qed.

Lemma take_while_all p s : forallb p (take_while p s) = true.
Proof.
  induction s as [|c s IH]; simpl; [reflexivity|].
  destruct (p c) eqn:E; simpl; [rewrite E; exact IH | reflexivity].
Qed.

Lemma drop_while_start s : starts_space (drop_while is_space s) = false.
Proof.
  induction s as [|c s IH]; simpl; [reflexivity|].
  destruct (is_space c) eqn:E; [exact IH | simpl; exact E].
Qed.

Lemma drop_while_none s : starts_space s = false -> drop_while is_space s = s.
Proof. destruct s as [|c s]; simpl; [reflexivity | intros ->; reflexivity]. Qed.

Lemma starts_space_app s t :
  s <> [] -> starts_space (s ++ t) = starts_space s.
Proof. destruct s; [congruence | reflexivity]. Qed.

Lemma ends_space_rev s : ends_space s = starts_space (rev s).
Proof.
  induction s as [|c s IH]; [reflexivity|].
  destruct s as [|d s]; [reflexivity|].
  change (ends_space (c :: d :: s)) with (ends_space (d :: s)).
  rewrite IH; change (rev (c :: d :: s)) with (rev (d :: s) ++ [c]).
  rewrite starts_space_app; [reflexivity|].
  simpl; intros H; apply app_eq_nil in H; destruct H; discriminate.
Qed.

Lemma rstrip_decompose s :
  exists w, s = rstrip s ++ w /\ forallb is_space w = true.
Proof.
  exists (rev (take_while is_space (rev s))); split.
  - unfold rstrip; rewrite <- rev_app_distr, take_drop_while, rev_involutive.
    reflexivity.
  - apply forallb_forall; intros x Hx; apply in_rev in Hx.
    revert x Hx; apply forallb_forall, take_while_all.
Qed.

Lemma rstrip_ends s : ends_space (rstrip s) = false.
Proof.
  rewrite ends_space_rev; unfold rstrip; rewrite rev_involutive.
  apply drop_while_start.
Qed.

Lemma rstrip_starts s : starts_space s = false -> starts_space (rstrip s) = false.
Proof.
  intros H; destruct (rstrip_decompose s) as [w [E _]].
  destruct (rstrip s) as [|c r] eqn:Er; [reflexivity|].
  rewrite E in H; exact H.
Qed.

Lemma rstrip_fixed s : ends_space s = false -> rstrip s = s.
Proof.
  rewrite ends_space_rev; intros H; unfold rstrip.
  rewrite (drop_while_none _ H); apply rev_involutive.
Qed.

Lemma strip_starts s : starts_space (strip s) = false.
Proof. apply rstrip_starts, drop_while_start. Qed.

Lemma strip_ends s : ends_space (strip s) = false.
Proof. apply rstrip_ends. Qed.

Lemma strip_fixed s :
  starts_space s = false -> ends_space s = false -> strip s = s.
Proof.
  intros H1 H2; unfold strip, lstrip; rewrite (drop_while_none _ H1).
  apply rstrip_fixed, H2.
Qed.

Lemma strip_idempotent s : strip (strip s) = strip s.
Proof. apply strip_fixed; [apply strip_starts | apply strip_ends]. Qed.

(** ** Normalised text *)

Lemma ends_space_cons c s :
  ends_space (c :: s) = false ->
  (s = [] /\ is_space c = false) \/ (s <> [] /\ ends_space s = false).
Proof.
  destruct s as [|d s]; simpl; intros H; [left | right]; split;
    auto; discriminate.
Qed.

Lemma sub_ws_starts_nonspace s :
  s <> [] -> ends_space s = false -> starts_nonspace (sub_ws true s) = true.
Proof.
  induction s as [|c s IH]; intros Hn He; [congruence|].
  simpl; destruct (is_space c) eqn:Ec.
  - destruct (ends_space_cons _ _ He) as [[_ H]|[Hs Hes]]; [congruence|].
    apply IH; assumption.
  - simpl; rewrite Ec; reflexivity.
Qed.

Lemma sub_ws_spaced s :
  forall b, ends_space s = false -> spaced (sub_ws b s) = true.
Proof.
  induction s as [|c s IH]; intros b He; [reflexivity|].
  assert (Hs : ends_space s = false).
  { destruct (ends_space_cons _ _ He) as [[-> _]|[_ H]];
      [reflexivity | exact H]. }
  simpl; destruct (is_space c) eqn:Ec.
  - destruct (ends_space_cons _ _ He) as [[_ H]|[Hn _]]; [congruence|].
    destruct b; [apply IH, Hs|].
    simpl; rewrite (sub_ws_starts_nonspace Hn Hs), (IH true Hs).
    reflexivity.
  - simpl; rewrite Ec; apply IH, Hs.
Qed.

Lemma sub_ws_starts s : starts_space (sub_ws false s) = starts_space s.
Proof.
  destruct s as [|c s]; [reflexivity|].
  simpl; destruct (is_space c) eqn:E; simpl; [reflexivity | exact E].
Qed.

Lemma normalize_normalized text : normalized (normalize text) = true.
Proof.
  unfold normalized, normalize.
  rewrite sub_ws_starts, strip_starts, sub_ws_spaced;
    [reflexivity | apply strip_ends].
Qed.

Lemma sub_ws_run s : starts_space s = false -> sub_ws true s = sub_ws false s.
Proof.
  destruct s as [|c s]; simpl; [reflexivity|]; intros ->; reflexivity.
Qed.

Lemma starts_nonspace_space s :
  starts_nonspace s = true -> starts_space s = false /\ s <> [].
Proof.
  destruct s as [|c s]; simpl; [discriminate|].
  intros H; apply negb_true_iff in H; split; [exact H | discriminate].
Qed.

Lemma spaced_sub_ws s : spaced s = true -> sub_ws false s = s.
Proof.
  induction s as [|c s IH]; [reflexivity|].
  simpl; destruct (is_space c) eqn:Ec; intros H.
  - apply andb_prop in H; destruct H as [H Hsp].
    apply andb_prop in H; destruct H as [Hc Hns].
    apply N.eqb_eq in Hc; subst c.
    destruct (starts_nonspace_space _ Hns) as [Hss _].
    rewrite (sub_ws_run _ Hss), (IH Hsp); reflexivity.
  - rewrite (IH H); reflexivity.
Qed.

Lemma spaced_ends s : spaced s = true -> ends_space s = false.
Proof.
  induction s as [|c s IH]; [reflexivity|].
  simpl; destruct (is_space c) eqn:Ec; intros H.
  - apply andb_prop in H; destruct H as [H Hsp].
    apply andb_prop in H; destruct H as [_ Hns].
    destruct s as [|d s]; [discriminate|]; apply IH, Hsp.
  - destruct s as [|d s]; [reflexivity | apply IH, H].
Qed.

Lemma normalized_parts s :
  normalized s = true -> starts_space s = false /\ spaced s = true.
Proof.
  unfold normalized; intros H; apply andb_prop in H; destruct H as [H1 H2].
  apply negb_true_iff in H1; split; assumption.
Qed.

Lemma normalized_strip s : normalized s = true -> strip s = s.
Proof.
  intros H; destruct (normalized_parts _ H) as [H1 H2].
  apply strip_fixed; [exact H1 | apply spaced_ends, H2].
Qed.

Lemma normalized_normalize s : normalized s = true -> normalize s = s.
Proof.
  intros H; unfold normalize; rewrite (normalized_strip _ H).
  apply spaced_sub_ws; apply (normalized_parts _ H).
Qed.

(** ** The scan over normalised text *)

Lemma spaced_cons c rest :
  spaced (c :: rest) = true ->
  spaced rest = true /\
  (is_space c = true -> c = ch_space /\ starts_nonspace rest = true).
Proof.
  simpl; destruct (is_space c); intros H.
  - apply andb_prop in H; destruct H as [H Hsp].
    apply andb_prop in H; destruct H as [Hc Hns].
    apply N.eqb_eq in Hc; split; [exact Hsp | intros _; split; assumption].
  - split; [exact H | discriminate].
Qed.

(** On normalised text a match is the single space between a terminal
    mark and a capital. *)
Lemma boundary_match_spaced prev c rest :
  spaced (c :: rest) = true ->
  boundary_match prev (c :: rest) = None \/
  (boundary_match prev (c :: rest) = Some 1 /\
   after_terminal prev = true /\ c = ch_space /\ starts_upper rest = true).
Proof.
  intros Hsp; destruct (spaced_cons _ _ Hsp) as [_ Hc].
  unfold boundary_match; destruct prev as [p|]; [|left; reflexivity].
  destruct (is_terminal p) eqn:Ep; [|left; reflexivity].
  simpl take_while; simpl drop_while.
  destruct (is_space c) eqn:Ec.
  - destruct (Hc eq_refl) as [-> Hns].
    destruct rest as [|d r]; [discriminate|].
    simpl in Hns; apply negb_true_iff in Hns.
    simpl; rewrite Hns; simpl.
    destruct (is_upper d) eqn:Eu; [right | left; reflexivity].
    repeat split; simpl; auto.
  - left; simpl.
    destruct rest as [|d r]; [|reflexivity].
    destruct (c =? ch_newline)%N eqn:En; [|reflexivity].
    apply N.eqb_eq in En; subst c; discriminate.
Qed.

Lemma clean_pieces_cons x l :
  clean_pieces (x :: l)
  = if nonempty (strip x) then strip x :: clean_pieces l else clean_pieces l.
Proof.
  unfold clean_pieces; simpl; destruct (nonempty (strip x)); reflexivity.
Qed.

Lemma rev_piece_trimmed c p :
  starts_space (rev (c :: p)) = false -> is_space c = false ->
  strip (rev (c :: p)) = rev (c :: p) /\ nonempty (rev (c :: p)) = true.
Proof.
  intros H1 H2; split.
  - apply strip_fixed; [exact H1|].
    rewrite ends_space_rev, rev_involutive; exact H2.
  - simpl; destruct (rev p); reflexivity.
Qed.

Lemma join_cons_nonempty sep x l :
  l <> [] -> join sep (x :: l) = x ++ sep ++ join sep l.
Proof. destruct l; [congruence | reflexivity]. Qed.

Lemma scan_spaced rest :
  forall prev piece,
    spaced rest = true ->
    piece_ok prev piece rest ->
    join [ch_space] (clean_pieces (split_scan prev 0 piece rest))
    = rev piece ++ rest /\
    Forall (fun s => s <> [] /\ strip s = s)
           (clean_pieces (split_scan prev 0 piece rest)).
Proof.
  induction rest as [|c rest IH]; intros prev piece Hsp [Hstart Hpiece].
  - assert (E : clean_pieces (split_scan prev 0 piece [])
                = clean_pieces [rev piece]).
    { simpl; destruct (boundary_match prev []); [|reflexivity].
      rewrite !clean_pieces_cons; reflexivity. }
    rewrite E, app_nil_r; clear E.
    destruct piece as [|c p]; [split; [reflexivity | constructor]|].
    destruct Hpiece as [_ Hc].
    assert (Ec : is_space c = false).
    { destruct (is_space c); [discriminate (Hc eq_refl) | reflexivity]. }
    destruct (rev_piece_trimmed _ _ Hstart Ec) as [Hfix Hne].
    rewrite clean_pieces_cons, Hfix, Hne.
    split; [reflexivity|].
    constructor; [|constructor].
    split; [|exact Hfix].
    intros H; rewrite H in Hne; discriminate.
  - destruct (spaced_cons _ _ Hsp) as [Hrest Hc].
    destruct (boundary_match_spaced prev _ _ Hsp)
      as [Hnone|(Hone & Hterm & -> & Hup)].
    + assert (E : split_scan prev 0 piece (c :: rest)
                  = split_scan (Some c) 0 (c :: piece) rest).
      { simpl split_scan; rewrite Hnone; reflexivity. }
      rewrite E; clear E.
      assert (Hok : piece_ok (Some c) (c :: piece) rest).
      { split.
        - destruct piece as [|p q].
          + destruct Hpiece as [_ H]; exact H.
          + change (rev (c :: p :: q)) with (rev (p :: q) ++ [c]).
            rewrite starts_space_app; [exact Hstart|].
            simpl; intros H; apply app_eq_nil in H; destruct H; discriminate.
        - split; [reflexivity|].
          intros H; apply (Hc H). }
      destruct (IH (Some c) (c :: piece) Hrest Hok) as [Hj Hf].
      split; [|exact Hf].
      rewrite Hj; simpl; rewrite <- app_assoc; reflexivity.
    + assert (E : split_scan prev 0 piece (ch_space :: rest)
                  = rev piece :: split_scan (Some ch_space) 0 [] rest).
      { simpl split_scan; rewrite Hone; reflexivity. }
      rewrite E; clear E.
      destruct piece as [|p q].
      { destruct Hpiece as [H _]; congruence. }
      destruct Hpiece as [-> _]; simpl in Hterm.
      destruct (rev_piece_trimmed _ _ Hstart (terminal_not_space _ Hterm))
        as [Hfix Hne].
      assert (Hns : starts_space rest = false).
      { destruct rest as [|d r]; [reflexivity|].
        apply upper_not_space, Hup. }
      assert (Hok : piece_ok (Some ch_space) [] rest).
      { split; [reflexivity|]; split; [reflexivity | exact Hns]. }
      destruct (IH (Some ch_space) [] Hrest Hok) as [Hj Hf].
      rewrite clean_pieces_cons, Hfix, Hne.
      split.
      * rewrite join_cons_nonempty.
        -- rewrite Hj; reflexivity.
        -- intros H; rewrite H in Hj; simpl in Hj.
           destruct rest; [discriminate Hup | discriminate Hj].
      * constructor; [|exact Hf].
        split; [|exact Hfix].
        intros H; rewrite H in Hne; discriminate.
Qed.

(** Without a terminal mark followed by a space and a capital the scan
    cuts nothing, except for the empty piece after a final mark. *)
Lemma scan_no_break rest :
  forall prev piece,
    spaced rest = true ->
    has_break (after_terminal prev) rest = false ->
    split_scan prev 0 piece rest = [rev piece ++ rest] \/
    split_scan prev 0 piece rest = [rev piece ++ rest; []].
Proof.
  induction rest as [|c rest IH]; intros prev piece Hsp Hb.
  - rewrite app_nil_r; simpl.
    destruct (boundary_match prev []); [right | left]; reflexivity.
  - destruct (spaced_cons _ _ Hsp) as [Hrest _].
    simpl in Hb; apply orb_false_iff in Hb; destruct Hb as [Hhere Hlater].
    destruct (boundary_match_spaced prev _ _ Hsp)
      as [Hnone|(_ & Hterm & -> & Hup)].
    + assert (E : split_scan prev 0 piece (c :: rest)
                  = split_scan (Some c) 0 (c :: piece) rest).
      { simpl split_scan; rewrite Hnone; reflexivity. }
      rewrite E; clear E.
      replace (rev piece ++ c :: rest) with (rev (c :: piece) ++ rest)
        by (simpl; rewrite <- app_assoc; reflexivity).
      apply IH; assumption.
    + exfalso; rewrite Hterm in Hhere; simpl in Hhere.
      rewrite drop_while_none in Hhere; [congruence|].
      destruct rest as [|d r]; [reflexivity|].
      apply upper_not_space, Hup.
Qed.

(** ** Sentence breaks survive normalisation *)

Lemma space_not_terminal c : is_space c = true -> is_terminal c = false.
Proof.
  intros H; destruct (is_terminal c) eqn:E; [|reflexivity].
  rewrite (terminal_not_space _ E) in H; discriminate.
Qed.

Lemma has_break_sub_ws s :
  (forall a, has_break a (sub_ws false s) = has_break a s) /\
  has_break false (sub_ws true s) = has_break false s /\
  starts_upper (drop_while is_space (sub_ws true s))
  = starts_upper (drop_while is_space s) /\
  starts_upper (drop_while is_space (sub_ws false s))
  = starts_upper (drop_while is_space s).
Proof.
  induction s as [|c s (IH1 & IH2 & IH3 & IH4)]; [repeat split|].
  simpl; destruct (is_space c) eqn:Ec.
  - rewrite (space_not_terminal _ Ec).
    repeat split.
    + intros a; simpl.
      assert (Ht : is_terminal ch_space = false) by reflexivity.
      assert (Hs : is_space ch_space = true) by reflexivity.
      rewrite ?Ec, ?Ht, ?Hs, ?IH2, ?IH3; reflexivity.
    + simpl; exact IH2.
    + exact IH3.
    + simpl; exact IH3.
  - repeat split.
    + intros a; simpl; rewrite ?Ec, ?IH1, ?IH4; reflexivity.
    + simpl; rewrite ?Ec, ?IH1; reflexivity.
    + simpl; rewrite ?Ec; reflexivity.
    + simpl; rewrite ?Ec; reflexivity.
Qed.

Lemma has_break_lstrip s : has_break false (lstrip s) = has_break false s.
Proof.
  induction s as [|c s IH]; [reflexivity|].
  unfold lstrip in *; simpl; destruct (is_space c) eqn:Ec.
  - rewrite (space_not_terminal _ Ec); exact IH.
  - simpl; rewrite ?Ec; reflexivity.
Qed.

Lemma has_break_blank a w : forallb is_space w = true -> has_break a w = false.
Proof.
  revert a; induction w as [|c w IH]; intros a H; [reflexivity|].
  simpl in H; apply andb_prop in H; destruct H as [Hc Hw].
  simpl; rewrite (drop_while_all _ _ Hw), (IH _ Hw); simpl.
  rewrite !andb_false_r; reflexivity.
Qed.

Lemma starts_upper_drop_blank s w :
  forallb is_space w = true ->
  starts_upper (drop_while is_space (s ++ w))
  = starts_upper (drop_while is_space s).
Proof.
  intros Hw; induction s as [|c s IH]; simpl.
  - rewrite (drop_while_all _ _ Hw); reflexivity.
  - destruct (is_space c); [exact IH | reflexivity].
Qed.

Lemma has_break_app_blank s w :
  forallb is_space w = true ->
  forall a, has_break a (s ++ w) = has_break a s.
Proof.
  intros Hw; induction s as [|c s IH]; intros a; simpl.
  - apply has_break_blank, Hw.
  - rewrite (starts_upper_drop_blank s w Hw), IH; reflexivity.
Qed.

Lemma has_break_rstrip a s : has_break a (rstrip s) = has_break a s.
Proof.
  destruct (rstrip_decompose s) as [w [E Hw]].
  rewrite E at 2; symmetry; apply has_break_app_blank, Hw.
Qed.

Lemma has_break_normalize text :
  has_break false (normalize text) = has_break false text.
Proof.
  unfold normalize; rewrite (proj1 (has_break_sub_ws _)).
  unfold strip; rewrite has_break_rstrip; apply has_break_lstrip.
Qed.

(** ** The contract of the splitter *)

Lemma normalize_piece_ok text : piece_ok None [] (normalize text).
Proof.
  split; [reflexivity|]; split; [reflexivity|].
  apply (normalized_parts _ (normalize_normalized text)).
Qed.

Lemma clean_single n :
  normalized n = true ->
  clean_pieces [n] = match n with [] => [] | _ :: _ => [n] end /\
  clean_pieces [n; []] = match n with [] => [] | _ :: _ => [n] end.
Proof.
  intros H; rewrite !clean_pieces_cons, (normalized_strip _ H).
  destruct n; split; reflexivity.
Qed.

(** C7.  [split_sentences] returns non-empty, whitespace-trimmed strings
    which, joined by single spaces, are the normalised text: they are the
    pieces of the text between the cuts, in their order.  A text in which
    no terminal mark is followed by whitespace and a capital (a mark at
    the very end changes nothing) comes back whole, as one normalised
    sentence, or as no sentence when nothing but whitespace is in it. *)
Theorem C7_split_sentences_contract :
  forall text,
    Forall (fun s => s <> [] /\ strip s = s) (split_sentences text) /\
    join [ch_space] (split_sentences text) = normalize text /\
    (has_break false text = false ->
     split_sentences text
     = match normalize text with
       | [] => []
       | _ :: _ => [normalize text]
       end) /\
    (forallb is_space text = true -> split_sentences text = []).
Proof.
  intros text.
  pose proof (normalize_normalized text) as Hn.
  destruct (normalized_parts _ Hn) as [_ Hsp].
  destruct (@scan_spaced (normalize text) None [] Hsp
              (normalize_piece_ok text)) as [Hj Hf].
  split; [exact Hf|]; split; [exact Hj|]; split.
  - intros Hb; unfold split_sentences, re_split.
    rewrite <- has_break_normalize in Hb.
    destruct (@scan_no_break (normalize text) None [] Hsp Hb) as [E|E];
      rewrite E; simpl app; apply (clean_single _ Hn).
  - apply split_sentences_blank.
Qed.

(** ** Splitting a join of sentences *)

Lemma boundary_match_inside prev c s tail :
  spaced (c :: s) = true ->
  has_break (after_terminal prev) (c :: s) = false ->
  boundary_match prev (c :: s ++ tail) = None.
Proof.
  intros Hsp Hb; destruct (spaced_cons _ _ Hsp) as [_ Hc].
  unfold boundary_match; destruct prev as [p|]; [|reflexivity].
  simpl in Hb; destruct (is_terminal p); [|reflexivity].
  apply orb_false_iff in Hb; destruct Hb as [Hhere _].
  simpl take_while; simpl drop_while.
  destruct (is_space c) eqn:Ec.
  - destruct (Hc eq_refl) as [-> Hns].
    destruct s as [|d r]; [discriminate|].
    simpl in Hns; apply negb_true_iff in Hns.
    simpl in Hhere; rewrite Hns in Hhere; simpl in Hhere.
    simpl; rewrite Hns; simpl; rewrite Hhere; reflexivity.
  - simpl; destruct (s ++ tail); [|reflexivity].
    destruct (c =? ch_newline)%N eqn:En; [|reflexivity].
    apply N.eqb_eq in En; subst c; discriminate.
Qed.

Lemma scan_sentence s :
  forall prev piece tail,
    spaced s = true ->
    has_break (after_terminal prev) s = false ->
    split_scan prev 0 piece (s ++ tail)
    = split_scan (last_char prev s) 0 (rev s ++ piece) tail.
Proof.
  induction s as [|c s IH]; intros prev piece tail Hsp Hb; [reflexivity|].
  pose proof (@boundary_match_inside prev c s tail Hsp Hb) as Hnone.
  destruct (spaced_cons _ _ Hsp) as [Hrest _].
  simpl in Hb; apply orb_false_iff in Hb; destruct Hb as [_ Hlater].
  change ((c :: s) ++ tail) with (c :: s ++ tail).
  simpl split_scan; rewrite Hnone.
  rewrite (IH (Some c) (c :: piece) tail Hrest Hlater).
  simpl; rewrite <- app_assoc; reflexivity.
Qed.

Lemma split_scan_cut prev piece c rest k :
  boundary_match prev (c :: rest) = Some (S k) ->
  split_scan prev 0 piece (c :: rest)
  = rev piece :: split_scan (Some c) k [] rest.
Proof. intros H; simpl; rewrite H; reflexivity. Qed.

Lemma boundary_match_between c rest :
  is_terminal c = true -> starts_upper rest = true ->
  boundary_match (Some c) (ch_space :: rest) = Some 1.
Proof.
  intros Ht Hu; unfold boundary_match; rewrite Ht.
  destruct rest as [|d r]; [discriminate|].
  simpl in Hu; simpl; rewrite (upper_not_space _ Hu); simpl.
  rewrite Hu; reflexivity.
Qed.

Lemma last_char_nonempty prev s :
  s <> [] -> last_char prev s = last_char None s.
Proof. destruct s; [congruence | reflexivity]. Qed.

Lemma ends_terminal_last prev s :
  ends_terminal s = true ->
  s <> [] /\ exists c, last_char prev s = Some c /\ is_terminal c = true.
Proof.
  unfold ends_terminal; intros H.
  assert (Hn : s <> []) by (intros ->; discriminate).
  split; [exact Hn|]; rewrite (@last_char_nonempty prev s Hn).
  destruct (last_char None s) as [c|]; [|discriminate].
  exists c; split; [reflexivity | exact H].
Qed.

Lemma starts_upper_join (s : pystr) (l : list pystr) :
  s <> [] -> starts_upper (join [ch_space] (s :: l)) = starts_upper s.
Proof.
  intros Hn; destruct s as [|c s]; [congruence|].
  destruct l; reflexivity.
Qed.

Lemma join_two (sep s t : pystr) (l : list pystr) :
  join sep (s :: t :: l) = s ++ sep ++ join sep (t :: l).
Proof. reflexivity. Qed.

Lemma scan_sentences l :
  forall prev,
    l <> [] ->
    Forall (fun s => normalized s = true /\ ends_terminal s = true /\
                     has_break false s = false) l ->
    Forall (fun s => starts_upper s = true) (tl l) ->
    after_terminal prev = false ->
    split_scan prev 0 [] (join [ch_space] l) = l ++ [[]].
Proof.
  induction l as [|s l IH]; intros prev Hne Hall Hup Hprev; [congruence|].
  inversion Hall as [|? ? (Hnorm & Hend & Hbr) Hall']; subst.
  destruct (normalized_parts _ Hnorm) as [_ Hsp].
  assert (Hb : has_break (after_terminal prev) s = false)
    by (rewrite Hprev; exact Hbr).
  destruct (@ends_terminal_last prev s Hend) as [Hs (c & Hlast & Hterm)].
  destruct l as [|t l].
  - simpl join; rewrite <- (app_nil_r s) at 1.
    rewrite (@scan_sentence s prev [] [] Hsp Hb), Hlast, app_nil_r.
    simpl; rewrite Hterm; simpl; rewrite rev_involutive; reflexivity.
  - rewrite join_two.
    simpl in Hup; inversion Hup as [|? ? Hut Hup']; subst.
    inversion Hall' as [|? ? (_ & Hendt & _) _]; subst.
    destruct (@ends_terminal_last None t Hendt) as [Ht _].
    rewrite (@scan_sentence s prev []
               ([ch_space] ++ join [ch_space] (t :: l)) Hsp Hb),
      Hlast, app_nil_r.
    change ([ch_space] ++ join [ch_space] (t :: l))
      with (ch_space :: join [ch_space] (t :: l)).
    assert (Hm : boundary_match (Some c)
                   (ch_space :: join [ch_space] (t :: l)) = Some 1).
    { apply boundary_match_between; [exact Hterm|].
      rewrite (@starts_upper_join t l Ht); exact Hut. }
    rewrite (@split_scan_cut _ _ _ _ _ Hm), rev_involutive.
    rewrite (IH (Some ch_space)); [reflexivity | discriminate | | | ];
      [exact Hall' | exact Hup' | reflexivity].
Qed.

Lemma clean_pieces_sentences l :
  Forall (fun s => normalized s = true /\ ends_terminal s = true /\
                   has_break false s = false) l ->
  clean_pieces (l ++ [[]]) = l.
Proof.
  induction 1 as [|s l (Hnorm & Hend & _) _ IH]; [reflexivity|].
  simpl app; rewrite clean_pieces_cons, (normalized_strip _ Hnorm), IH.
  destruct s; [discriminate Hend | reflexivity].
Qed.

Lemma spaced_app s t :
  spaced s = true -> starts_nonspace t = true -> spaced t = true ->
  spaced (s ++ ch_space :: t) = true.
Proof.
  intros Hs Ht Hsp; induction s as [|c s IH].
  - simpl; rewrite Ht, Hsp; reflexivity.
  - destruct (spaced_cons _ _ Hs) as [Hrest Hc].
    simpl; destruct (is_space c) eqn:Ec; [|apply IH, Hrest].
    destruct (Hc eq_refl) as [-> Hns].
    rewrite (IH Hrest).
    destruct s as [|d r]; [discriminate|].
    simpl in Hns; simpl; rewrite Hns; reflexivity.
Qed.

Lemma upper_starts_nonspace s :
  starts_upper s = true -> starts_nonspace s = true.
Proof.
  destruct s as [|c s]; simpl; [discriminate|].
  intros H; rewrite (upper_not_space _ H); reflexivity.
Qed.

Lemma join_normalized l :
  Forall (fun s => normalized s = true /\ ends_terminal s = true /\
                   has_break false s = false) l ->
  Forall (fun s => starts_upper s = true) (tl l) ->
  normalized (join [ch_space] l) = true.
Proof.
  induction 1 as [|s l (Hnorm & Hend & _) Hall IH]; intros Hup;
    [reflexivity|].
  destruct l as [|t l]; [exact Hnorm|].
  rewrite join_two.
  simpl in Hup; inversion Hup as [|? ? Hut Hup']; subst.
  inversion Hall as [|? ? (_ & Hendt & _) _]; subst.
  destruct (@ends_terminal_last None s Hend) as [Hs _].
  destruct (@ends_terminal_last None t Hendt) as [Ht _].
  destruct (normalized_parts _ Hnorm) as [Hss Hsp].
  assert (Hj : normalized (join [ch_space] (t :: l)) = true).
  { apply IH; destruct l; [constructor | exact Hup']. }
  destruct (normalized_parts _ Hj) as [_ Hjsp].
  unfold normalized.
  rewrite (@starts_space_app s _ Hs), Hss.
  change ([ch_space] ++ join [ch_space] (t :: l))
    with (ch_space :: join [ch_space] (t :: l)).
  rewrite spaced_app; [reflexivity | exact Hsp | | exact Hjsp].
  apply upper_starts_nonspace.
  rewrite (@starts_upper_join t l Ht); exact Hut.
Qed.

(** C8 (amended).  When every sentence is normalised (trimmed, single
    spaces only), ends in a terminal mark and has no terminal mark
    followed by a space and a capital [A-Z] inside, and every sentence
    after the first starts with a capital [A-Z], splitting the
    single-space join gives the sentences back. *)
Theorem C8_split_of_join :
  forall sentences,
    Forall (fun s => normalized s = true /\ ends_terminal s = true /\
                     has_break false s = false) sentences ->
    Forall (fun s => starts_upper s = true) (tl sentences) ->
    split_sentences (join [ch_space] sentences) = sentences.
Proof.
  intros sentences Hall Hup.
  destruct sentences as [|s l]; [reflexivity|].
  unfold split_sentences, re_split.
  rewrite (@normalized_normalize _ (@join_normalized _ Hall Hup)).
  rewrite (@scan_sentences (s :: l) None); try assumption;
    [|discriminate | reflexivity].
  apply clean_pieces_sentences, Hall.
Qed.

(** C8 fails as stated: the sentences of [abbreviation_example] are
    normalised, end in a full stop and start with a capital, yet the
    join splits into three sentences at the abbreviation. *)
Lemma C8_abbreviation_splits :
  Forall (fun s => normalized s = true /\ ends_terminal s = true)
         abbreviation_example /\
  Forall (fun s => starts_upper s = true) abbreviation_example /\
  split_sentences (join [ch_space] abbreviation_example)
  = [lit "Dr."; lit "Smith arrived."; lit "He sat."] /\
  split_sentences (join [ch_space] abbreviation_example)
  <> abbreviation_example.
Proof.
  split; [repeat constructor|].
  split; [repeat constructor|].
  split; [reflexivity | discriminate].
Qed.

Lemma C8_split_of_join_witness :
  split_sentences
    (join [ch_space] [lit "The sky is blue."; lit "Grass is green."])
  = [lit "The sky is blue."; lit "Grass is green."].
Proof.
  apply C8_split_of_join; repeat constructor.
Defined.

(** ** The statements on concrete data *)

Lemma C3_no_sentence_no_llm_call_witness :
  forallb is_space (lit "   ") = true /\
  highlight_text (P := demo_platform) (lit "   ") (lit "Why?") default_model
                 (keyed_world empty_scores_text)
  = (Ok (mkResponse [] (lit "Why?")), keyed_world empty_scores_text).
Proof.
  split; [reflexivity|].
  apply (@C3_no_sentence_no_llm_call demo_platform (lit "   ") (lit "Why?")
           default_model (keyed_world empty_scores_text)
           (or_intror eq_refl)).
Defined.

Lemma C4_one_score_per_sentence_witness :
  exists response w',
    highlight_text (P := demo_platform) (req_text sky_request)
                   (req_question sky_request) default_model
                   (keyed_world empty_scores_text) = (Ok response, w') /\
    length (resp_sentences response) = 2.
Proof.
  remember (highlight_text (P := demo_platform) (req_text sky_request)
              (req_question sky_request) default_model
              (keyed_world empty_scores_text)) as run eqn:E.
  destruct run as [[response|e] w'].
  - exists response, w'; split; [reflexivity|].
    symmetry in E.
    apply (proj1 (@C4_one_score_per_sentence demo_platform _ _ _ _ _ _ E)).
  - exfalso; vm_compute in E; discriminate E.
Defined.

Lemma C6_identifier_is_truncated_sha256_witness :
  fst (save_query
         (mkRequest (lit "The sky. Grass is green.") (lit "q") None)
         (mkResponse [] (lit "q")) (keyed_world []))
  = Ok (lit "abb6139d502d").
Proof.
  destruct (@C6_identifier_is_truncated_sha256
              (mkRequest (lit "The sky. Grass is green.") (lit "q") None)
              (mkResponse [] (lit "q")) (keyed_world []) _ eq_refl)
    as [H _].
  rewrite H; vm_compute; reflexivity.
Defined.

Lemma C7_split_sentences_contract_witness :
  has_break false (lit "  hello   world. again ") = false /\
  split_sentences (lit "  hello   world. again ")
  = [lit "hello world. again"].
Proof.
  split; [reflexivity|].
  destruct (C7_split_sentences_contract (lit "  hello   world. again "))
    as [_ [_ [H _]]].
  rewrite (H eq_refl); reflexivity.
Defined.

Lemma C9_credential_resolution_order_witness :
  highlight (P := demo_platform) sky_request None
            (empty_world (constant_llm empty_scores_text))
  = (Raise (HTTPException 400 not_configured_message),
     empty_world (constant_llm empty_scores_text)).
Proof.
  destruct (@C9_credential_resolution_order demo_platform None None None
              (empty_world (constant_llm empty_scores_text)))
    as (_ & _ & _ & _ & _ & _ & H).
  apply (H sky_request None); try reflexivity; discriminate.
Defined.

Lemma C10_missing_key_raises_KeyError_witness :
  build_scores (P := demo_platform) [lit "A."] (JObj [])
  = Raise (KeyError (lit "scores")) /\
  build_scores (P := demo_platform) [lit "A."]
    (scores_doc [scored_item 1 half; JObj [(lit "score", JFloat half)]])
  = Raise (KeyError (lit "index")).
Proof.
  destruct (@C10_missing_key_raises_KeyError demo_platform)
    as (Hscores & Hindex & _).
  split.
  - apply Hscores; reflexivity.
  - apply (Hindex [lit "A."] _ [scored_item 1 half]
             [(lit "score", JFloat half)] []); reflexivity.
Defined.

Lemma C1_successful_request_raises_after_saving_witness :
  fst (highlight (P := demo_platform) (mkRequest [] [] None) None
                 (empty_world (constant_llm [])))
  = Raise (ValueError no_hash_field_message) /\
  exists d,
    saved (snd (highlight (P := demo_platform) (mkRequest [] [] None) None
                          (empty_world (constant_llm [])))) = Some d /\
    read_file d (lit "cbe5cfdf7c21.json") = Some ([], []).
Proof.
  destruct (@C1_successful_request_raises_after_saving demo_platform
              (mkRequest [] [] None) None (empty_world (constant_llm [])))
    as [_ H].
  destruct (H (mkResponse [] []) (empty_world (constant_llm [])) _
              eq_refl eq_refl) as (Hr & _ & Hq & _).
  split; [exact Hr|].
  destruct Hq as [d [Hd Hf]]; exists d; split; [exact Hd|].
  assert (En : lit "cbe5cfdf7c21.json"
               = firstn 12 (sha256_hexdigest [124%Z]) ++ lit ".json")
    by (vm_compute; reflexivity).
  rewrite En; exact Hf.
Defined.

Lemma C5_parse_failure_is_not_translated_witness :
  http_response
    (fst (highlight (P := demo_platform) sky_request None
                    (keyed_world (lit "not json"))))
  = internal_server_error.
Proof.
  refine (proj1 (proj2
    (@C5_parse_failure_is_not_translated demo_platform sky_request None
       (keyed_world (lit "not json")) (ApiKeyClient (lit "secret"))
       (lit "The sky is blue.") [lit "Grass is green."] (lit "not json") _
       eq_refl eq_refl eq_refl _ eq_refl))).
  discriminate.
Defined.

Lemma C2_scores_reconciled_by_index_witness :
  exists scored,
    build_scores (P := demo_platform) [lit "A."; lit "B."]
      (scores_doc [scored_item 2 half; scored_item 7 quarter])
    = Ok scored /\
    length scored = 2.
Proof.
  destruct (@C2_scores_reconciled_by_index demo_platform
              [lit "A."; lit "B."]
              [(lit "scores",
                JArr [scored_item 2 half; scored_item 7 quarter])]
              [scored_item 2 half; scored_item 7 quarter]
              eq_refl eq_refl eq_refl)
    as (scored & Hb & Hlen & _).
  exists scored; split; [exact Hb | exact Hlen].
Defined.

(** C2 fails as stated: with two elements carrying the same index the
    order of the list decides which score the sentence gets. *)
Lemma C2_order_matters_for_equal_indices :
  Permutation [scored_item 1 quarter; scored_item 1 half]
              [scored_item 1 half; scored_item 1 quarter] /\
  build_scores (P := demo_platform) [lit "A."]
    (scores_doc [scored_item 1 quarter; scored_item 1 half])
  = Ok [mkSentenceScore 0 (lit "A.") half None] /\
  build_scores (P := demo_platform) [lit "A."]
    (scores_doc [scored_item 1 half; scored_item 1 quarter])
  = Ok [mkSentenceScore 0 (lit "A.") quarter None] /\
  build_scores (P := demo_platform) [lit "A."]
    (scores_doc [scored_item 1 quarter; scored_item 1 half])
  <> build_scores (P := demo_platform) [lit "A."]
       (scores_doc [scored_item 1 half; scored_item 1 quarter]).
Proof.
  split; [apply perm_swap|].
  split; [reflexivity|]; split; [reflexivity|].
  discriminate.
Qed.

(** ** Checks against known values *)

Example round_constants_ends :
  length Sha256.round_constants = 64 /\
  hd 0%Z Sha256.round_constants = 0x428a2f98%Z /\
  last Sha256.round_constants 0%Z = 0xc67178f2%Z /\
  Sha256.va Sha256.initial = 0x6a09e667%Z /\
  Sha256.vh Sha256.initial = 0x5be0cd19%Z.
Proof. vm_compute; repeat split. Qed.

Example sha256_of_empty :
  sha256_hexdigest []
  = lit "e3b0c44298fc1c149afbf4c8996fb92427ae41e4649b934ca495991b7852b855".
Proof. vm_compute; reflexivity. Qed.

Example sha256_of_abc :
  option_map sha256_hexdigest (encode (lit "abc"))
  = Some (lit "ba7816bf8f01cfea414140de5dae2223b00361a396177a9cb410ff61f20015ad").
Proof. vm_compute; reflexivity. Qed.

Example sha256_two_blocks :
  sha256_hexdigest (repeat 97%Z 119)
  = lit "31eba51c313a5c08226adf18d4a359cfdfd8d2e816b13f4af952f7ea6584dcfb".
Proof. vm_compute; reflexivity. Qed.

Example sha256_padding_edge :
  sha256_hexdigest (repeat 97%Z 56)
  = lit "b35439a4ac6f0948b6d6f9e3c6af0f5f590ce20f1bde7090ef7970686ec6738a".
Proof. vm_compute; reflexivity. Qed.

Example utf8_of_mixed :
  encode [128512; 233; 8364]%N
  = Some [240; 159; 152; 128; 195; 169; 226; 130; 172]%Z.
Proof. reflexivity. Qed.

Example utf8_refuses_surrogate : encode [55296]%N = None.
Proof. reflexivity. Qed.

Example split_two :
  split_sentences (lit "The sky is blue. Grass is green.")
  = [lit "The sky is blue."; lit "Grass is green."].
Proof. reflexivity. Qed.

Example split_irregular :
  split_sentences (lit "  one  two.   Three? four!  ")
  = [lit "one two."; lit "Three? four!"].
Proof. reflexivity. Qed.

Example re_split_trailing : re_split (lit "Hello.") = [lit "Hello."; []].
Proof. reflexivity. Qed.

Example clean_fenced :
  clean_response
    (lit "  " ++ fence ++ lit "json" ++ [ch_newline] ++ empty_scores_text
       ++ [ch_newline] ++ fence ++ [ch_newline])
  = empty_scores_text.
Proof. reflexivity. Qed.

(** ** Reading back what was saved *)

Lemma pystr_eqb_eq a b : pystr_eqb a b = true <-> a = b.
Proof.
  unfold pystr_eqb; destruct (list_eq_dec N.eq_dec a b); split;
    congruence.
Qed.


Lemma write_file_In {V} (d : directory V) name content :
  In (name, content) (write_file d name content).
Proof.
  induction d as [|[n c] d IH]; simpl; [left; reflexivity|].
  destruct (pystr_eqb n name) eqn:E.
  - apply pystr_eqb_eq in E; subst n; left; reflexivity.
  - right; exact IH.
Qed.


(** The world [save_query] leaves behind. *)
Lemma save_query_world req response w encoded :
  encode (req_text req ++ lit "|" ++ req_question req) = Some encoded ->
  let name := firstn 12 (sha256_hexdigest encoded) ++ lit ".json" in
  snd (save_query req response w)
  = mkWorld (environ w) (request_api_key w) (llm w) (llm_log w)
      (Some (write_file (files_of (saved w)) name
               (req_text req, req_question req)))
      (Some (write_file (files_of (saved_results w)) name response)).
Proof.
  intros E; unfold save_query, bind, mkdir_saved, mkdir_saved_results.
  rewrite E; reflexivity.
Qed.

Lemma save_query_refused req response w :
  encode (req_text req ++ lit "|" ++ req_question req) = None ->
  save_query req response w
  = (Raise UnicodeEncodeError,
     mkWorld (environ w) (request_api_key w) (llm w) (llm_log w)
       (Some (files_of (saved w))) (Some (files_of (saved_results w)))).
Proof.
  intros E; unfold save_query, bind, mkdir_saved, mkdir_saved_results.
  rewrite E; reflexivity.
Qed.

Lemma get_saved_found h w query_data :
  load_file (saved w) (h ++ lit ".json") = Some query_data ->
  get_saved h w
  = (Ok (JObj [(lit "query", query_document query_data);
               (lit "result",
                match load_file (saved_results w) (h ++ lit ".json") with
                | Some response => model_dump response
                | None => JNull
                end)]), w).
Proof. intros H; unfold get_saved; rewrite H; reflexivity. Qed.

Lemma get_saved_after_save req response w encoded :
  encode (req_text req ++ lit "|" ++ req_question req) = Some encoded ->
  let h := firstn 12 (sha256_hexdigest encoded) in
  let w' := snd (save_query req response w) in
  get_saved h w'
  = (Ok (JObj [(lit "query",
                query_document (req_text req, req_question req));
               (lit "result", model_dump response)]), w').
Proof.
  intros E h w'; subst w'.
  rewrite (save_query_world req response w E); fold h.
  erewrite get_saved_found
    by (cbn [saved load_file]; apply read_write_file).
  cbn [saved_results load_file]; rewrite read_write_file; reflexivity.
Qed.

(** X1.  What [save_query] has stored, [get_saved] returns: asked for
    the identifier that [save_query] gave, it answers with the text and
    the question of the request and with the dump of the response, also
    when files of that name were there before. *)
Theorem X1_get_saved_returns_what_was_saved :
  forall req response w encoded,
    encode (req_text req ++ lit "|" ++ req_question req) = Some encoded ->
    let h := firstn 12 (sha256_hexdigest encoded) in
    let w' := snd (save_query req response w) in
    fst (save_query req response w) = Ok h /\
    get_saved h w'
    = (Ok (JObj [(lit "query",
                  JObj [(lit "text", JStr (req_text req));
                        (lit "question", JStr (req_question req))]);
                 (lit "result", model_dump response)]), w').
Proof.
  intros req response w encoded E h w'; split.
  - apply save_query_returns, E.
  - apply (get_saved_after_save req response w E).
Qed.



(** X3.  The identifier is computed from [text + "|" + question], so
    moving a part between the text and the question across a bar does
    not change it: the requests [(a|b, c)] and [(a, b|c)] get the same
    identifier, and saving the second replaces the stored query and
    result of the first. *)
Theorem X3_bar_in_text_or_question_collides :
  forall a b c key1 key2 response1 response2 w encoded,
    let req1 := mkRequest (a ++ lit "|" ++ b) c key1 in
    let req2 := mkRequest a (b ++ lit "|" ++ c) key2 in
    encode (a ++ lit "|" ++ b ++ lit "|" ++ c) = Some encoded ->
    let h := firstn 12 (sha256_hexdigest encoded) in
    let w1 := snd (save_query req1 response1 w) in
    let w2 := snd (save_query req2 response2 w1) in
    fst (save_query req1 response1 w) = Ok h /\
    fst (save_query req2 response2 w1) = Ok h /\
    get_saved h w2
    = (Ok (JObj [(lit "query", query_document (a, b ++ lit "|" ++ c));
                 (lit "result", model_dump response2)]), w2).
Proof.
  intros a b c key1 key2 response1 response2 w encoded req1 req2 E h w1 w2.
  assert (E1 : encode (req_text req1 ++ lit "|" ++ req_question req1)
               = Some encoded).
  { cbn [req1 req_text req_question]; rewrite <- !app_assoc; exact E. }
  assert (E2 : encode (req_text req2 ++ lit "|" ++ req_question req2)
               = Some encoded).
  { cbn [req2 req_text req_question]; exact E. }
  split; [apply save_query_returns, E1|].
  split; [apply save_query_returns, E2|].
  apply (get_saved_after_save req2 response2 w1 E2).
Qed.

(** ** The listing of the saved queries *)

Lemma insert_by_perm {A} (key : A -> Z) x l :
  Permutation (insert_by key x l) (x :: l).
Proof.
  induction l as [|y l IH]; simpl; [reflexivity|].
  destruct (key y <=? key x)%Z; [reflexivity|].
  rewrite IH; apply perm_swap.
Qed.

Lemma sorted_reverse_perm {A} (key : A -> Z) l :
  Permutation (sorted_reverse key l) l.
Proof.
  induction l as [|x l IH]; simpl; [reflexivity|].
  rewrite insert_by_perm, IH; reflexivity.
Qed.

Lemma insert_by_sorted {A} (key : A -> Z) x l :
  StronglySorted (fun a b => (key b <= key a)%Z) l ->
  StronglySorted (fun a b => (key b <= key a)%Z) (insert_by key x l).
Proof.
  induction 1 as [|y l Hs IH Hy]; simpl.
  - constructor; constructor.
  - destruct (key y <=? key x)%Z eqn:E.
    + apply Z.leb_le in E.
      constructor; [constructor; assumption|].
      constructor; [exact E|].
      eapply Forall_impl; [|exact Hy]; simpl; intros; lia.
    + apply Z.leb_gt in E.
      constructor; [exact IH|].
      eapply Permutation_Forall; [symmetry; apply insert_by_perm|].
      constructor; [lia | exact Hy].
Qed.

Lemma sorted_reverse_sorted {A} (key : A -> Z) l :
  StronglySorted (fun a b => (key b <= key a)%Z) (sorted_reverse key l).
Proof.
  induction l as [|x l IH]; simpl; [constructor|].
  apply insert_by_sorted, IH.
Qed.

(** The sort is stable: files with one key keep their order. *)
Lemma insert_by_stable {A} (key : A -> Z) t x l :
  filter (fun a => (key a =? t)%Z) (insert_by key x l)
  = filter (fun a => (key a =? t)%Z) (x :: l).
Proof.
  induction l as [|y l IH]; [reflexivity|].
  cbn [insert_by]; destruct (key y <=? key x)%Z eqn:E; [reflexivity|].
  apply Z.leb_gt in E.
  cbn [filter] in IH |- *; rewrite IH.
  destruct (key x =? t)%Z eqn:Ex; [|reflexivity].
  destruct (key y =? t)%Z eqn:Ey; [|reflexivity].
  apply Z.eqb_eq in Ex, Ey; lia.
Qed.

Lemma sorted_reverse_stable {A} (key : A -> Z) t l :
  filter (fun a => (key a =? t)%Z) (sorted_reverse key l)
  = filter (fun a => (key a =? t)%Z) l.
Proof.
  induction l as [|x l IH]; [reflexivity|].
  cbn [sorted_reverse]; rewrite insert_by_stable.
  cbn [filter]; rewrite IH; reflexivity.
Qed.

Lemma saved_entry_preview f : saved_entry f = Ok (preview_entry f).
Proof. destruct f as [name [text question]]; reflexivity. Qed.

Lemma rmap_all_ok {A B} (f : A -> result B) (g : A -> B) l :
  (forall a, f a = Ok (g a)) -> rmap f l = Ok (map g l).
Proof.
  intros H; induction l as [|a l IH]; simpl; [reflexivity|].
  rewrite H, IH; reflexivity.
Qed.

Lemma list_saved_files st_mtime w :
  list_saved st_mtime w
  = (Ok (JObj [(lit "queries",
                JArr (map preview_entry
                        (sorted_reverse (fun f => st_mtime (fst f))
                           (glob_json (files_of (saved w))))))]), w).
Proof.
  unfold list_saved; destruct (saved w) as [d|]; [|reflexivity].
  rewrite (rmap_all_ok _ preview_entry _ saved_entry_preview); reflexivity.
Qed.

(** X4.  [list_saved] never fails and never changes anything.  Its
    answer has one entry per file of [saved] whose name ends in
    [.json], and none when the directory is missing; the entries are
    ordered newest first, files with the same modification time in the
    order of the directory; an entry carries the stem of the file name
    and at most the first 100 characters of the question and of the
    text. *)
Theorem X4_list_saved_newest_first :
  forall st_mtime w,
    exists files,
      list_saved st_mtime w
      = (Ok (JObj [(lit "queries", JArr (map preview_entry files))]), w) /\
      Permutation files (glob_json (files_of (saved w))) /\
      newest_first st_mtime files /\
      (forall t,
         modified_at st_mtime t files
         = modified_at st_mtime t (glob_json (files_of (saved w)))) /\
      (saved w = None -> files = []).
Proof.
  intros st_mtime w.
  exists (sorted_reverse (fun f => st_mtime (fst f))
            (glob_json (files_of (saved w)))).
  split; [apply list_saved_files|].
  split; [apply sorted_reverse_perm|].
  split; [apply (sorted_reverse_sorted (fun f => st_mtime (fst f)))|].
  split.
  - intros t;
      apply (sorted_reverse_stable (fun f => st_mtime (fst f))).
  - intros ->; reflexivity.
Qed.

Lemma stem_json h : h <> [] -> stem (h ++ lit ".json") = h.
Proof.
  intros Hn.
  assert (Hr : nonempty (rev h) = true).
  { destruct h as [|c h]; [contradiction|].
    simpl; destruct (rev h); reflexivity. }
  unfold stem; rewrite rev_app_distr.
  change (rev (lit ".json")) with (lit "nosj.").
  simpl; rewrite Hr, rev_involutive; reflexivity.
Qed.

Lemma endswith_json h : endswith (lit ".json") (h ++ lit ".json") = true.
Proof. unfold endswith; rewrite rev_app_distr; reflexivity. Qed.

Lemma firstn_nonempty {A} n (l : list A) :
  length (firstn (S n) l) = S n -> firstn (S n) l <> [].
Proof. destruct l; simpl; [discriminate | discriminate]. Qed.

(** X5.  After [save_query] the listing has an entry for the query:
    its identifier, and the first 100 characters of its question and
    of its text. *)
Theorem X5_saved_query_is_listed :
  forall st_mtime req response w encoded,
    encode (req_text req ++ lit "|" ++ req_question req) = Some encoded ->
    let h := firstn 12 (sha256_hexdigest encoded) in
    let w' := snd (save_query req response w) in
    exists queries,
      list_saved st_mtime w'
      = (Ok (JObj [(lit "queries", JArr queries)]), w') /\
      In (JObj [(lit "hash", JStr h);
                (lit "question", JStr (firstn 100 (req_question req)));
                (lit "text_preview", JStr (firstn 100 (req_text req)))])
         queries.
Proof.
  intros st_mtime req response w encoded E h w'.
  eexists; split; [apply list_saved_files|].
  assert (Hh : h <> []).
  { apply firstn_nonempty; unfold sha256_hexdigest.
    rewrite length_firstn, hex_of_bytes_length, digest_length.
    reflexivity. }
  change (JObj [(lit "hash", JStr h);
                (lit "question", JStr (firstn 100 (req_question req)));
                (lit "text_preview", JStr (firstn 100 (req_text req)))])
    with (JObj [(lit "hash", JStr h);
                (lit "question",
                 JStr (firstn 100
                         (snd (snd (h ++ lit ".json",
                                    (req_text req, req_question req))))));
                (lit "text_preview",
                 JStr (firstn 100
                         (fst (snd (h ++ lit ".json",
                                    (req_text req, req_question req))))))]).
  rewrite <- (stem_json Hh) at 1.
  apply (in_map preview_entry _
           (h ++ lit ".json", (req_text req, req_question req))).
  eapply Permutation_in; [symmetry; apply sorted_reverse_perm|].
  unfold glob_json; apply filter_In; split.
  - subst w'; rewrite (save_query_world req response w E).
    cbn [saved files_of]; apply write_file_In.
  - apply endswith_json.
Qed.

(** ** The LLM call of a request *)

Section Calls.

Context {P : Platform}.

Lemma init_llm_client_pair a p l w :
  init_llm_client a p l w = (fst (init_llm_client a p l w), w).
Proof.
  rewrite <- (init_llm_client_world a p l w) at 3.
  destruct (init_llm_client a p l w); reflexivity.
Qed.

Lemma call_llm_empty prompt model t w client text :
  init_llm_client None None None w = (Ok client, w) ->
  llm w (mkCall client model prompt t) = ReplyText text ->
  truthy text = false ->
  call_llm prompt model t w
  = (Raise (LLMCallError empty_response_message),
     log_call w (mkCall client model prompt t)).
Proof.
  intros Hc Hr Ht; unfold call_llm, bind, generate_content.
  rewrite Hc, Hr; destruct text as [[|? ?]|]; try discriminate;
    reflexivity.
Qed.

Lemma call_llm_service_raises prompt model t w client e :
  init_llm_client None None None w = (Ok client, w) ->
  llm w (mkCall client model prompt t) = ReplyRaises e ->
  call_llm prompt model t w
  = (Raise e, log_call w (mkCall client model prompt t)).
Proof.
  intros Hc Hr; unfold call_llm, bind, generate_content.
  rewrite Hc, Hr; reflexivity.
Qed.

Lemma highlight_text_call_raised text question model w s rest e w1 :
  split_sentences text = s :: rest ->
  call_llm (scoring_prompt (s :: rest) question) model zero_float w
  = (Raise e, w1) ->
  highlight_text text question model w = (Raise e, w1).
Proof.
  intros Hs Hc; unfold highlight_text, score_sentences, bind.
  rewrite Hs; unfold bind; rewrite Hc; reflexivity.
Qed.

(** The world after [call_llm]: the call is logged when a client could
    be made, and nothing else changes. *)
Lemma call_llm_world prompt model t w :
  snd (call_llm prompt model t w)
  = match fst (init_llm_client None None None w) with
    | Ok client => log_call w (mkCall client model prompt t)
    | Raise _ => w
    end.
Proof.
  unfold call_llm, bind, generate_content.
  rewrite (init_llm_client_pair None None None w).
  destruct (fst (init_llm_client None None None w)) as [client|e];
    [|reflexivity].
  cbn [fst].
  destruct (llm w (mkCall client model prompt t)) as [[[|? ?]|]|e];
    reflexivity.
Qed.

Lemma score_sentences_world sentences question model w :
  snd (score_sentences sentences question model w)
  = snd (call_llm (scoring_prompt sentences question) model zero_float w).
Proof.
  unfold score_sentences, bind.
  destruct (call_llm _ model zero_float w) as [[response|e] w1];
    [|reflexivity].
  destruct (json_loads (clean_response response)); reflexivity.
Qed.

Lemma highlight_text_world text question model w :
  snd (highlight_text text question model w)
  = match split_sentences text with
    | [] => w
    | _ :: _ =>
        snd (call_llm (scoring_prompt (split_sentences text) question)
                      model zero_float w)
    end.
Proof.
  unfold highlight_text.
  destruct (split_sentences text) as [|s rest]; [reflexivity|].
  rewrite <- score_sentences_world; unfold bind.
  destruct (score_sentences (s :: rest) question model w) as [[?|?] ?];
    reflexivity.
Qed.

Lemma save_query_log req response w :
  llm_log (snd (save_query req response w)) = llm_log w.
Proof.
  destruct (encode (req_text req ++ lit "|" ++ req_question req))
    as [encoded|] eqn:E.
  - rewrite (save_query_world req response w E); reflexivity.
  - rewrite (save_query_refused req response w E); reflexivity.
Qed.

Lemma highlight_world_log req hdr w :
  llm_log (snd (highlight req hdr w))
  = llm_log (snd (highlight_text (req_text req) (req_question req)
                    default_model (snd (adopt_api_key req hdr w)))).
Proof.
  destruct (highlight_text (req_text req) (req_question req) default_model
              (snd (adopt_api_key req hdr w))) as [[response|e] w1] eqn:H.
  - rewrite (highlight_returned _ _ _ H).
    pose proof (save_query_log req response w1) as Hl.
    destruct (save_query req response w1) as [[h|e] w2]; exact Hl.
  - rewrite (highlight_raised _ _ _ H); reflexivity.
Qed.

(** X6.  When the service answers with no text or with the empty text,
    [call_llm] raises [LLMCallError] after the call was made, and the
    handler answers 500 with the detail "Empty response from LLM";
    nothing is stored. *)
Theorem X6_empty_llm_response_is_500_with_detail :
  forall req hdr w client s rest text,
    let w1 := snd (adopt_api_key req hdr w) in
    let call := mkCall client default_model
                  (scoring_prompt (s :: rest) (req_question req))
                  zero_float in
    split_sentences (req_text req) = s :: rest ->
    init_llm_client None None None w1 = (Ok client, w1) ->
    llm w call = ReplyText text ->
    truthy text = false ->
    highlight req hdr w
    = (Raise (HTTPException 500 empty_response_message),
       log_call w1 call) /\
    http_response (fst (highlight req hdr w))
    = (500%Z, BodyDetail empty_response_message) /\
    saved (snd (highlight req hdr w)) = saved w /\
    saved_results (snd (highlight req hdr w)) = saved_results w.
Proof.
  intros req hdr w client s rest text w1 call Hs Hc Hr Ht.
  destruct (adopt_api_key_frame req hdr w) as [_ [Hl [_ [Hsv Hsr]]]].
  fold w1 in Hl, Hsv, Hsr.
  assert (Hr1 : llm w1 call = ReplyText text) by (rewrite Hl; exact Hr).
  assert (H : highlight req hdr w
              = (Raise (HTTPException 500 empty_response_message),
                 log_call w1 call)).
  { assert (Hh : highlight_text (req_text req) (req_question req)
                   default_model w1
                 = (Raise (LLMCallError empty_response_message),
                    log_call w1 call)).
    { eapply highlight_text_call_raised; [exact Hs|].
      eapply call_llm_empty; eassumption. }
    rewrite (highlight_raised _ _ _ Hh); reflexivity. }
  rewrite H; cbn [fst snd].
  split; [reflexivity|]; split; [reflexivity|].
  split; [exact Hsv | exact Hsr].
Qed.

(** X7.  [call_llm] does not wrap what the client library raises: an
    exception of the service leaves [call_llm] and the handler as it
    is, the handler's two [except] clauses do not apply, and the client
    receives the framework's bare 500 without a detail; nothing is
    stored. *)
Theorem X7_service_exception_is_not_wrapped :
  forall req hdr w client s rest msg,
    let w1 := snd (adopt_api_key req hdr w) in
    let call := mkCall client default_model
                  (scoring_prompt (s :: rest) (req_question req))
                  zero_float in
    split_sentences (req_text req) = s :: rest ->
    init_llm_client None None None w1 = (Ok client, w1) ->
    llm w call = ReplyRaises (ServiceError msg) ->
    call_llm (call_contents call) default_model zero_float w1
    = (Raise (ServiceError msg), log_call w1 call) /\
    highlight req hdr w = (Raise (ServiceError msg), log_call w1 call) /\
    http_response (fst (highlight req hdr w)) = internal_server_error /\
    saved (snd (highlight req hdr w)) = saved w /\
    saved_results (snd (highlight req hdr w)) = saved_results w.
Proof.
  intros req hdr w client s rest msg w1 call Hs Hc Hr.
  destruct (adopt_api_key_frame req hdr w) as [_ [Hl [_ [Hsv Hsr]]]].
  fold w1 in Hl, Hsv, Hsr.
  assert (Hr1 : llm w1 call = ReplyRaises (ServiceError msg))
    by (rewrite Hl; exact Hr).
  assert (Hcall : call_llm (call_contents call) default_model zero_float w1
                  = (Raise (ServiceError msg), log_call w1 call)).
  { eapply call_llm_service_raises; eassumption. }
  assert (H : highlight req hdr w
              = (Raise (ServiceError msg), log_call w1 call)).
  { assert (Hh : highlight_text (req_text req) (req_question req)
                   default_model w1
                 = (Raise (ServiceError msg), log_call w1 call)).
    { eapply highlight_text_call_raised; [exact Hs | exact Hcall]. }
    rewrite (highlight_raised _ _ _ Hh); reflexivity. }
  split; [exact Hcall|].
  rewrite H; cbn [fst snd].
  split; [reflexivity|]; split; [reflexivity|].
  split; [exact Hsv | exact Hsr].
Qed.

(** X8.  A request makes at most one call to the LLM, and exactly one
    when the text has a sentence and a client can be made from the
    credentials: that call asks the model gemini-2.5-flash at
    temperature 0.0 with the scoring prompt of the sentences and the
    question.  In every other case, failures included, the service is
    not called. *)
Theorem X8_at_most_one_llm_call_per_request :
  forall req hdr w,
    let w1 := snd (adopt_api_key req hdr w) in
    llm_log (snd (highlight req hdr w))
    = match split_sentences (req_text req),
            fst (init_llm_client None None None w1) with
      | _ :: _, Ok client =>
          llm_log w
          ++ [mkCall client default_model
                (scoring_prompt (split_sentences (req_text req))
                                (req_question req))
                zero_float]
      | _, _ => llm_log w
      end.
Proof.
  intros req hdr w w1.
  destruct (adopt_api_key_frame req hdr w) as [_ [_ [Hlog _]]].
  fold w1 in Hlog.
  rewrite highlight_world_log, highlight_text_world; fold w1.
  destruct (split_sentences (req_text req)) as [|s rest];
    [exact Hlog|].
  rewrite call_llm_world.
  destruct (fst (init_llm_client None None None w1)) as [client|e];
    [|exact Hlog].
  cbn [log_call llm_log]; rewrite Hlog; reflexivity.
Qed.

End Calls.

(** ** Whitespace around and inside a text *)

Lemma forallb_rev {A} (p : A -> bool) l :
  forallb p l = true -> forallb p (rev l) = true.
Proof.
  intros H; apply forallb_forall; intros x Hx; apply in_rev in Hx.
  revert x Hx; apply forallb_forall, H.
Qed.

Lemma drop_while_app_all p (pre s : pystr) :
  forallb p pre = true -> drop_while p (pre ++ s) = drop_while p s.
Proof.
  induction pre as [|c pre IH]; simpl; [reflexivity|].
  intros H; apply andb_prop in H; destruct H as [-> H]; apply IH, H.
Qed.

Lemma rstrip_app_blank s post :
  forallb is_space post = true -> rstrip (s ++ post) = rstrip s.
Proof.
  intros H; unfold rstrip; rewrite rev_app_distr.
  rewrite (@drop_while_app_all is_space (rev post) (rev s) (@forallb_rev _ is_space post H)); reflexivity.
Qed.

Lemma strip_app_blank pre s post :
  forallb is_space pre = true -> forallb is_space post = true ->
  strip (pre ++ s ++ post) = strip s.
Proof.
  intros Hpre Hpost; unfold strip, lstrip.
  rewrite (@drop_while_app_all is_space pre (s ++ post) Hpre).
  induction s as [|c s IH]; simpl.
  - rewrite (@drop_while_all is_space post Hpost); reflexivity.
  - destruct (is_space c); [exact IH|].
    apply (@rstrip_app_blank (c :: s) post Hpost).
Qed.

Lemma is_space_blank_to_space c :
  is_space (blank_to_space c) = is_space c.
Proof.
  unfold blank_to_space; destruct (is_space c) eqn:E; [reflexivity|exact E].
Qed.

Lemma drop_while_blank_to_space s :
  drop_while is_space (map blank_to_space s)
  = map blank_to_space (drop_while is_space s).
Proof.
  induction s as [|c s IH]; simpl; [reflexivity|].
  rewrite is_space_blank_to_space; destruct (is_space c);
    [exact IH | reflexivity].
Qed.

Lemma strip_blank_to_space s :
  strip (map blank_to_space s) = map blank_to_space (strip s).
Proof.
  unfold strip, rstrip, lstrip.
  rewrite drop_while_blank_to_space, <- map_rev.
  rewrite drop_while_blank_to_space, map_rev; reflexivity.
Qed.

Lemma sub_ws_blank_to_space in_run s :
  sub_ws in_run (map blank_to_space s) = sub_ws in_run s.
Proof.
  revert in_run; induction s as [|c s IH]; intros in_run; simpl;
    [reflexivity|].
  rewrite is_space_blank_to_space.
  destruct (is_space c) eqn:E.
  - destruct in_run; rewrite IH; reflexivity.
  - unfold blank_to_space; rewrite E, IH; reflexivity.
Qed.

Lemma normalize_idempotent text : normalize (normalize text) = normalize text.
Proof. apply normalized_normalize, normalize_normalized. Qed.

Lemma join_split_sentences text :
  join [ch_space] (split_sentences text) = normalize text.
Proof.
  pose proof (normalize_normalized text) as Hn.
  destruct (normalized_parts _ Hn) as [_ Hsp].
  apply (@scan_spaced (normalize text) None [] Hsp
           (normalize_piece_ok text)).
Qed.

Lemma split_sentences_normalize text :
  split_sentences (normalize text) = split_sentences text.
Proof. unfold split_sentences; rewrite normalize_idempotent; reflexivity. Qed.

(** X15.  The splitter sees the text through its normalisation only:
    whitespace around the text does not matter, nor does which
    whitespace character (space, tab, newline, ...) stands inside it.
    Splitting is idempotent: the sentences joined by single spaces are
    the normalised text, and splitting that gives the same sentences. *)
Theorem X15_split_sentences_ignores_whitespace_shape :
  forall text pre post,
    forallb is_space pre = true ->
    forallb is_space post = true ->
    split_sentences (pre ++ text ++ post) = split_sentences text /\
    split_sentences (map blank_to_space text) = split_sentences text /\
    split_sentences (normalize text) = split_sentences text /\
    split_sentences (join [ch_space] (split_sentences text))
    = split_sentences text.
Proof.
  intros text pre post Hpre Hpost.
  split; [|split; [|split]].
  - unfold split_sentences, normalize.
    rewrite (@strip_app_blank pre text post Hpre Hpost); reflexivity.
  - unfold split_sentences, normalize.
    rewrite strip_blank_to_space, sub_ws_blank_to_space; reflexivity.
  - apply split_sentences_normalize.
  - rewrite join_split_sentences; apply split_sentences_normalize.
Qed.

(** ** The code fence around a response *)

Lemma sub_fence_open_tagged b :
  sub_fence_open (fence ++ lit "json" ++ [ch_newline] ++ b) = b.
Proof. reflexivity. Qed.

Lemma sub_fence_open_plain b :
  sub_fence_open (fence ++ [ch_newline] ++ b) = b.
Proof. reflexivity. Qed.

Lemma sub_fence_close_fenced b :
  sub_fence_close (b ++ [ch_newline] ++ fence) = b.
Proof.
  unfold sub_fence_close; rewrite rev_app_distr; simpl.
  apply rev_involutive.
Qed.

Lemma ends_space_app_fence s : ends_space (s ++ fence) = false.
Proof.
  rewrite ends_space_rev, rev_app_distr; reflexivity.
Qed.

(** X9.  A response wrapped in a code fence, with or without the
    [json] tag and with any whitespace around the fence, is handed to
    the decoder as the text between the fence lines, whatever that
    text is. *)
Theorem X9_clean_response_unwraps_fence :
  forall pre post tag body,
    forallb is_space pre = true ->
    forallb is_space post = true ->
    tag = [] \/ tag = lit "json" ->
    clean_response
      (pre ++ (fence ++ tag ++ [ch_newline] ++ body ++ [ch_newline] ++ fence)
           ++ post)
    = body.
Proof.
  intros pre post tag body Hpre Hpost Htag.
  unfold clean_response.
  rewrite (@strip_app_blank pre _ post Hpre Hpost).
  assert (Hs : strip (fence ++ tag ++ [ch_newline] ++ body
                        ++ [ch_newline] ++ fence)
               = fence ++ tag ++ [ch_newline] ++ body
                   ++ [ch_newline] ++ fence).
  { apply strip_fixed; [reflexivity|].
    replace (fence ++ tag ++ [ch_newline] ++ body ++ [ch_newline] ++ fence)
      with ((fence ++ tag ++ [ch_newline] ++ body ++ [ch_newline]) ++ fence)
      by (rewrite <- !app_assoc; reflexivity).
    apply ends_space_app_fence. }
  rewrite Hs.
  change (startswith fence
            (fence ++ tag ++ [ch_newline] ++ body ++ [ch_newline] ++ fence))
    with true.
  cbv iota.
  destruct Htag as [-> | ->].
  - change (sub_fence_close
              (sub_fence_open
                 (fence ++ [ch_newline] ++ (body ++ [ch_newline] ++ fence)))
            = body).
    rewrite sub_fence_open_plain; apply sub_fence_close_fenced.
  - change (sub_fence_close
              (sub_fence_open
                 (fence ++ lit "json" ++ [ch_newline]
                    ++ (body ++ [ch_newline] ++ fence)))
            = body).
    rewrite sub_fence_open_tagged; apply sub_fence_close_fenced.
Qed.

(** ** Text that cannot be encoded *)

Lemma encode_none_iff s :
  encode s = None <-> existsb is_surrogate s = true.
Proof.
  induction s as [|c s IH]; simpl.
  - split; discriminate.
  - destruct (is_surrogate c); simpl; [split; reflexivity|].
    destruct (encode s).
    + split; [discriminate|].
      intros H; apply IH in H; discriminate.
    + split; [intros _; apply IH; reflexivity | reflexivity].
Qed.

(** ** Which index selects which sentence *)

Lemma key_of_int_num z : exists m e, key_of_int z = KNum m e.
Proof.
  unfold key_of_int, dyadic; destruct z as [|p|p];
    [eexists; eexists; reflexivity| |];
    destruct (odd_part p 0); eexists; eexists; reflexivity.
Qed.

Lemma odd_part_iter k p e :
  odd_part (Nat.iter k xO p) e = odd_part p (e + Z.of_nat k).
Proof.
  revert e; induction k as [|k IH]; intros e.
  - simpl; f_equal; lia.
  - change (Nat.iter (S k) xO p) with (xO (Nat.iter k xO p)).
    cbn [odd_part]; rewrite IH; f_equal; lia.
Qed.

Lemma iter_xO_value k p :
  Zpos (Nat.iter k xO p) = (Zpos p * 2 ^ Z.of_nat k)%Z.
Proof.
  induction k as [|k IH].
  - simpl; lia.
  - change (Nat.iter (S k) xO p) with (xO (Nat.iter k xO p)).
    rewrite Pos2Z.inj_xO, IH, Nat2Z.inj_succ, Z.pow_succ_r by lia.
    ring.
Qed.

Lemma odd_part_spec p :
  forall e q e',
    odd_part p e = (q, e') ->
    (e <= e')%Z /\ Zpos p = (Zpos q * 2 ^ (e' - e))%Z.
Proof.
  induction p as [p IH|p IH|]; intros e q e' H; simpl in H.
  - inversion H; subst; split; [lia|].
    rewrite Z.sub_diag; simpl; lia.
  - apply IH in H; destruct H as [Hle Hv]; split; [lia|].
    replace (e' - e)%Z with (Z.succ (e' - (e + 1))) by lia.
    rewrite Z.pow_succ_r by lia.
    rewrite Pos2Z.inj_xO, Hv; ring.
  - inversion H; subst; split; [lia|].
    rewrite Z.sub_diag; reflexivity.
Qed.

Lemma pos_shift_eq p q k :
  (0 <= k)%Z -> Zpos p = (Zpos q * 2 ^ k)%Z ->
  p = Nat.iter (Z.to_nat k) xO q.
Proof.
  intros Hk H; apply Pos2Z.inj.
  rewrite iter_xO_value, Z2Nat.id by exact Hk; exact H.
Qed.

(** A mantissa and an exponent denote the positive integer [n] exactly
    when they are filed under the key of [n]. *)
Lemma dyadic_eq_int sm e n :
  (0 < n)%Z ->
  dyadic sm e = key_of_int n <->
  if (e <? 0)%Z then sm = (n * 2 ^ (- e))%Z else (sm * 2 ^ e)%Z = n.
Proof.
  intros Hn; destruct n as [|p2|p2]; try lia.
  unfold key_of_int.
  assert (Hpow : forall k, (0 <= k)%Z -> (0 < 2 ^ k)%Z)
    by (intros k Hk; apply Z.pow_pos_nonneg; lia).
  destruct sm as [|p|p].
  - simpl dyadic; destruct (odd_part p2 0) as [q2 e2]; split.
    + discriminate.
    + intros H; exfalso; destruct (e <? 0)%Z eqn:E.
      * apply Z.ltb_lt in E; pose proof (Hpow (- e)%Z ltac:(lia)); nia.
      * lia.
  - split.
    + simpl dyadic.
      destruct (odd_part p e) as [q e1] eqn:E1.
      destruct (odd_part p2 0) as [q2 e2] eqn:E2.
      intros H; inversion H; subst q2 e2.
      apply odd_part_spec in E1, E2.
      destruct E1 as [Hle1 Hv1], E2 as [Hle2 Hv2].
      rewrite Z.sub_0_r in Hv2.
      destruct (e <? 0)%Z eqn:E.
      * apply Z.ltb_lt in E; rewrite Hv1, Hv2.
        rewrite <- Z.mul_assoc, <- Z.pow_add_r by lia.
        do 2 f_equal; lia.
      * apply Z.ltb_ge in E; rewrite Hv1, Hv2.
        rewrite <- Z.mul_assoc, <- Z.pow_add_r by lia.
        do 2 f_equal; lia.
    + destruct (e <? 0)%Z eqn:E; intros H.
      * apply Z.ltb_lt in E.
        apply pos_shift_eq in H; [|lia].
        rewrite H; simpl dyadic; rewrite odd_part_iter.
        rewrite Z2Nat.id by lia.
        replace (e + - e)%Z with 0%Z by lia; reflexivity.
      * apply Z.ltb_ge in E; symmetry in H.
        rewrite Z.mul_comm in H.
        assert (H' : Zpos p2 = (Zpos p * 2 ^ e)%Z) by lia.
        apply pos_shift_eq in H'; [|lia].
        rewrite H'; simpl dyadic; rewrite odd_part_iter.
        rewrite Z2Nat.id by lia; reflexivity.
  - simpl dyadic.
    destruct (odd_part p e) as [q e1].
    destruct (odd_part p2 0) as [q2 e2]; split.
    + discriminate.
    + intros H; exfalso; destruct (e <? 0)%Z eqn:E.
      * apply Z.ltb_lt in E; pose proof (Hpow (- e)%Z ltac:(lia)); nia.
      * apply Z.ltb_ge in E; pose proof (Hpow e E); nia.
Qed.

Lemma key_of_int_inj z n :
  (0 < n)%Z -> key_of_int z = key_of_int n <-> z = n.
Proof.
  intros Hn; unfold key_of_int at 1.
  rewrite (dyadic_eq_int z 0 Hn); simpl; lia.
Qed.

Lemma hash_key_number v n :
  (0 < n)%Z -> hash_key v = Ok (key_of_int n) <-> number_equals v n.
Proof.
  intros Hn.
  destruct (key_of_int_num n) as [m [e Hk]].
  assert (Hinj : forall a, Ok a = Ok (key_of_int n) <-> a = key_of_int n)
    by (intros a; split; [intros H; inversion H; reflexivity | congruence]).
  destruct v as [|b|z|f|s|items|fields]; simpl.
  - rewrite Hk; split; [discriminate | contradiction].
  - rewrite Hinj; apply key_of_int_inj, Hn.
  - rewrite Hinj; apply key_of_int_inj, Hn.
  - destruct f as [s|s| |s m0 e0]; simpl.
    + rewrite Hinj; change (KNum 0 0) with (key_of_int 0).
      rewrite (key_of_int_inj 0 Hn); lia.
    + rewrite Hk; split; [discriminate | contradiction].
    + rewrite Hk; split; [discriminate | contradiction].
    + rewrite Hinj; apply dyadic_eq_int, Hn.
  - rewrite Hk; split; [discriminate | contradiction].
  - split; [discriminate | contradiction].
  - split; [discriminate | contradiction].
Qed.

Lemma item_key_index fields v :
  lookup fields (lit "index") = Some v ->
  forall k, item_key (JObj fields) = Some k <-> hash_key v = Ok k.
Proof.
  intros H k; unfold item_key; rewrite H.
  destruct (hash_key v) as [k'|e]; split; congruence.
Qed.

Lemma rmap_first_raise {A B} (f : A -> result B) l1 x l2 e :
  (forall a, In a l1 -> exists b, f a = Ok b) ->
  f x = Raise e ->
  rmap f (l1 ++ x :: l2) = Raise e.
Proof.
  intros H Hx; induction l1 as [|a l1 IH]; simpl.
  - rewrite Hx; reflexivity.
  - destruct (H a (or_introl eq_refl)) as [b ->]; simpl.
    rewrite IH; [reflexivity|].
    intros y Hy; apply H; right; exact Hy.
Qed.

Lemma enumerate_split {A} (l : list A) i a :
  nth_error l i = Some a ->
  exists l1 l2,
    enumerate l = l1 ++ (i, a) :: l2 /\
    forall j b, In (j, b) l1 -> j < i /\ nth_error l j = Some b.
Proof.
  intros H; pose proof (nth_error_enumerate _ _ H) as He.
  destruct (nth_error_split _ _ He) as (l1 & l2 & E & Hlen).
  exists l1, l2; split; [exact E|].
  intros j b Hin; apply In_nth_error in Hin; destruct Hin as [k Hk].
  assert (Hlt : k < i).
  { rewrite <- Hlen; apply nth_error_Some; congruence. }
  assert (Hk' : nth_error (enumerate l) k = Some (j, b)).
  { rewrite E, nth_error_app1 by (rewrite Hlen; exact Hlt); exact Hk. }
  apply nth_error_enumerate_from in Hk'; destruct Hk' as [-> Hb].
  split; [exact Hlt | exact Hb].
Qed.

Section Selection.

Context {P : Platform}.

Lemma score_one_ill_typed d i s fields :
  dict_get d (key_of_int (Z.of_nat (i + 1))) = Some (JObj fields) ->
  typed_item (JObj fields) = false ->
  exists names,
    score_one d (i, s)
    = Raise (ValidationError (lit "SentenceScore") names) /\
    names <> [].
Proof.
  intros H Ht; unfold score_one; rewrite H; unfold get; simpl.
  unfold typed_item in Ht; unfold make_SentenceScore.
  destruct (lookup fields (lit "score")) as [v|].
  - destruct (validate_float v) as [f|] eqn:Ev;
      destruct (lookup fields (lit "rationale")) as [r|];
      try destruct (validate_optional_str r) as [o|] eqn:Er;
      simpl in Ht; try discriminate;
      eexists; (split; [reflexivity | discriminate]).
  - rewrite validate_float_exact.
    destruct (lookup fields (lit "rationale")) as [r|];
      try destruct (validate_optional_str r) as [o|] eqn:Er;
      simpl in Ht; try discriminate;
      eexists; (split; [reflexivity | discriminate]).
Qed.

Lemma score_one_selected dict items i s :
  (forall k, dict_get dict k = find_last k items) ->
  selected_typed items i = true ->
  exists ss,
    score_one dict (i, s) = Ok ss /\
    ss_index ss = i /\ ss_text ss = s /\
    match selected items i with
    | Some (JObj fields) =>
        match lookup fields (lit "score") with
        | Some v => validate_float v = Some (ss_score ss)
        | None => ss_score ss = zero_float
        end /\
        match lookup fields (lit "rationale") with
        | Some v => validate_optional_str v = Some (ss_rationale ss)
        | None => ss_rationale ss = None
        end
    | Some _ => False
    | None => ss_score ss = zero_float /\ ss_rationale ss = None
    end.
Proof.
  intros Hg Ht; unfold selected_typed in Ht; unfold selected in *.
  destruct (find_last (key_of_int (Z.of_nat (i + 1))) items)
    as [found|] eqn:E.
  - destruct (find_last_some _ _ E) as (_ & _ & _ & Hk & _).
    destruct (item_key_object _ Hk) as [fields ->].
    assert (Hd : dict_get dict (key_of_int (Z.of_nat (i + 1)))
                 = Some (JObj fields)) by (rewrite Hg; exact E).
    destruct (score_one_found dict i s Hd Ht) as (ss & Hss & Hsc & Hra).
    destruct (score_one_fields _ _ _ Hss) as [Hi Htx].
    exists ss; repeat split; assumption.
  - eexists; split; [apply score_one_default; rewrite Hg; exact E|].
    repeat split.
Qed.

(** The scorer succeeds when the objects it uses are well typed, and
    then every sentence has the values of its object. *)
Lemma build_scores_selected sentences d items :
  lookup d (lit "scores") = Some (JArr items) ->
  forallb indexed items = true ->
  (forall i, i < length sentences -> selected_typed items i = true) ->
  exists scored,
    build_scores sentences (JObj d) = Ok scored /\
    length scored = length sentences /\
    forall i s,
      nth_error sentences i = Some s ->
      exists ss,
        nth_error scored i = Some ss /\
        ss_index ss = i /\ ss_text ss = s /\
        match selected items i with
        | Some (JObj fields) =>
            match lookup fields (lit "score") with
            | Some v => validate_float v = Some (ss_score ss)
            | None => ss_score ss = zero_float
            end /\
            match lookup fields (lit "rationale") with
            | Some v => validate_optional_str v = Some (ss_rationale ss)
            | None => ss_rationale ss = None
            end
        | Some _ => False
        | None => ss_score ss = zero_float /\ ss_rationale ss = None
        end.
Proof.
  intros Hl Hi Ht.
  destruct (build_scores_by_find_last sentences d Hl Hi)
    as [dict [Hg Hb]].
  destruct (rmap_total (score_one dict) (enumerate sentences))
    as [scored Hs].
  { intros [i s] Hin; apply in_enumerate in Hin.
    assert (Hlt : i < length sentences)
      by (apply nth_error_Some; congruence).
    destruct (score_one_selected dict items i s Hg (Ht i Hlt))
      as (ss & Hss & _).
    exists ss; exact Hss. }
  assert (Hlen : length scored = length sentences).
  { rewrite (rmap_length _ _ Hs); unfold enumerate.
    rewrite length_combine, length_seq; lia. }
  exists scored; split; [rewrite Hb; exact Hs|].
  split; [exact Hlen|].
  intros i s Hn.
  assert (Hlt : i < length sentences)
    by (apply nth_error_Some; congruence).
  destruct (nth_error scored i) as [ss|] eqn:Ess.
  2:{ apply nth_error_None in Ess; lia. }
  exists ss; split; [reflexivity|].
  destruct (rmap_nth _ _ Hs i Ess) as [[j t] [Hj Hone]].
  rewrite (nth_error_enumerate _ _ Hn) in Hj.
  inversion Hj; subst j t.
  destruct (score_one_selected dict items i s Hg (Ht i Hlt))
    as (ss' & Hss' & Hrest).
  rewrite Hss' in Hone; inversion Hone; subst ss'; exact Hrest.
Qed.

Lemma build_scores_ill_typed sentences d items i s :
  lookup d (lit "scores") = Some (JArr items) ->
  forallb indexed items = true ->
  nth_error sentences i = Some s ->
  (forall j, j < i -> selected_typed items j = true) ->
  selected_typed items i = false ->
  exists names,
    build_scores sentences (JObj d)
    = Raise (ValidationError (lit "SentenceScore") names) /\
    names <> [].
Proof.
  intros Hl Hi Hn Hbefore Hbad.
  destruct (build_scores_by_find_last sentences d Hl Hi)
    as [dict [Hg Hb]].
  unfold selected_typed, selected in Hbad.
  destruct (find_last (key_of_int (Z.of_nat (i + 1))) items)
    as [found|] eqn:E; [|discriminate].
  destruct (find_last_some _ _ E) as (_ & _ & _ & Hk & _).
  destruct (item_key_object _ Hk) as [fields ->].
  assert (Hd : dict_get dict (key_of_int (Z.of_nat (i + 1)))
               = Some (JObj fields)) by (rewrite Hg; exact E).
  destruct (score_one_ill_typed dict i s Hd Hbad) as (names & Hr & Hne).
  exists names; split; [|exact Hne].
  destruct (enumerate_split _ _ Hn) as (l1 & l2 & Hsplit & Hl1).
  rewrite Hb, Hsplit.
  apply rmap_first_raise; [|exact Hr].
  intros [j t] Hin; destruct (Hl1 j t Hin) as [Hlt _].
  destruct (score_one_selected dict items j t Hg (Hbefore j Hlt))
    as (ss & Hss & _).
  exists ss; exact Hss.
Qed.

Lemma build_scores_none_selected sentences d items :
  lookup d (lit "scores") = Some (JArr items) ->
  forallb indexed items = true ->
  (forall i, i < length sentences -> selected items i = None) ->
  build_scores sentences (JObj d) = Ok (all_defaults sentences).
Proof.
  intros Hl Hi Hnone.
  destruct (build_scores_by_find_last sentences d Hl Hi)
    as [dict [Hg Hb]].
  rewrite Hb; unfold all_defaults.
  rewrite <- (rmap_all_ok
                (fun entry =>
                   Ok (mkSentenceScore (fst entry) (snd entry)
                         zero_float None))
                (fun entry =>
                   mkSentenceScore (fst entry) (snd entry)
                     zero_float None)
                (enumerate sentences) (fun _ => eq_refl)).
  apply rmap_ext; intros [i s] Hin; apply in_enumerate in Hin.
  assert (Hlt : i < length sentences)
    by (apply nth_error_Some; rewrite Hin; discriminate).
  apply score_one_default; rewrite Hg; apply (Hnone i Hlt).
Qed.

(** What [highlight] does once the scorer has raised something other
    than the two exceptions the handler catches. *)
Lemma highlight_scorer_raised req hdr w client s rest reply data e :
  let w1 := snd (adopt_api_key req hdr w) in
  let call := mkCall client default_model
                (scoring_prompt (s :: rest) (req_question req))
                zero_float in
  split_sentences (req_text req) = s :: rest ->
  init_llm_client None None None w1 = (Ok client, w1) ->
  llm w call = ReplyText (Some reply) ->
  reply <> [] ->
  json_loads (clean_response reply) = inr data ->
  build_scores (s :: rest) data = Raise e ->
  highlight req hdr w
  = (match e with
     | LLMNotConfigured msg => Raise (HTTPException 400 msg)
     | LLMCallError msg => Raise (HTTPException 500 msg)
     | _ => Raise e
     end, log_call w1 call).
Proof.
  intros w1 call Hs Hc Hr Hn Hj Hb.
  destruct (adopt_api_key_frame req hdr w) as [_ [Hl _]].
  fold w1 in Hl.
  assert (Hr1 : llm w1 call = ReplyText (Some reply))
    by (rewrite Hl; exact Hr).
  assert (Ht : highlight_text (req_text req) (req_question req)
                 default_model w1
               = (Raise e, log_call w1 call)).
  { erewrite highlight_text_reply by eassumption.
    rewrite Hj, Hb; reflexivity. }
  apply (highlight_raised _ _ _ Ht).
Qed.

End Selection.

(** ** Objects the scorer does not use, and objects it cannot use *)

Lemma key_str_not_int s z : KStr s <> key_of_int z.
Proof.
  destruct (key_of_int_num z) as [m [e ->]]; discriminate.
Qed.

Section Tolerance.

Context {P : Platform}.

Lemma typed_all_selected items :
  forallb typed_item items = true ->
  forall i, selected_typed items i = true.
Proof.
  intros Ht i; unfold selected_typed, selected.
  destruct (find_last (key_of_int (Z.of_nat (i + 1))) items)
    as [found|] eqn:E; [|reflexivity].
  destruct (find_last_some _ _ E) as (pre & post & -> & _ & _).
  apply (proj1 (forallb_forall _ _) Ht).
  apply in_or_app; right; left; reflexivity.
Qed.

Lemma build_scores_no_items sentences d v :
  lookup d (lit "scores") = Some v ->
  iterate v = Ok [] ->
  build_scores sentences (JObj d) = Ok (all_defaults sentences).
Proof.
  intros Hl Hit; unfold build_scores, subscript; rewrite Hl; simpl.
  rewrite Hit; simpl; unfold all_defaults.
  rewrite <- (rmap_all_ok
                (fun entry =>
                   Ok (mkSentenceScore (fst entry) (snd entry)
                         zero_float None))
                (fun entry =>
                   mkSentenceScore (fst entry) (snd entry)
                     zero_float None)
                (enumerate sentences) (fun _ => eq_refl)).
  apply rmap_ext; intros [i s] _.
  apply score_one_default; reflexivity.
Qed.

(** X10.  Objects whose index is none of [1..N] are not used, whatever
    else they hold: when no object of the list has an index in range,
    every sentence gets 0.0 and no rationale.  This is the case when
    the indices are written as strings: ["1"] is not [1]. *)
Theorem X10_objects_out_of_range_are_ignored :
  forall sentences d items,
    lookup d (lit "scores") = Some (JArr items) ->
    (forallb indexed items = true ->
     forallb (fun item => negb (in_range (length sentences) item)) items
     = true ->
     build_scores sentences (JObj d) = Ok (all_defaults sentences)) /\
    ((forall item, In item items ->
        exists fields s,
          item = JObj fields /\
          lookup fields (lit "index") = Some (JStr s)) ->
     build_scores sentences (JObj d) = Ok (all_defaults sentences)).
Proof.
  intros sentences d items Hl; split.
  - intros Hi Hout.
    apply (@build_scores_none_selected P sentences d items Hl Hi).
    intros i Hlt; apply find_last_none; intros x Hx Hk.
    apply has_key_true in Hk.
    pose proof (@has_key_in_range (length sentences) i x Hlt Hk) as Hin.
    pose proof (proj1 (forallb_forall _ _) Hout x Hx) as Hn.
    simpl in Hn; rewrite Hin in Hn; discriminate.
  - intros Hstr.
    assert (Hkey : forall x, In x items ->
                     exists s, item_key x = Some (KStr s)).
    { intros x Hx; destruct (Hstr x Hx) as (fields & s & -> & Hidx).
      exists s; unfold item_key; rewrite Hidx; reflexivity. }
    assert (Hi : forallb indexed items = true).
    { apply forallb_forall; intros x Hx.
      destruct (Hkey x Hx) as [s Hs]; unfold indexed; rewrite Hs.
      reflexivity. }
    apply (@build_scores_none_selected P sentences d items Hl Hi).
    intros i _; apply find_last_none; intros x Hx Hk.
    destruct (Hkey x Hx) as [s Hs]; rewrite Hs in Hk.
    inversion Hk as [Hk']; apply (@key_str_not_int s (Z.of_nat (i + 1)) Hk').
Qed.

(** X11.  An index is compared with the sentence number as Python
    compares dict keys: a value selects sentence number [n] exactly
    when it is a number equal to [n], so [1], [1.0] and [true] all
    select the first sentence, and a string, null, a fraction, an
    infinity or a NaN selects none.  When no two objects share an
    index, the sentence at position [i] gets the score and rationale
    of the object whose index equals [i+1] in that sense. *)
Theorem X11_index_is_compared_as_a_number :
  (forall v n,
     (0 < n)%Z ->
     hash_key v = Ok (key_of_int n) <-> number_equals v n) /\
  (forall sentences d items i s fields v,
     lookup d (lit "scores") = Some (JArr items) ->
     forallb indexed items = true ->
     forallb typed_item items = true ->
     NoDup (map item_key items) ->
     nth_error sentences i = Some s ->
     In (JObj fields) items ->
     lookup fields (lit "index") = Some v ->
     number_equals v (Z.of_nat (i + 1)) ->
     exists scored ss,
       build_scores sentences (JObj d) = Ok scored /\
       nth_error scored i = Some ss /\
       ss_index ss = i /\ ss_text ss = s /\
       match lookup fields (lit "score") with
       | Some x => validate_float x = Some (ss_score ss)
       | None => ss_score ss = zero_float
       end /\
       match lookup fields (lit "rationale") with
       | Some x => validate_optional_str x = Some (ss_rationale ss)
       | None => ss_rationale ss = None
       end).
Proof.
  split; [apply hash_key_number|].
  intros sentences d items i s fields v Hl Hi Ht Hnd Hn Hin Hidx Hnum.
  assert (Hpos : (0 < Z.of_nat (i + 1))%Z) by lia.
  assert (Hk : item_key (JObj fields)
               = Some (key_of_int (Z.of_nat (i + 1)))).
  { apply (@item_key_index fields v Hidx), hash_key_number; assumption. }
  pose proof (@find_last_unique _ items (JObj fields) Hnd Hin Hk) as Hsel.
  destruct (@build_scores_selected P sentences d items Hl Hi
              (fun j _ => @typed_all_selected items Ht j))
    as (scored & Hb & _ & Hall).
  destruct (Hall i s Hn) as (ss & Hss & Hix & Htx & Hval).
  unfold selected in Hval; rewrite Hsel in Hval.
  destruct Hval as [Hsc Hra].
  exists scored, ss; repeat split; assumption.
Qed.

(** X12.  A decoded document of the wrong shape makes the scorer raise
    [TypeError]: a document that is not an object, a ["scores"] that
    is null, a bool or a number, an element that is not an object, an
    index that is a list or an object.  A ["scores"] that is a
    non-empty object or string fails likewise, its keys or characters
    being taken for elements, and an empty one passes for an empty
    list.  The handler does not translate the exception: the client
    receives the framework's bare 500. *)
Theorem X12_malformed_document_raises_TypeError :
  forall sentences,
    (forall data,
       is_object data = false ->
       exists msg, build_scores sentences data = Raise (TypeError msg)) /\
    (forall d v,
       lookup d (lit "scores") = Some v ->
       is_scalar v = true ->
       exists msg,
         build_scores sentences (JObj d) = Raise (TypeError msg)) /\
    (forall d pre item post,
       lookup d (lit "scores") = Some (JArr (pre ++ item :: post)) ->
       forallb indexed pre = true ->
       is_object item = false ->
       exists msg,
         build_scores sentences (JObj d) = Raise (TypeError msg)) /\
    (forall d pre fields v post,
       lookup d (lit "scores")
       = Some (JArr (pre ++ JObj fields :: post)) ->
       forallb indexed pre = true ->
       lookup fields (lit "index") = Some v ->
       is_container v = true ->
       exists msg,
         build_scores sentences (JObj d) = Raise (TypeError msg)) /\
    (forall d v,
       lookup d (lit "scores") = Some v ->
       v = JObj [] \/ v = JStr [] ->
       build_scores sentences (JObj d) = Ok (all_defaults sentences)) /\
    (forall d v,
       lookup d (lit "scores") = Some v ->
       (exists kv more, v = JObj (kv :: more)) \/
       (exists c s, v = JStr (c :: s)) ->
       exists msg,
         build_scores sentences (JObj d) = Raise (TypeError msg)) /\
    (forall req hdr w client s rest reply data msg,
       let w1 := snd (adopt_api_key req hdr w) in
       let call := mkCall client default_model
                     (scoring_prompt (s :: rest) (req_question req))
                     zero_float in
       split_sentences (req_text req) = s :: rest ->
       init_llm_client None None None w1 = (Ok client, w1) ->
       llm w call = ReplyText (Some reply) ->
       reply <> [] ->
       json_loads (clean_response reply) = inr data ->
       build_scores (s :: rest) data = Raise (TypeError msg) ->
       highlight req hdr w = (Raise (TypeError msg), log_call w1 call) /\
       http_response (fst (highlight req hdr w)) = internal_server_error).
Proof.
  intros sentences.
  split.
  { intros data Hd; destruct data; try discriminate;
      eexists; reflexivity. }
  split.
  { intros d v Hl Hv; unfold build_scores, subscript; rewrite Hl; simpl.
    destruct v; try discriminate; eexists; reflexivity. }
  split.
  { intros d pre item post Hl Hpre Hitem.
    unfold build_scores, subscript; rewrite Hl; simpl.
    rewrite rfold_app.
    destruct (rfold_index_items pre [] Hpre) as [dict [-> _]]; simpl.
    destruct item; try discriminate; eexists; reflexivity. }
  split.
  { intros d pre fields v post Hl Hpre Hidx Hv.
    unfold build_scores, subscript; rewrite Hl; simpl.
    rewrite rfold_app.
    destruct (rfold_index_items pre [] Hpre) as [dict [-> _]]; simpl.
    unfold index_item, subscript; rewrite Hidx; simpl.
    destruct v; try discriminate; eexists; reflexivity. }
  split.
  { intros d v Hl [-> | ->];
      apply (@build_scores_no_items sentences d _ Hl); reflexivity. }
  split.
  { intros d v Hl [(kv & more & ->) | (c & s & ->)];
      unfold build_scores, subscript; rewrite Hl; simpl;
      eexists; reflexivity. }
  intros req hdr w client s rest reply data msg w1 call
         Hs Hc Hr Hn Hj Hb.
  pose proof (@highlight_scorer_raised P req hdr w client s rest reply _ _
                Hs Hc Hr Hn Hj Hb) as H.
  fold w1 call in H; rewrite H; split; reflexivity.
Qed.

(** X13.  Only the objects the scorer uses are validated.  When for
    every sentence the last object with its index (if any) has a score
    that the float validation accepts and a rationale that is a string
    or null, the scorer succeeds, whatever the other objects hold.
    When the first sentence for which this fails is reached, the
    scorer raises the [ValidationError] of [SentenceScore], which the
    handler does not translate: the client receives the framework's
    bare 500. *)
Theorem X13_only_selected_objects_are_validated :
  forall sentences d items,
    lookup d (lit "scores") = Some (JArr items) ->
    forallb indexed items = true ->
    ((forall i, i < length sentences -> selected_typed items i = true) ->
     exists scored,
       build_scores sentences (JObj d) = Ok scored /\
       length scored = length sentences) /\
    (forall i,
       i < length sentences ->
       (forall j, j < i -> selected_typed items j = true) ->
       selected_typed items i = false ->
       exists names,
         build_scores sentences (JObj d)
         = Raise (ValidationError (lit "SentenceScore") names) /\
         names <> []) /\
    (forall req hdr w client s rest reply model names,
       let w1 := snd (adopt_api_key req hdr w) in
       let call := mkCall client default_model
                     (scoring_prompt (s :: rest) (req_question req))
                     zero_float in
       sentences = s :: rest ->
       split_sentences (req_text req) = s :: rest ->
       init_llm_client None None None w1 = (Ok client, w1) ->
       llm w call = ReplyText (Some reply) ->
       reply <> [] ->
       json_loads (clean_response reply) = inr (JObj d) ->
       build_scores sentences (JObj d)
       = Raise (ValidationError model names) ->
       highlight req hdr w
       = (Raise (ValidationError model names), log_call w1 call) /\
       http_response (fst (highlight req hdr w)) = internal_server_error).
Proof.
  intros sentences d items Hl Hi.
  split.
  { intros Ht.
    destruct (@build_scores_selected P sentences d items Hl Hi Ht)
      as (scored & Hb & Hlen & _).
    exists scored; split; assumption. }
  split.
  { intros i Hlt Hbefore Hbad.
    destruct (nth_error sentences i) as [s|] eqn:Hn.
    - apply (@build_scores_ill_typed P sentences d items i s Hl Hi Hn Hbefore Hbad).
    - apply nth_error_None in Hn; lia. }
  intros req hdr w client s rest reply model names w1 call
         -> Hs Hc Hr Hn Hj Hb.
  pose proof (@highlight_scorer_raised P req hdr w client s rest reply _ _
                Hs Hc Hr Hn Hj Hb) as H.
  fold w1 call in H; rewrite H; split; reflexivity.
Qed.

End Tolerance.

(** ** The shape of the sentences *)

Lemma spaced_app_r u v : spaced (u ++ v) = true -> spaced v = true.
Proof.
  induction u as [|c u IH]; intros H; [exact H|].
  apply IH; apply (spaced_cons _ _ H).
Qed.

Lemma spaced_app_l u v :
  spaced (u ++ v) = true -> ends_space u = false -> spaced u = true.
Proof.
  induction u as [|c u IH]; intros H He; [reflexivity|].
  change ((c :: u) ++ v) with (c :: u ++ v) in H.
  destruct (spaced_cons _ _ H) as [Hrest Hc].
  destruct u as [|d u].
  - simpl in He; simpl; rewrite He; reflexivity.
  - assert (Hu : spaced (d :: u) = true) by (apply IH; assumption).
    simpl; destruct (is_space c) eqn:Ec; [|exact Hu].
    destruct (Hc eq_refl) as [-> Hns].
    simpl in Hns; rewrite Hns; simpl.
    simpl in Hu; exact Hu.
Qed.

Lemma has_break_snoc u :
  forall a c tail,
    spaced (u ++ c :: tail) = true ->
    has_break a (u ++ [c])
    = has_break a u || (ends_terminal_space a u && is_upper c).
Proof.
  induction u as [|d u IH]; intros a c tail H.
  - simpl; rewrite !andb_false_r; reflexivity.
  - change ((d :: u) ++ c :: tail) with (d :: u ++ c :: tail) in H.
    destruct (spaced_cons _ _ H) as [Hrest Hd].
    change ((d :: u) ++ [c]) with (d :: u ++ [c]).
    cbn [has_break]; rewrite (IH (is_terminal d) c tail Hrest).
    destruct u as [|e u].
    + cbn [app drop_while has_break ends_terminal_space starts_upper].
      destruct (is_space d) eqn:Ed.
      * destruct (Hd eq_refl) as [_ Hns]; simpl in Hns.
        apply negb_true_iff in Hns; rewrite Hns.
        rewrite !andb_false_r; simpl.
        rewrite !orb_false_r; reflexivity.
      * rewrite !andb_false_r; simpl.
        destruct (is_space c); simpl; rewrite ?andb_false_r; reflexivity.
    + change (ends_terminal_space a (d :: e :: u))
        with (ends_terminal_space (is_terminal d) (e :: u)).
      rewrite orb_assoc; f_equal; f_equal.
      destruct (is_space d) eqn:Ed; [|rewrite !andb_false_r; reflexivity].
      destruct (Hd eq_refl) as [_ Hns]; simpl in Hns.
      apply negb_true_iff in Hns.
      simpl; rewrite Hns; reflexivity.
Qed.

Lemma last_char_snoc u prev c : last_char prev (u ++ [c]) = Some c.
Proof.
  revert prev; induction u as [|d u IH]; intros prev; [reflexivity|].
  simpl; apply IH.
Qed.

Lemma ends_terminal_rev_cons p q :
  ends_terminal (rev (p :: q)) = is_terminal p.
Proof.
  unfold ends_terminal; simpl rev; rewrite last_char_snoc; reflexivity.
Qed.

Lemma last_char_is_some e u : exists t, last_char (Some e) u = Some t.
Proof.
  revert e; induction u as [|d u IH]; intros e; simpl;
    [eexists; reflexivity | apply IH].
Qed.

Lemma last_char_cons d u :
  last_char None (d :: u)
  = match last_char None u with
    | Some t => Some t
    | None => Some d
    end.
Proof.
  destruct u as [|e u]; [reflexivity|].
  simpl; destruct (last_char_is_some e u) as [t ->]; reflexivity.
Qed.

Lemma ends_terminal_space_snoc u :
  forall a c,
    ends_terminal_space a (u ++ [c])
    = is_space c
      && match last_char None u with
         | Some t => is_terminal t
         | None => a
         end.
Proof.
  induction u as [|d u IH]; intros a c.
  - simpl; apply andb_comm.
  - change ((d :: u) ++ [c]) with (d :: u ++ [c]).
    rewrite last_char_cons.
    replace (ends_terminal_space a (d :: u ++ [c]))
      with (ends_terminal_space (is_terminal d) (u ++ [c]))
      by (destruct u; reflexivity).
    rewrite IH; destruct (last_char None u); reflexivity.
Qed.

(** The terminal mark before the position, read off the piece. *)
Lemma piece_ok_last prev piece rest :
  piece_ok prev piece rest ->
  match last_char None (rev piece) with
  | Some t => is_terminal t
  | None => false
  end = after_terminal prev.
Proof.
  intros [_ H]; destruct piece as [|c p].
  - destruct H as [H _]; rewrite H; reflexivity.
  - destruct H as [-> _]; simpl rev; rewrite last_char_snoc; reflexivity.
Qed.

Lemma scan_structure rest :
  forall prev piece,
    spaced (rev piece ++ rest) = true ->
    piece_ok prev piece rest ->
    has_break false (rev piece) = false ->
    (ends_terminal_space false (rev piece) = true ->
     starts_upper rest = false) ->
    let out := clean_pieces (split_scan prev 0 piece rest) in
    Forall (fun s => spaced s = true /\ has_break false s = false) out /\
    Forall (fun s => starts_upper s = true) (tl out) /\
    Forall (fun s => ends_terminal s = true) (removelast out).
Proof.
  induction rest as [|c rest IH];
    intros prev piece Hall Hok Hnb Hets out; subst out.
  - assert (E : clean_pieces (split_scan prev 0 piece [])
                = clean_pieces [rev piece]).
    { simpl; destruct (boundary_match prev []); [|reflexivity].
      rewrite !clean_pieces_cons; reflexivity. }
    rewrite E; clear E.
    rewrite app_nil_r in Hall.
    destruct Hok as [Hstart Hpiece].
    destruct piece as [|p q];
      [repeat split; constructor|].
    destruct Hpiece as [_ Hc].
    assert (Ec : is_space p = false).
    { destruct (is_space p); [discriminate (Hc eq_refl) | reflexivity]. }
    destruct (@rev_piece_trimmed p q Hstart Ec) as [Hfix Hne].
    rewrite clean_pieces_cons, Hfix, Hne.
    split; [|split]; [|constructor|constructor].
    constructor; [split; assumption | constructor].
  - pose proof (spaced_app_r _ _ Hall) as Hsp.
    destruct (spaced_cons _ _ Hsp) as [Hrest Hc].
    pose proof (piece_ok_last Hok) as Hlast.
    destruct Hok as [Hstart Hpiece].
    destruct (@boundary_match_spaced prev c rest Hsp)
      as [Hnone|(Hone & Hterm & -> & Hup)].
    + assert (E : split_scan prev 0 piece (c :: rest)
                  = split_scan (Some c) 0 (c :: piece) rest).
      { simpl split_scan; rewrite Hnone; reflexivity. }
      rewrite E; clear E.
      assert (Hall' : spaced (rev (c :: piece) ++ rest) = true).
      { simpl rev; rewrite <- app_assoc; exact Hall. }
      assert (Hok' : piece_ok (Some c) (c :: piece) rest).
      { split.
        - destruct piece as [|p q].
          + destruct Hpiece as [_ H]; exact H.
          + change (rev (c :: p :: q)) with (rev (p :: q) ++ [c]).
            rewrite starts_space_app; [exact Hstart|].
            simpl; intros H; apply app_eq_nil in H; destruct H;
              discriminate.
        - split; [reflexivity|].
          intros H; apply (Hc H). }
      apply (IH (Some c) (c :: piece) Hall' Hok').
      * simpl rev; rewrite (@has_break_snoc (rev piece) false c rest Hall).
        rewrite Hnb; simpl.
        destruct (ends_terminal_space false (rev piece)) eqn:Ee;
          [|reflexivity].
        specialize (Hets eq_refl); simpl in Hets; rewrite Hets.
        reflexivity.
      * simpl rev; rewrite ends_terminal_space_snoc, Hlast.
        intros H; apply andb_prop in H; destruct H as [Hcs Hat].
        destruct (Hc Hcs) as [-> _].
        destruct (starts_upper rest) eqn:Eu; [|reflexivity].
        destruct prev as [p|]; [|discriminate].
        simpl in Hat.
        rewrite (@boundary_match_between p rest Hat Eu) in Hnone.
        discriminate.
    + assert (E : split_scan prev 0 piece (ch_space :: rest)
                  = rev piece :: split_scan (Some ch_space) 0 [] rest).
      { simpl split_scan; rewrite Hone; reflexivity. }
      rewrite E; clear E.
      destruct piece as [|p q].
      { destruct Hpiece as [H _]; congruence. }
      destruct Hpiece as [-> _]; simpl in Hterm.
      destruct (@rev_piece_trimmed p q Hstart
                  (terminal_not_space _ Hterm)) as [Hfix Hne].
      assert (Hns : starts_space rest = false).
      { destruct rest as [|d r]; [reflexivity|].
        apply upper_not_space, Hup. }
      assert (Hok' : piece_ok (Some ch_space) [] rest).
      { split; [reflexivity|]; split; [reflexivity | exact Hns]. }
      destruct (IH (Some ch_space) [] Hrest Hok' eq_refl
                  (fun H => False_ind _ (diff_false_true H)))
        as (Hb' & Hu' & He').
      destruct (@scan_spaced rest (Some ch_space) [] Hrest Hok')
        as [Hj Hf].
      rewrite clean_pieces_cons, Hfix, Hne.
      remember (clean_pieces (split_scan (Some ch_space) 0 [] rest))
        as out' eqn:Eout.
      assert (Hx : spaced (rev (p :: q)) = true).
      { apply (spaced_app_l _ _ Hall).
        rewrite ends_space_rev, rev_involutive.
        apply (terminal_not_space _ Hterm). }
      destruct out' as [|s l].
      { simpl in Hj; rewrite <- Hj in Hup; discriminate. }
      inversion Hf as [|? ? [Hsne _] _]; subst.
      split; [|split].
      * constructor; [split; assumption | exact Hb'].
      * cbn [tl]; constructor; [|exact Hu'].
        rewrite <- (@starts_upper_join s l Hsne), Hj; exact Hup.
      * change (removelast (rev (p :: q) :: s :: l))
          with (rev (p :: q) :: removelast (s :: l)).
        constructor; [|exact He'].
        rewrite ends_terminal_rev_cons; exact Hterm.
Qed.

Lemma split_sentences_no_break text :
  has_break false text = false ->
  split_sentences text
  = match normalize text with
    | [] => []
    | _ :: _ => [normalize text]
    end.
Proof.
  intros Hb; pose proof (normalize_normalized text) as Hn.
  destruct (normalized_parts _ Hn) as [_ Hsp].
  unfold split_sentences, re_split.
  rewrite <- has_break_normalize in Hb.
  destruct (@scan_no_break (normalize text) None [] Hsp Hb) as [E|E];
    rewrite E; simpl app; apply (clean_single _ Hn).
Qed.

(** X14.  The sentences are cut at the cut points and nowhere else:
    every sentence is trimmed and single-spaced and holds no terminal
    mark followed by a space and a capital, so that splitting it again
    gives the sentence itself; every sentence after the first starts
    with a capital [A-Z]; every sentence but the last ends with one of
    the marks [. ! ?]. *)
Theorem X14_sentences_are_cut_at_every_break :
  forall text,
    let sentences := split_sentences text in
    Forall (fun s => normalized s = true /\
                     has_break false s = false /\
                     split_sentences s = [s]) sentences /\
    Forall (fun s => starts_upper s = true) (tl sentences) /\
    Forall (fun s => ends_terminal s = true) (removelast sentences).
Proof.
  intros text sentences; subst sentences.
  pose proof (normalize_normalized text) as Hn.
  destruct (normalized_parts _ Hn) as [_ Hsp].
  destruct (@scan_structure (normalize text) None [] Hsp
              (normalize_piece_ok text) eq_refl
              (fun H => False_ind _ (diff_false_true H)))
    as (Hb & Hu & He).
  destruct (@scan_spaced (normalize text) None [] Hsp
              (normalize_piece_ok text)) as [_ Hf].
  split; [|split; assumption].
  apply Forall_forall; intros s Hs.
  destruct (proj1 (Forall_forall _ _) Hb s Hs) as [Hss Hsb].
  destruct (proj1 (Forall_forall _ _) Hf s Hs) as [Hne Hfix].
  assert (Hnorm : normalized s = true).
  { unfold normalized; rewrite Hss, <- Hfix, strip_starts; reflexivity. }
  split; [exact Hnorm|]; split; [exact Hsb|].
  rewrite (split_sentences_no_break _ Hsb).
  rewrite (normalized_normalize _ Hnorm).
  destruct s; [contradiction Hne; reflexivity | reflexivity].
Qed.

(** ** A request from the text to the scores *)

Section Whole.

Context {P : Platform}.

(** X16.  The whole of [highlight_text] on a well-formed answer: the
    text is split, one call is made with the scoring prompt of the
    sentences, the answer is trimmed and taken out of its code fence,
    decoded, and when the decoded document is [{"scores": items}] with
    sound indices and well-typed objects for the sentences, the
    response has the question as given and one entry per sentence, in
    order, with the values of the object selected for it (0.0 and no
    rationale without one). *)
Theorem X16_highlight_text_scores_every_sentence :
  forall text question model w client reply d items,
    let sentences := split_sentences text in
    let call := mkCall client model (scoring_prompt sentences question)
                       zero_float in
    sentences <> [] ->
    init_llm_client None None None w = (Ok client, w) ->
    llm w call = ReplyText (Some reply) ->
    reply <> [] ->
    json_loads (clean_response reply) = inr (JObj d) ->
    lookup d (lit "scores") = Some (JArr items) ->
    forallb indexed items = true ->
    (forall i, i < length sentences -> selected_typed items i = true) ->
    exists scored,
      highlight_text text question model w
      = (Ok (mkResponse scored question), log_call w call) /\
      length scored = length sentences /\
      forall i s,
        nth_error sentences i = Some s ->
        exists ss,
          nth_error scored i = Some ss /\
          ss_index ss = i /\ ss_text ss = s /\
          match selected items i with
          | Some (JObj fields) =>
              match lookup fields (lit "score") with
              | Some v => validate_float v = Some (ss_score ss)
              | None => ss_score ss = zero_float
              end /\
              match lookup fields (lit "rationale") with
              | Some v => validate_optional_str v = Some (ss_rationale ss)
              | None => ss_rationale ss = None
              end
          | Some _ => False
          | None => ss_score ss = zero_float /\ ss_rationale ss = None
          end.
Proof.
  intros text question model w client reply d items sentences call
         Hne Hc Hr Hn Hj Hl Hi Ht.
  destruct (@build_scores_selected P sentences d items Hl Hi Ht)
    as (scored & Hb & Hlen & Hall).
  exists scored; split; [|split; assumption].
  subst call; revert Hr Hb; subst sentences.
  destruct (split_sentences text) as [|s rest] eqn:Hs;
    [contradiction Hne; reflexivity|].
  intros Hr Hb.
  rewrite (@highlight_text_reply P text question model w client reply
             s rest Hs Hc Hr Hn).
  rewrite Hj, Hb; reflexivity.
Qed.

End Whole.

(** ** Saving the same query again *)

Lemma write_file_names {V} (d : directory V) name content :
  read_file d name <> None ->
  map fst (write_file d name content) = map fst d.
Proof.
  induction d as [|[n c] d IH]; simpl; [congruence|].
  destruct (pystr_eqb n name); [reflexivity|].
  intros H; simpl; rewrite (IH H); reflexivity.
Qed.

Lemma write_file_length {V} (d : directory V) name content :
  length (write_file d name content) <= S (length d).
Proof.
  induction d as [|[n c] d IH]; simpl; [lia|].
  destruct (pystr_eqb n name); simpl; lia.
Qed.

Lemma write_file_again {V} (d : directory V) name content content' :
  map fst (write_file (write_file d name content) name content')
  = map fst (write_file d name content).
Proof.
  apply write_file_names; rewrite read_write_file; discriminate.
Qed.

(** X17.  Saving a query with the same text and question again
    returns the same identifier and replaces the two files: no file
    name is added to either directory, whatever the response.  A first
    save adds at most one file to each directory. *)
Theorem X17_saving_again_adds_no_file :
  forall req response response' w,
    let w1 := snd (save_query req response w) in
    let w2 := snd (save_query req response' w1) in
    fst (save_query req response' w1) = fst (save_query req response w) /\
    map fst (files_of (saved w2)) = map fst (files_of (saved w1)) /\
    map fst (files_of (saved_results w2))
    = map fst (files_of (saved_results w1)) /\
    length (files_of (saved w1)) <= S (length (files_of (saved w))) /\
    length (files_of (saved_results w1))
    <= S (length (files_of (saved_results w))).
Proof.
  intros req response response' w w1 w2; subst w1 w2.
  destruct (encode (req_text req ++ lit "|" ++ req_question req))
    as [encoded|] eqn:E.
  - rewrite (save_query_world req response' _ E).
    rewrite !(save_query_returns req _ _ E).
    rewrite (save_query_world req response w E).
    cbn [saved saved_results files_of].
    split; [reflexivity|].
    split; [apply write_file_again|].
    split; [apply write_file_again|].
    split; apply write_file_length.
  - rewrite !(save_query_refused req _ _ E).
    cbn [fst snd saved saved_results files_of].
    repeat split; lia.
Qed.

(** ** Fetching what the listing shows *)

Lemma startswith_app p s :
  startswith p s = true -> exists t, s = p ++ t.
Proof.
  revert s; induction p as [|a p IH]; intros s H; [exists s; reflexivity|].
  destruct s as [|b s]; [discriminate|].
  simpl in H; apply andb_prop in H; destruct H as [Hab Hs].
  apply N.eqb_eq in Hab; subst b.
  destruct (IH s Hs) as [t ->]; exists t; reflexivity.
Qed.

Lemma endswith_inv p s :
  endswith p s = true -> exists h, s = h ++ p.
Proof.
  unfold endswith; intros H; apply startswith_app in H.
  destruct H as [t Ht]; exists (rev t).
  rewrite <- (rev_involutive s), Ht, rev_app_distr, rev_involutive.
  reflexivity.
Qed.

Lemma stem_of_json_name name :
  endswith (lit ".json") name = true -> name <> lit ".json" ->
  stem name ++ lit ".json" = name.
Proof.
  intros He Hn; destruct (@endswith_inv (lit ".json") name He) as [h ->].
  rewrite stem_json; [reflexivity|].
  intros ->; apply Hn; reflexivity.
Qed.

Lemma read_file_unique {V} (d : directory V) name content :
  NoDup (map fst d) -> In (name, content) d ->
  read_file d name = Some content.
Proof.
  induction d as [|[n c] d IH]; intros Hnd Hin; [contradiction|].
  simpl in Hnd; inversion Hnd as [|? ? Hnotin Hnd']; subst.
  simpl; destruct Hin as [Heq|Hin].
  - inversion Heq; subst; rewrite pystr_eqb_refl; reflexivity.
  - destruct (pystr_eqb n name) eqn:E; [|apply IH; assumption].
    apply pystr_eqb_eq in E; subst n.
    exfalso; apply Hnotin.
    apply (in_map fst _ _ Hin).
Qed.

(** X18.  What [list_saved] shows, [get_saved] finds: for a file of
    [saved] whose name ends in [.json], the hash of its entry, put
    back into a file name, is the name of the file, and [get_saved]
    answers that hash with the document of the file.  The one
    exception is a file named just [.json]: its stem is the whole
    name, so its entry has the hash [.json], for which [get_saved]
    looks up [.json.json]. *)
Theorem X18_listed_queries_can_be_fetched :
  forall w d name query_data,
    saved w = Some d ->
    NoDup (map fst d) ->
    In (name, query_data) d ->
    endswith (lit ".json") name = true ->
    (name <> lit ".json" ->
     stem name ++ lit ".json" = name /\
     exists result,
       get_saved (stem name) w
       = (Ok (JObj [(lit "query", query_document query_data);
                    (lit "result", result)]), w)) /\
    (name = lit ".json" ->
     read_file d (lit ".json.json") = None ->
     get_saved (stem name) w
     = (Raise (HTTPException 404 (lit "Query not found")), w)).
Proof.
  intros w d name query_data Hd Hnd Hin He; split.
  - intros Hn; pose proof (@stem_of_json_name name He Hn) as Hs.
    split; [exact Hs|].
    eexists; apply get_saved_found.
    rewrite Hs, Hd; cbn [load_file].
    apply read_file_unique; assumption.
  - intros -> Hmissing; unfold get_saved.
    change (stem (lit ".json") ++ lit ".json") with (lit ".json.json").
    rewrite Hd; cbn [load_file]; rewrite Hmissing; reflexivity.
Qed.

Lemma X16_highlight_text_scores_every_sentence_witness :
  exists scored,
    highlight_text (P := demo_platform) (req_text sky_request)
      (req_question sky_request) default_model
      (keyed_world empty_scores_text)
    = (Ok (mkResponse scored (req_question sky_request)),
       log_call (keyed_world empty_scores_text)
         (mkCall (ApiKeyClient (lit "secret")) default_model
            (scoring_prompt (split_sentences (req_text sky_request))
               (req_question sky_request))
            zero_float)) /\
    length scored = 2.
Proof.
  destruct (@X16_highlight_text_scores_every_sentence demo_platform
              (req_text sky_request) (req_question sky_request)
              default_model (keyed_world empty_scores_text)
              (ApiKeyClient (lit "secret")) empty_scores_text
              [(lit "scores", JArr [])] [])
    as (scored & Hh & Hlen & _);
    try reflexivity; try discriminate.
  exists scored; split; [exact Hh | exact Hlen].
Defined.

(** ** The further statements on concrete data *)

Example stem_examples :
  stem (lit "abc.json") = lit "abc" /\
  stem (lit ".json") = lit ".json" /\
  stem (lit "..json") = lit "." /\
  stem (lit "a.b.json") = lit "a.b" /\
  stem (lit "abc.") = lit "abc." /\
  stem (lit "abc") = lit "abc".
Proof. repeat split. Qed.

Example sorted_reverse_example :
  sorted_reverse snd
    [(lit "a", 1%Z); (lit "b", 2%Z); (lit "c", 1%Z); (lit "d", 2%Z);
     (lit "e", 0%Z)]
  = [(lit "b", 2%Z); (lit "d", 2%Z); (lit "a", 1%Z); (lit "c", 1%Z);
     (lit "e", 0%Z)].
Proof. reflexivity. Qed.

Example list_saved_example :
  fst (list_saved demo_mtime
         (mkWorld [] None (constant_llm []) [] (Some demo_files) None))
  = Ok (JObj [(lit "queries",
               JArr [JObj [(lit "hash", JStr (lit "new"));
                           (lit "question", JStr (lit "second question"));
                           (lit "text_preview", JStr (lit "second text"))];
                     JObj [(lit "hash", JStr (lit "old"));
                           (lit "question", JStr (lit "first question"));
                           (lit "text_preview",
                            JStr (lit "first text"))]])]).
Proof. reflexivity. Qed.

Example get_saved_missing :
  fst (get_saved (lit "abb6139d502d") (empty_world (constant_llm [])))
  = Raise (HTTPException 404 (lit "Query not found")).
Proof. reflexivity. Qed.

Example one_float_is_one : number_equals (JFloat one_float) 1.
Proof. reflexivity. Qed.

Lemma demo_request_hash :
  lit "abb6139d502d"
  = firstn 12
      (sha256_hexdigest
         (map Z.of_N (lit "The sky. Grass is green.|q"))).
Proof. vm_compute; reflexivity. Qed.

Lemma X1_get_saved_returns_what_was_saved_witness :
  get_saved (lit "abb6139d502d")
    (snd (save_query demo_request (mkResponse [] (lit "q"))
            (keyed_world [])))
  = (Ok (JObj [(lit "query",
                JObj [(lit "text", JStr (req_text demo_request));
                      (lit "question", JStr (req_question demo_request))]);
               (lit "result", model_dump (mkResponse [] (lit "q")))]),
     snd (save_query demo_request (mkResponse [] (lit "q"))
            (keyed_world []))).
Proof.
  destruct (@X1_get_saved_returns_what_was_saved demo_request
              (mkResponse [] (lit "q")) (keyed_world [])
              (map Z.of_N (lit "The sky. Grass is green.|q")) eq_refl)
    as [_ H].
  rewrite demo_request_hash; exact H.
Defined.


Lemma X3_bar_in_text_or_question_collides_witness :
  fst (save_query (mkRequest (lit "x|y") (lit "z") None)
         (mkResponse [] (lit "z")) (keyed_world []))
  = fst (save_query (mkRequest (lit "x") (lit "y|z") None)
           (mkResponse [] (lit "y|z"))
           (snd (save_query (mkRequest (lit "x|y") (lit "z") None)
                   (mkResponse [] (lit "z")) (keyed_world [])))).
Proof.
  destruct (@X3_bar_in_text_or_question_collides (lit "x") (lit "y")
              (lit "z") None None (mkResponse [] (lit "z"))
              (mkResponse [] (lit "y|z")) (keyed_world [])
              (map Z.of_N (lit "x|y|z")) eq_refl)
    as (H1 & H2 & _).
  exact (eq_trans H1 (eq_sym H2)).
Defined.

Lemma X5_saved_query_is_listed_witness :
  exists queries,
    list_saved (fun _ => 0%Z)
      (snd (save_query demo_request (mkResponse [] (lit "q"))
              (keyed_world [])))
    = (Ok (JObj [(lit "queries", JArr queries)]),
       snd (save_query demo_request (mkResponse [] (lit "q"))
              (keyed_world []))) /\
    In (JObj [(lit "hash", JStr (lit "abb6139d502d"));
              (lit "question",
               JStr (firstn 100 (req_question demo_request)));
              (lit "text_preview",
               JStr (firstn 100 (req_text demo_request)))])
       queries.
Proof.
  destruct (@X5_saved_query_is_listed (fun _ => 0%Z) demo_request
              (mkResponse [] (lit "q")) (keyed_world [])
              (map Z.of_N (lit "The sky. Grass is green.|q")) eq_refl)
    as (queries & Hl & Hin).
  exists queries; split; [exact Hl|].
  rewrite demo_request_hash; exact Hin.
Defined.

Lemma X6_empty_llm_response_is_500_with_detail_witness :
  http_response
    (fst (highlight (P := demo_platform) sky_request None (keyed_world [])))
  = (500%Z, BodyDetail empty_response_message).
Proof.
  exact (proj1 (proj2
    (@X6_empty_llm_response_is_500_with_detail demo_platform sky_request
       None (keyed_world []) (ApiKeyClient (lit "secret"))
       (lit "The sky is blue.") [lit "Grass is green."] (Some [])
       eq_refl eq_refl eq_refl eq_refl))).
Defined.

Lemma X7_service_exception_is_not_wrapped_witness :
  http_response
    (fst (highlight (P := demo_platform) sky_request None
            (keyed_service_world
               (raising_llm (ServiceError (lit "503 unavailable"))))))
  = internal_server_error.
Proof.
  exact (proj1 (proj2 (proj2
    (@X7_service_exception_is_not_wrapped demo_platform sky_request None
       (keyed_service_world
          (raising_llm (ServiceError (lit "503 unavailable"))))
       (ApiKeyClient (lit "secret"))
       (lit "The sky is blue.") [lit "Grass is green."]
       (lit "503 unavailable") eq_refl eq_refl eq_refl)))).
Defined.

Lemma X9_clean_response_unwraps_fence_witness :
  clean_response
    (lit "  "
       ++ (fence ++ lit "json" ++ [ch_newline] ++ empty_scores_text
             ++ [ch_newline] ++ fence)
       ++ [ch_newline])
  = empty_scores_text.
Proof.
  exact (@X9_clean_response_unwraps_fence (lit "  ") [ch_newline]
           (lit "json") empty_scores_text eq_refl eq_refl
           (or_intror eq_refl)).
Defined.

Lemma X10_objects_out_of_range_are_ignored_witness :
  build_scores (P := demo_platform) [lit "A."; lit "B."]
    (scores_doc
       [JObj [(lit "index", JStr (lit "1")); (lit "score", JFloat half)];
        scored_item 3 quarter])
  = Ok (all_defaults [lit "A."; lit "B."]).
Proof.
  exact (proj1
    (@X10_objects_out_of_range_are_ignored demo_platform
       [lit "A."; lit "B."]
       [(lit "scores",
         JArr [JObj [(lit "index", JStr (lit "1"));
                     (lit "score", JFloat half)];
               scored_item 3 quarter])]
       [JObj [(lit "index", JStr (lit "1")); (lit "score", JFloat half)];
        scored_item 3 quarter] eq_refl)
    eq_refl eq_refl).
Defined.

Lemma X11_index_is_compared_as_a_number_witness :
  exists scored ss,
    build_scores (P := demo_platform) [lit "A."]
      (scores_doc
         [JObj [(lit "index", JFloat one_float);
                (lit "score", JFloat half)]])
    = Ok scored /\
    nth_error scored 0 = Some ss /\
    ss_score ss = half.
Proof.
  destruct (proj2 (@X11_index_is_compared_as_a_number demo_platform)
              [lit "A."]
              [(lit "scores",
                JArr [JObj [(lit "index", JFloat one_float);
                            (lit "score", JFloat half)]])]
              [JObj [(lit "index", JFloat one_float);
                     (lit "score", JFloat half)]]
              0 (lit "A.")
              [(lit "index", JFloat one_float); (lit "score", JFloat half)]
              (JFloat one_float)
              eq_refl eq_refl eq_refl
              (NoDup_cons _ (fun H : In _ [] => H) (NoDup_nil _))
              eq_refl (or_introl eq_refl) eq_refl eq_refl)
    as (scored & ss & Hb & Hn & _ & _ & Hs & _).
  exists scored, ss; split; [exact Hb|]; split; [exact Hn|].
  simpl in Hs; inversion Hs; reflexivity.
Defined.

Lemma X12_malformed_document_raises_TypeError_witness :
  (exists msg,
     build_scores (P := demo_platform) [lit "A."] (JArr [])
     = Raise (TypeError msg)) /\
  build_scores (P := demo_platform) [lit "A."]
    (JObj [(lit "scores", JObj [])])
  = Ok (all_defaults [lit "A."]).
Proof.
  destruct (@X12_malformed_document_raises_TypeError demo_platform
              [lit "A."]) as (H1 & _ & _ & _ & H5 & _).
  split.
  - exact (H1 (JArr []) eq_refl).
  - exact (H5 [(lit "scores", JObj [])] (JObj []) eq_refl
              (or_introl eq_refl)).
Defined.

Lemma X13_only_selected_objects_are_validated_witness :
  exists names,
    build_scores (P := demo_platform) [lit "A."]
      (scores_doc
         [JObj [(lit "index", JInt 1); (lit "score", JStr (lit "high"))]])
    = Raise (ValidationError (lit "SentenceScore") names) /\
    names <> [].
Proof.
  destruct (@X13_only_selected_objects_are_validated demo_platform
              [lit "A."]
              [(lit "scores",
                JArr [JObj [(lit "index", JInt 1);
                            (lit "score", JStr (lit "high"))]])]
              [JObj [(lit "index", JInt 1);
                     (lit "score", JStr (lit "high"))]]
              eq_refl eq_refl) as (_ & H & _).
  apply (H 0).
  - simpl; lia.
  - intros j Hj; lia.
  - reflexivity.
Defined.

Lemma X15_split_sentences_ignores_whitespace_shape_witness :
  split_sentences (lit " " ++ lit "One.  Two." ++ [ch_newline])
  = split_sentences (lit "One.  Two.").
Proof.
  exact (proj1
    (@X15_split_sentences_ignores_whitespace_shape (lit "One.  Two.")
       (lit " ") [ch_newline] eq_refl eq_refl)).
Defined.

Lemma X18_listed_queries_can_be_fetched_witness :
  exists result,
    get_saved (lit "new")
      (mkWorld [] None (constant_llm []) [] (Some demo_files) None)
    = (Ok (JObj [(lit "query",
                  query_document (lit "second text", lit "second question"));
                 (lit "result", result)]),
       mkWorld [] None (constant_llm []) [] (Some demo_files) None).
Proof.
  assert (Hnd : NoDup (map fst demo_files)).
  { repeat constructor; simpl; intros H;
      repeat (destruct H as [H|H]; [discriminate H|]); exact H. }
  destruct (@X18_listed_queries_can_be_fetched
              (mkWorld [] None (constant_llm []) [] (Some demo_files) None)
              demo_files (lit "new.json")
              (lit "second text", lit "second question")
              eq_refl Hnd
              (or_intror (or_intror (or_introl eq_refl))) eq_refl)
    as [H _].
  destruct H as [_ H]; [discriminate|].
  exact H.
Defined.
